(** * AccessControl: grant store, role hierarchy, access builder and query
    resolution

    A shallow embedding of [lib/utils.js], [lib/AccessControl.js], the
    [Access] builder and the [Query] resolver.

    Conventions of the embedding.
    - A JavaScript string is a [string] whose characters are the UTF-16 code
      units below 256.
    - A plain object used as a dictionary is a [gmap] of its own properties.
      For the names that a plain object inherits from [Object.prototype]
      the code does not always look at own properties (the truth test
      [grants[name]], a shadowed [hasOwnProperty], the assignment to
      [__proto__]); the statements that depend on it carry the hypotheses
      [plain], [plainNames] or [plainGrants].
    - The grants are a tree of values.  Where sharing matters, the
      statements are about the stores the library has made itself
      ([madeHere]), and the query resolution is embedded a second time
      over a heap of arrays and query records (module [Ref]).
    - A value of TypeScript type [string | string[]], possibly omitted, is
      a [Val]; an optional string is an [option string].
    - A function that may throw returns a [Result]; a function that writes to
      the grants object runs in the state monad [GM] over that object, and a
      method of the facade or of a builder runs in the state monad [M] over
      the [World] (the heap of grants objects and the facade's fields).  A
      [Throw] keeps the state reached so far, as a JavaScript exception does.
    - [utils.getRoleHierarchyOf] recurses; the number of nested calls it may
      make is the parameter [depth] (the call stack), and running out of it
      is the [RangeError] of the runtime.
    - [Notation.Glob.union] belongs to the external notation library and is a
      parameter [union]. *)

From Stdlib Require Import Ascii String List Bool Arith Lia.
From stdpp Require Import base option list strings gmap fin_maps.

Set Default Proof Using "Type".

(** ** JavaScript strings *)

Module Js.

(** [WhiteSpace] and [LineTerminator] code units below 256: TAB, LF, VT, FF,
    CR, SP and NBSP.  They are what [String.prototype.trim] strips and what
    [\s] matches. *)
Definition is_space (c : ascii) : bool :=
  let n := nat_of_ascii c in
  (Nat.leb 9 n && Nat.leb n 13) || Nat.eqb n 32 || Nat.eqb n 160.

Fixpoint trimStart (s : string) : string :=
  match s with
  | String c s' => if is_space c then trimStart s' else s
  | EmptyString => EmptyString
  end.

Definition trimEnd (s : string) : string :=
  String.rev (trimStart (String.rev s)).

(** [s.trim()] *)
Definition trim (s : string) : string := trimEnd (trimStart s).

(** [s.trim() === ''] *)
Definition blank (s : string) : bool :=
  if decide (trim s = "") then true else false.

(** [s.split(c)] for a one-character separator [c]: the pieces between the
    occurrences of [c]; never the empty list. *)
Fixpoint split (sep : ascii -> bool) (s : string) : list string :=
  match s with
  | EmptyString => [EmptyString]
  | String c s' =>
      if sep c then EmptyString :: split sep s'
      else match split sep s' with
           | h :: t => String c h :: t
           | [] => [String c EmptyString]
           end
  end.

Definition is_colon (c : ascii) : bool := Nat.eqb (nat_of_ascii c) 58.

(** [;] or [,] *)
Definition is_delim (c : ascii) : bool :=
  Nat.eqb (nat_of_ascii c) 59 || Nat.eqb (nat_of_ascii c) 44.

(** [s.split(/\s*[;,]\s*/)].  A match of the pattern is one delimiter with
    the white space on both sides of it, and it is never empty, so the
    result is the list of pieces between the delimiters, each without the
    white space that touches a delimiter. *)
Fixpoint splitDelims_go (first : bool) (l : list string) : list string :=
  match l with
  | [] => []
  | [p] => [if first then p else trimStart p]
  | p :: rest =>
      (if first then trimEnd p else trim p) :: splitDelims_go false rest
  end.

Definition splitDelims (s : string) : list string :=
  splitDelims_go true (split is_delim s).

(** [c.toLowerCase()] on a code unit below 256: A-Z and the Latin-1 capitals
    (all of U+00C0..U+00DE but the multiplication sign U+00D7). *)
Definition lower_char (c : ascii) : ascii :=
  let n := nat_of_ascii c in
  if (Nat.leb 65 n && Nat.leb n 90)
     || (Nat.leb 192 n && Nat.leb n 222 && negb (Nat.eqb n 215))
  then ascii_of_nat (n + 32) else c.

Fixpoint toLowerCase (s : string) : string :=
  match s with
  | EmptyString => EmptyString
  | String c s' => String (lower_char c) (toLowerCase s')
  end.

(** The string a value becomes inside a concatenation; [undefined] prints as
    its name. *)
Definition str (o : option string) : string := default "undefined" o.

(** Truthiness of an optional string: [undefined] and [''] are falsy. *)
Definition truthy (o : option string) : bool :=
  match o with
  | Some s => if decide (s = "") then false else true
  | None => false
  end.

End Js.

(** ** Values, errors and the grants model *)

(** A value of type [string | string[]] that may be omitted. *)
Inductive Val :=
  | Undefined
  | Str (s : string)
  | Arr (l : list string).

(** The messages of [AccessControlError], one constructor per message
    template of the source, with the values spliced into it. *)
Inductive Msg :=
  | ERR_LOCK                 (* Cannot alter the underlying grants model. AccessControl instance is locked. *)
  | InvalidName              (* Invalid name, expected a valid string. *)
  | ReservedName (name : string)                 (* Cannot use reserved name: name *)
  | InvalidResourceDefinition                    (* Invalid resource definition. *)
  | InvalidResourceAttributes (action : string)  (* Invalid resource attributes for action action. *)
  | InvalidSubjectDefinition                     (* Invalid subject definition. *)
  | InvalidExtendValue (subjectName : string)    (* Invalid extend value for subject subjectName: ... *)
  | ReservedResourceName (name : string)         (* Cannot use reserved name name for a resource. *)
  | InvalidGrantsObject                          (* Invalid grants object. Expected an array or object. *)
  | InvalidAction                                (* Invalid action: ... *)
  | InvalidPossession (poss : string)            (* Invalid action possession: poss *)
  | InvalidIQueryInfo                            (* Invalid IQueryInfo: ... *)
  | InvalidIAccessInfo                           (* Invalid IAccessInfo: ... *)
  | InvalidSubjects (subjects : list string)     (* Invalid subject(s): [...] *)
  | InvalidResource (resource : option string)   (* Invalid resource: resource *)
  | InvalidResources (resources : list string)   (* Invalid resource(s): [...] *)
  | SubjectNotFound (name : string)              (* Subject not found: name *)
  | SelfExtend (subjectName : string)            (* Cannot extend subject subjectName by itself. *)
  | CrossInheritance (extender subject : string) (* Cross inheritance is not allowed. Subject extender already extends subject. *)
  | InheritInvalid                               (* Cannot inherit invalid subject(s): ... *)
  | InheritNonExistent (subjects : list string)  (* Cannot inherit non-existent subject(s): a, b *)
  | RemoveNonExisting (subjectName : string)     (* Cannot remove a non-existing subject: subjectName *)
  | LockEmpty                                    (* Cannot lock empty or invalid grants model. *)
  | CouldNotLock.                                (* Could not lock grants: ... *)

(** What a call can throw: the library's own error, the [TypeError] of a
    write to a frozen object (the library runs in strict mode) and the
    [RangeError] of an exhausted call stack. *)
Inductive Error :=
  | AccessControlError (m : Msg)
  | TypeError
  | RangeError.

Inductive Result (A : Type) :=
  | Ok (a : A)
  | Throw (e : Error).
Arguments Ok {A} a.
Arguments Throw {A} e.

Global Instance Result_ret : MRet Result := fun A a => Ok a.
Global Instance Result_bind : MBind Result := fun A B f r =>
  match r with
  | Ok a => f a
  | Throw e => Throw e
  end.

Definition acThrow {A} (m : Msg) : Result A := Throw (AccessControlError m).

(** [arr.forEach(f)] when [f] may throw and updates an accumulator. *)
Fixpoint forEachR {A B} (f : B -> A -> Result B) (l : list A) (b : B)
  : Result B :=
  match l with
  | [] => Ok b
  | x :: l' => b' ← f b x; forEachR f l' b'
  end.

(** The value stored under a key of a role object: the inheritance list
    under [_extend_] is an array, a resource definition is an object from
    action-possession keys to attribute lists. *)
Inductive Entry :=
  | EArr (l : list string)
  | EObj (o : gmap string (list string)).

Abbreviation ResourceDef := (gmap string (list string)) (only parsing).
Abbreviation Role := (gmap string Entry) (only parsing).
Abbreviation Grants := (gmap string (gmap string Entry)) (only parsing).

Global Instance Entry_eq_dec : EqDecision Entry.
Proof. solve_decision. Defined.

(** [IAccessInfo] *)
Record IAccessInfo := {
  ai_subject : Val;
  ai_resource : Val;
  ai_action : option string;
  ai_possession : option string;
  ai_attributes : Val;
  ai_denied : bool
}.

(** [IQueryInfo] *)
Record IQueryInfo := {
  qi_subject : Val;
  qi_resource : option string;
  qi_action : option string;
  qi_possession : option string
}.

(** [{}] *)
Definition emptyAccess : IAccessInfo :=
  {| ai_subject := Undefined; ai_resource := Undefined; ai_action := None;
     ai_possession := None; ai_attributes := Undefined; ai_denied := false |}.

Definition emptyQuery : IQueryInfo :=
  {| qi_subject := Undefined; qi_resource := None; qi_action := None;
     qi_possession := None |}.

(** The argument of [setGrants]: a nested mapping or a flat list of
    records.  Values of other JavaScript types, which inspection rejects
    with [InvalidGrantsObject], are [GOther]. *)
Inductive GrantsInput :=
  | GObject (o : Grants)
  | GArray (items : list IAccessInfo)
  | GOther.

(** ** utils: the functions that only read *)

Module utils.

Definition RESERVED_KEYWORDS : list string := ["*"; "!"; "$"; "_extend_"].

(** [o.hasOwnProperty(k)] *)
Definition has {V} (o : gmap string V) (k : string) : bool :=
  if o !! k is Some _ then true else false.

Definition toStringArray (value : Val) : list string :=
  match value with
  | Arr l => l
  | Str s => Js.splitDelims (Js.trim s)
  | Undefined => []
  end.

Definition isFilledStringArray (arr : list string) : bool :=
  forallb (fun s => negb (Js.blank s)) arr.

Definition isEmptyArray (value : Val) : bool :=
  match value with
  | Arr [] => true
  | _ => false
  end.

(** [arr.indexOf(item) >= 0] *)
Definition includes (arr : list string) (item : string) : bool :=
  bool_decide (item ∈ arr).

Definition pushUniq (arr : list string) (item : string) : list string :=
  if includes arr item then arr else arr ++ [item].

Definition uniqConcat (arrA arrB : list string) : list string :=
  foldl pushUniq arrA arrB.

Definition subtractArray (arrA arrB : list string) : list string :=
  List.filter (fun a => negb (includes arrB a)) arrA.

(** Truthiness of a [Val]: [undefined] and [''] are falsy, an array is
    truthy even when it is empty. *)
Definition truthyVal (v : Val) : bool :=
  match v with
  | Undefined => false
  | Str s => Js.truthy (Some s)
  | Arr _ => true
  end.

Definition hasDefined (v : Val) : bool :=
  match v with
  | Undefined => false
  | _ => true
  end.

Definition isInfoFulfilled (info : IAccessInfo) : bool :=
  hasDefined (ai_subject info)
  && (if ai_action info is Some _ then true else false)
  && hasDefined (ai_resource info).

Definition validName (name : string) (throwOnInvalid : bool) : Result bool :=
  if Js.blank name then
    if throwOnInvalid then acThrow InvalidName else Ok false
  else if includes RESERVED_KEYWORDS name then
    if throwOnInvalid then acThrow (ReservedName name) else Ok false
  else Ok true.

(** [utils.each] stops at the first callback that returns [false]. *)
Fixpoint hasValidNames_go (l : list string) (throwOnInvalid : bool)
  : Result bool :=
  match l with
  | [] => Ok true
  | name :: l' =>
      v ← validName name throwOnInvalid;
      if (v : bool) then hasValidNames_go l' throwOnInvalid else Ok false
  end.

Definition hasValidNames (list : Val) (throwOnInvalid : bool) : Result bool :=
  hasValidNames_go (toStringArray list) throwOnInvalid.

(** The normalised [action] and [possession] of an info object. *)
Definition normalizeActionPossession (action possession : option string)
  : Result (string * string) :=
  match action with
  | None => acThrow InvalidAction
  | Some a =>
      let s := Js.split Js.is_colon a in
      let action' := Js.toLowerCase (Js.trim (default "" (s !! 0))) in
      let poss := if Js.truthy possession then possession else s !! 1 in
      if Js.truthy poss then
        let p := Js.str poss in
        if bool_decide (p ≠ "any") && bool_decide (p ≠ "own")
        then acThrow (InvalidPossession p)
        else Ok (action', p)
      else Ok (action', "any")
  end.

Definition normalizeQueryInfo (query : IQueryInfo) : Result IQueryInfo :=
  let subject := toStringArray (qi_subject query) in
  if negb (isFilledStringArray subject) then acThrow (InvalidSubjects subject)
  else
    match qi_resource query with
    | None => acThrow (InvalidResource None)
    | Some r =>
        if Js.blank r then acThrow (InvalidResource (Some r))
        else
          '(a, p) ← normalizeActionPossession
                      (qi_action query) (qi_possession query);
          Ok {| qi_subject := Arr subject; qi_resource := Some (Js.trim r);
                qi_action := Some a; qi_possession := Some p |}
    end.

Definition normalizeAccessInfo (access : IAccessInfo) (all : bool)
  : Result IAccessInfo :=
  let subject := toStringArray (ai_subject access) in
  if bool_decide (length subject = 0) || negb (isFilledStringArray subject)
  then acThrow (InvalidSubjects subject)
  else
    let resource := toStringArray (ai_resource access) in
    if bool_decide (length resource = 0)
       || negb (isFilledStringArray resource)
    then acThrow (InvalidResources resource)
    else
      let attributes :=
        if ai_denied access || isEmptyArray (ai_attributes access)
        then Arr []
        else if negb (truthyVal (ai_attributes access)) then Arr ["*"]
        else Arr (toStringArray (ai_attributes access)) in
      let access' :=
        {| ai_subject := Arr subject; ai_resource := Arr resource;
           ai_action := ai_action access;
           ai_possession := ai_possession access;
           ai_attributes := attributes; ai_denied := ai_denied access |} in
      if all then
        '(a, p) ← normalizeActionPossession
                    (ai_action access) (ai_possession access);
        Ok {| ai_subject := Arr subject; ai_resource := Arr resource;
              ai_action := Some a; ai_possession := Some p;
              ai_attributes := attributes; ai_denied := ai_denied access |}
      else Ok access'.

Definition resetAttributes (access : IAccessInfo) : IAccessInfo :=
  let attributes :=
    if ai_denied access then Arr []
    else if negb (truthyVal (ai_attributes access))
            || isEmptyArray (ai_attributes access)
    then Arr ["*"] else ai_attributes access in
  {| ai_subject := ai_subject access; ai_resource := ai_resource access;
     ai_action := ai_action access; ai_possession := ai_possession access;
     ai_attributes := attributes; ai_denied := ai_denied access |}.

(** [rootRole || subjectName] *)
Definition orElse (rootRole : option string) (subjectName : string) : string :=
  if Js.truthy rootRole then Js.str rootRole else subjectName.

(** [subject._extend_] when it is an array *)
Definition extendOf (subject : Role) : option (list string) :=
  match subject !! "_extend_" with
  | Some (EArr l) => Some l
  | _ => None
  end.

Fixpoint getRoleHierarchyOf (depth : nat) (grants : Grants)
    (subjectName : string) (rootRole : option string)
  : Result (list string) :=
  match grants !! subjectName with
  | None => acThrow (SubjectNotFound subjectName)
  | Some subject =>
      match extendOf subject with
      | None | Some [] => Ok [subjectName]
      | Some _extend_ =>
          forEachR (fun arr exRoleName =>
            if negb (has grants exRoleName)
            then acThrow (SubjectNotFound "undefined")
            else if bool_decide (exRoleName = subjectName)
            then acThrow (SelfExtend subjectName)
            else if Js.truthy rootRole
                    && bool_decide (Js.str rootRole = exRoleName)
            then acThrow (CrossInheritance exRoleName (Js.str rootRole))
            else
              match depth with
              | 0 => Throw RangeError
              | S depth' =>
                  ext ← getRoleHierarchyOf depth' grants exRoleName
                          (Some (orElse rootRole subjectName));
                  Ok (uniqConcat arr ext)
              end) _extend_ [subjectName]
      end
  end.

Definition getFlatRoles (depth : nat) (grants : Grants) (subjects : Val)
  : Result (list string) :=
  let arrRoles := toStringArray subjects in
  if bool_decide (length arrRoles = 0)
  then acThrow (InvalidSubjects arrRoles)
  else
    forEachR (fun arr subjectName =>
      h ← getRoleHierarchyOf depth grants subjectName None;
      Ok (uniqConcat arr h)) arrRoles (uniqConcat [] arrRoles).

Definition getNonExistentRoles (grants : Grants) (subjects : list string)
  : list string :=
  List.filter (fun subject => negb (has grants subject)) subjects.

(** The inner [utils.each] of [getCrossExtendingRole]. *)
Definition inherits (inheritedByExtender : list string)
    (subjectName : string) : bool :=
  includes inheritedByExtender subjectName.

Fixpoint getCrossExtendingRole_go (depth : nat) (grants : Grants)
    (subjectName : string) (extenders : list string)
    (crossInherited : option string) : Result (option string) :=
  match extenders with
  | [] => Ok crossInherited
  | e :: rest =>
      if Js.truthy crossInherited || bool_decide (subjectName = e)
      then Ok crossInherited
      else
        inheritedByExtender ← getRoleHierarchyOf depth grants e None;
        getCrossExtendingRole_go depth grants subjectName rest
          (if inherits inheritedByExtender subjectName
           then Some e else crossInherited)
  end.

Definition getCrossExtendingRole (depth : nat) (grants : Grants)
    (subjectName : string) (extenderRoles : Val) : Result (option string) :=
  getCrossExtendingRole_go depth grants subjectName
    (toStringArray extenderRoles) None.

(** [getResources] visits every key of every role with
    [eachRoleResource], the inheritance key among them, and collects the
    keys in an object; they come out once each.  The order in which
    [Object.keys] lists them is not modelled. *)
Definition getResources (grants : Grants) : list string :=
  foldl (fun resources '(_, role) =>
           foldl (fun resources '(resource, _) => pushUniq resources resource)
             resources (map_to_list role))
    [] (map_to_list grants).

Definition validResourceObject (o : Entry) : Result bool :=
  match o with
  | EArr _ => acThrow InvalidResourceDefinition
  | EObj o =>
      forEachR (fun _ '(action, perms) =>
        if negb (isEmptyArray (Arr perms))
           && negb (isFilledStringArray perms)
        then acThrow (InvalidResourceAttributes action)
        else Ok true) (map_to_list o) true
  end.

(** The attribute list one role contributes to a query, if the role has the
    resource: [resource[action:possession] || resource[action:any] || []]. *)
Definition attrsOf (resource : Entry) (action possession : string)
  : list string :=
  match resource with
  | EObj o =>
      match o !! (action +:+ ":" +:+ possession) with
      | Some l => l
      | None => default [] (o !! (action +:+ ":any"))
      end
  | EArr _ => []
  end.

Section union.
Variable union : list string -> list string -> list string.

Definition getUnionAttrsOfRoles (depth : nat) (grants : Grants)
    (query : IQueryInfo) : Result (list string) :=
  query ← normalizeQueryInfo query;
  subjects ← getFlatRoles depth grants (qi_subject query);
  attrsList ← forEachR (fun attrsList subjectName =>
    match grants !! subjectName with
    | None => Throw TypeError
    | Some subject =>
        match subject !! Js.str (qi_resource query) with
        | Some resource =>
            Ok (attrsList ++
                [attrsOf resource (Js.str (qi_action query))
                   (Js.str (qi_possession query))])
        | None => Ok attrsList
        end
    end) subjects [];
  match attrsList with
  | [] => Ok []
  | attrs :: rest => Ok (foldl union attrs rest)
  end.

End union.

End utils.

(** ** The grants object as mutable state *)

(** A grants object on the heap.  [deepFreeze] freezes the object together
    with every role, resource definition and list below it, so one flag
    stands for the whole tree. *)
Record GObj := {
  g_val : Grants;
  g_frozen : bool
}.

(** Computations on one grants object passed by reference. *)
Definition GM (A : Type) : Type := GObj -> Result A * GObj.

Global Instance GM_ret : MRet GM := fun A a o => (Ok a, o).
Global Instance GM_bind : MBind GM := fun A B f m o =>
  match m o with
  | (Ok a, o') => f a o'
  | (Throw e, o') => (Throw e, o')
  end.

(** Read the object. *)
Definition getG : GM Grants := fun o => (Ok (g_val o), o).

(** An assignment to (or a [delete] of) a property somewhere in the tree.
    In strict mode it throws [TypeError] on a frozen tree. *)
Definition modifyG (f : Grants -> Grants) : GM unit := fun o =>
  if g_frozen o then (Throw TypeError, o)
  else (Ok tt, {| g_val := f (g_val o); g_frozen := false |}).

Definition liftR {A} (r : Result A) : GM A := fun o => (r, o).

Definition throwG {A} (m : Msg) : GM A := liftR (acThrow m).

(** A function that takes the grants object and only reads it. *)
Definition readG {A} (f : Grants -> Result A) : GM A :=
  grants ← getG; liftR (f grants).

Fixpoint forEachG {A} (f : A -> GM unit) (l : list A) : GM unit :=
  match l with
  | [] => mret tt
  | x :: l' => _ ← f x; forEachG f l'
  end.

(** ** utils: the functions that write *)

Module utilsW.
Import utils.

(** [grants[subject][key] = v] for an existing [subject] *)
Definition setEntry (subject key : string) (v : Entry) (grants : Grants)
  : Grants :=
  alter (fun role => <[key := v]> role) subject grants.

Definition extendRole (depth : nat) (subjects extenderRoles : Val)
    (replace : bool) : GM unit :=
  let subjects := toStringArray subjects in
  if bool_decide (length subjects = 0) then throwG (InvalidSubjects subjects)
  else if isEmptyArray extenderRoles then mret tt
  else
    let arrExtRoles := toStringArray extenderRoles in
    if bool_decide (length arrExtRoles = 0) then throwG InheritInvalid
    else
      grants ← getG;
      let nonExistentExtRoles := getNonExistentRoles grants arrExtRoles in
      if bool_decide (0 < length nonExistentExtRoles)
      then throwG (InheritNonExistent nonExistentExtRoles)
      else
        forEachG (fun subjectName =>
          grants ← getG;
          if negb (has grants subjectName)
          then throwG (SubjectNotFound subjectName)
          else if includes arrExtRoles subjectName
          then throwG (SelfExtend subjectName)
          else
            crossInherited ← liftR (getCrossExtendingRole depth grants
                                      subjectName (Arr arrExtRoles));
            if Js.truthy crossInherited
            then throwG (CrossInheritance (Js.str crossInherited) subjectName)
            else
              _ ← liftR (validName subjectName true);
              let r := default ∅ (grants !! subjectName) in
              if negb replace then
                match r !! "_extend_" with
                | Some (EObj _) => liftR (Throw TypeError)
                | Some (EArr l) =>
                    modifyG (setEntry subjectName "_extend_"
                               (EArr (uniqConcat l arrExtRoles)))
                | None =>
                    modifyG (setEntry subjectName "_extend_"
                               (EArr (uniqConcat [] arrExtRoles)))
                end
              else
                modifyG (setEntry subjectName "_extend_" (EArr arrExtRoles)))
          subjects.

Definition preCreateRoles (subjects : Val) : GM unit :=
  let subjects :=
    match subjects with
    | Str s => Arr (toStringArray (Str s))
    | v => v
    end in
  match subjects with
  | Arr ((_ :: _) as l) =>
      forEachG (fun subject =>
        _ ← liftR (validName subject true);
        grants ← getG;
        if negb (has grants subject)
        then modifyG (insert subject ∅)
        else mret tt) l
  | _ => throwG (InvalidSubjects (toStringArray subjects))
  end.

Definition commitToGrants (access : IAccessInfo) (normalizeAll : bool)
  : GM unit :=
  access ← liftR (normalizeAccessInfo access normalizeAll);
  forEachG (fun subject =>
    _ ← liftR (validName subject true);
    grants ← getG;
    _ ← (if negb (has grants subject)
         then modifyG (insert subject ∅) else mret tt);
    let ap := Js.str (ai_action access) +:+ ":"
              +:+ Js.str (ai_possession access) in
    forEachG (fun res =>
      _ ← liftR (validName res true);
      grants ← getG;
      let grantItem := default ∅ (grants !! subject) in
      _ ← (if negb (has grantItem res)
           then modifyG (setEntry subject res (EObj ∅)) else mret tt);
      grants ← getG;
      match default ∅ (grants !! subject) !! res with
      | Some (EObj o) =>
          modifyG (setEntry subject res
                     (EObj (<[ap := toStringArray (ai_attributes access)]> o)))
      | _ => liftR (Throw TypeError)
      end) (toStringArray (ai_resource access)))
    (toStringArray (ai_subject access)).

Definition validRoleObject (depth : nat) (subjectName : string) : GM bool :=
  grants ← getG;
  match grants !! subjectName with
  | None => throwG InvalidSubjectDefinition
  | Some subject =>
      _ ← forEachG (fun resourceName =>
        v ← liftR (validName resourceName false);
        grants ← getG;
        let subject := default ∅ (grants !! subjectName) in
        if negb v then
          if bool_decide (resourceName = "_extend_") then
            match subject !! resourceName with
            | Some (EArr extRoles) =>
                if negb (isFilledStringArray extRoles)
                then throwG (InvalidExtendValue subjectName)
                else extendRole depth (Str subjectName) (Arr extRoles) false
            | _ => throwG (InvalidExtendValue subjectName)
            end
          else throwG (ReservedResourceName resourceName)
        else
          match subject !! resourceName with
          | Some e => _ ← liftR (validResourceObject e); mret tt
          | None => throwG InvalidResourceDefinition
          end) (map fst (map_to_list subject));
      mret true
  end.

(** The object [o] given to [setGrants] belongs to the caller and is not
    frozen; the result is that same object after inspection, or a new
    object filled from the list. *)
Definition getInspectedGrants (depth : nat) (o : GrantsInput)
  : Result Grants :=
  match o with
  | GObject o =>
      let '(r, o') :=
        forEachG (fun subjectName =>
          _ ← liftR (validName subjectName true);
          _ ← validRoleObject depth subjectName;
          mret tt) (map fst (map_to_list o))
          {| g_val := o; g_frozen := false |} in
      _ ← r; Ok (g_val o')
  | GArray items =>
      let '(r, o') :=
        forEachG (fun item => commitToGrants item true) items
          {| g_val := ∅; g_frozen := false |} in
      _ ← r; Ok (g_val o')
  | GOther => acThrow InvalidGrantsObject
  end.

End utilsW.

(** ** The facade and the builders over a heap of grants objects *)

(** [setGrants] and [reset] give the facade a new grants object, while a
    builder keeps the reference it was created with; so grants objects live
    on a [heap] and [_grants] is a reference into it. *)
Record World := {
  heap : list GObj;
  _grants : nat;
  _isLocked : bool
}.

Definition M (A : Type) : Type := World -> Result A * World.

Global Instance M_ret : MRet M := fun A a w => (Ok a, w).
Global Instance M_bind : MBind M := fun A B f m w =>
  match m w with
  | (Ok a, w') => f a w'
  | (Throw e, w') => (Throw e, w')
  end.

Definition throwM {A} (e : Error) : M A := fun w => (Throw e, w).

(** Run a computation on the grants object behind reference [l].  Every
    reference handed out by the model is allocated; the last case is for
    totality. *)
Definition atRef {A} (l : nat) (m : GM A) : M A := fun w =>
  match heap w !! l with
  | Some o =>
      let '(r, o') := m o in
      (r, {| heap := <[l := o']> (heap w); _grants := _grants w;
             _isLocked := _isLocked w |})
  | None => (Throw TypeError, w)
  end.

(** [this._grants = g] with a new object [g] *)
Definition newGrants (g : Grants) : M unit := fun w =>
  (Ok tt, {| heap := heap w ++ [{| g_val := g; g_frozen := false |}];
             _grants := length (heap w); _isLocked := _isLocked w |}).

(** The grants object of the facade. *)
Definition store (w : World) : Grants :=
  default ∅ (g_val <$> heap w !! _grants w).

(** [Object.isFrozen(this._grants)] *)
Definition isFrozen (w : World) : bool :=
  default false (g_frozen <$> heap w !! _grants w).

(** [Permission]: the decision object.
    Modelled from the spec: the class is declared in [Permission.d.ts] and
    its implementation is not part of the sources; section 4.4 of the
    specification gives its construction: resolve the attributes of the
    normalised query, [granted] is that the resolved list is not empty, and
    [subjects] and [resource] expose the normalised query. *)
Record PermissionT := {
  attributes : list string;
  subjects : list string;
  resource : string
}.

Definition granted (p : PermissionT) : bool :=
  negb (bool_decide (attributes p = [])).

(** [new Permission(grants, query)] *)
Definition Permission_new (union : list string -> list string -> list string)
    (depth : nat) (grants : Grants) (query : IQueryInfo)
  : Result PermissionT :=
  attrs ← utils.getUnionAttrsOfRoles union depth grants query;
  q ← utils.normalizeQueryInfo query;
  Ok {| attributes := attrs;
        subjects := utils.toStringArray (qi_subject q);
        resource := Js.str (qi_resource q) |}.

(** [utils.lockAC] *)
Definition lockAC : M unit := fun w =>
  if bool_decide (store w = ∅)
  then (acThrow LockEmpty, w)
  else
    let locked := _isLocked w && isFrozen w && isFrozen w in
    let h := if locked then heap w
             else alter (fun o => {| g_val := g_val o; g_frozen := true |})
                    (_grants w) (heap w) in
    (Ok tt, {| heap := h; _grants := _grants w; _isLocked := true |}).

(** The first argument of [grant], [deny] and of the [Access] constructor. *)
Inductive AccessArg :=
  | ASubject (subject : Val)
  | AInfo (info : IAccessInfo).

(** The first argument of [can] and of the [Query] constructor. *)
Inductive QueryArg :=
  | QSubject (subject : Val)
  | QInfo (info : IQueryInfo).

(** An [Access] instance: the draft [_] and the grants object it writes to. *)
Record AccessT := {
  a_ : IAccessInfo;
  a_grants : nat
}.

(** A [Query] instance. *)
Record QueryT := {
  q_ : IQueryInfo;
  q_grants : nat
}.

Definition setSubject (info : IAccessInfo) (v : Val) : IAccessInfo :=
  {| ai_subject := v; ai_resource := ai_resource info;
     ai_action := ai_action info; ai_possession := ai_possession info;
     ai_attributes := ai_attributes info; ai_denied := ai_denied info |}.

Definition setResource (info : IAccessInfo) (v : Val) : IAccessInfo :=
  {| ai_subject := ai_subject info; ai_resource := v;
     ai_action := ai_action info; ai_possession := ai_possession info;
     ai_attributes := ai_attributes info; ai_denied := ai_denied info |}.

Definition setAttributes (info : IAccessInfo) (v : Val) : IAccessInfo :=
  {| ai_subject := ai_subject info; ai_resource := ai_resource info;
     ai_action := ai_action info; ai_possession := ai_possession info;
     ai_attributes := v; ai_denied := ai_denied info |}.

Definition setDenied (info : IAccessInfo) (d : bool) : IAccessInfo :=
  {| ai_subject := ai_subject info; ai_resource := ai_resource info;
     ai_action := ai_action info; ai_possession := ai_possession info;
     ai_attributes := ai_attributes info; ai_denied := d |}.

Definition setActionPossession (info : IAccessInfo)
    (action possession : option string) : IAccessInfo :=
  {| ai_subject := ai_subject info; ai_resource := ai_resource info;
     ai_action := action; ai_possession := possession;
     ai_attributes := ai_attributes info; ai_denied := ai_denied info |}.

(** [Object.keys(info).length === 0] *)
Definition noKeys (info : IAccessInfo) : bool :=
  negb (utils.hasDefined (ai_subject info))
  && negb (utils.hasDefined (ai_resource info))
  && negb (utils.hasDefined (ai_attributes info))
  && (if ai_action info is None then true else false)
  && (if ai_possession info is None then true else false)
  && negb (ai_denied info).

(** ** Access: the grant/deny builder *)

(** A method of a builder [T] that returns [this]: it may change the draft
    of the builder and the world, also when it throws. *)
Definition Method (T A : Type) : Type := T -> World -> Result A * T * World.

Module Access.
Section depth.
Variable depth : nat.

Definition subject (value : Val) : Method AccessT unit := fun this w =>
  match atRef (a_grants this) (utilsW.preCreateRoles value) w with
  | (Ok _, w') =>
      (Ok tt,
       {| a_ := setSubject (a_ this) value; a_grants := a_grants this |}, w')
  | (Throw e, w') => (Throw e, this, w')
  end.

(** [new Access(ac, subjectOrInfo, denied)] *)
Definition new (subjectOrInfo : AccessArg) (denied : bool) : M AccessT :=
  fun w =>
  let this := {| a_ := setDenied emptyAccess denied;
                 a_grants := _grants w |} in
  match subjectOrInfo with
  | ASubject Undefined => (Ok this, w)
  | ASubject value =>
      match subject value this w with
      | (Ok _, this', w') => (Ok this', w')
      | (Throw e, _, w') => (Throw e, w')
      end
  | AInfo info =>
      if noKeys info
      then (acThrow InvalidIAccessInfo, w)
      else
        let this := {| a_ := utils.resetAttributes (setDenied info denied);
                       a_grants := _grants w |} in
        if utils.isInfoFulfilled (a_ this)
        then
          match atRef (a_grants this)
                  (utilsW.commitToGrants (a_ this) true) w with
          | (Ok _, w') => (Ok this, w')
          | (Throw e, w') => (Throw e, w')
          end
        else (Ok this, w)
  end.

Definition resource (value : Val) : Method AccessT unit := fun this w =>
  match utils.hasValidNames value true with
  | Throw e => (Throw e, this, w)
  | Ok _ =>
      (Ok tt,
       {| a_ := setResource (a_ this) value; a_grants := a_grants this |}, w)
  end.

Definition attributes (value : Val) : Method AccessT unit := fun this w =>
  (Ok tt,
   {| a_ := setAttributes (a_ this) value; a_grants := a_grants this |}, w).

Definition extend (subjects : Val) : Method AccessT unit := fun this w =>
  let '(r, w') :=
    atRef (a_grants this)
      (utilsW.extendRole depth (ai_subject (a_ this)) subjects false) w in
  (r, this, w').

Definition inherit (subjects : Val) : Method AccessT unit := extend subjects.

(** [grant] and [deny] inside a chain make a new instance, bound to the
    grants object the facade has at that moment. *)
Definition grant (subjectOrInfo : AccessArg) : Method AccessT AccessT :=
  fun this w =>
  match new subjectOrInfo false w with
  | (Ok a, w') =>
      (Ok {| a_ := setAttributes (a_ a) (Arr ["*"]); a_grants := a_grants a |},
       this, w')
  | (Throw e, w') => (Throw e, this, w')
  end.

Definition deny (subjectOrInfo : AccessArg) : Method AccessT AccessT :=
  fun this w =>
  match new subjectOrInfo true w with
  | (Ok a, w') =>
      (Ok {| a_ := setAttributes (a_ a) (Arr []); a_grants := a_grants a |},
       this, w')
  | (Throw e, w') => (Throw e, this, w')
  end.

Definition lock : Method AccessT unit := fun this w =>
  let '(r, w') := lockAC w in (r, this, w').

Definition _prepareAndCommit (action possession : option string)
    (resource attributes : Val) : Method AccessT unit := fun this w =>
  let d := setActionPossession (a_ this) action possession in
  let d := if utils.truthyVal resource then setResource d resource else d in
  let d :=
    if ai_denied d then setAttributes d (Arr [])
    else setAttributes d
           (if utils.truthyVal attributes
            then Arr (utils.toStringArray attributes) else Arr ["*"]) in
  match atRef (a_grants this) (utilsW.commitToGrants d false) w with
  | (Ok _, w') =>
      (Ok tt,
       {| a_ := setAttributes d Undefined; a_grants := a_grants this |}, w')
  | (Throw e, w') => (Throw e, {| a_ := d; a_grants := a_grants this |}, w')
  end.

Definition createOwn := _prepareAndCommit (Some "create") (Some "own").
Definition createAny := _prepareAndCommit (Some "create") (Some "any").
Definition create := createAny.
Definition readOwn := _prepareAndCommit (Some "read") (Some "own").
Definition readAny := _prepareAndCommit (Some "read") (Some "any").
Definition read := readAny.
Definition updateOwn := _prepareAndCommit (Some "update") (Some "own").
Definition updateAny := _prepareAndCommit (Some "update") (Some "any").
Definition update := updateAny.
Definition deleteOwn := _prepareAndCommit (Some "delete") (Some "own").
Definition deleteAny := _prepareAndCommit (Some "delete") (Some "any").
Definition delete := deleteAny.

(** [do('resource:action:possession', attributes)] *)
Definition do (action : string) (attributes : Val) : Method AccessT unit :=
  let segments := Js.split Js.is_colon action in
  _prepareAndCommit (segments !! 1) (segments !! 2)
    (Str (default "" (segments !! 0))) attributes.

End depth.
End Access.

(** ** Query: the resolver *)

Module Query.
Section depth.
Variable union : list string -> list string -> list string.
Variable depth : nat.

Definition noKeys (info : IQueryInfo) : bool :=
  negb (utils.hasDefined (qi_subject info))
  && (if qi_resource info is None then true else false)
  && (if qi_action info is None then true else false)
  && (if qi_possession info is None then true else false).

(** [new Query(grants, subjectOrInfo)] *)
Definition new (grants : nat) (subjectOrInfo : QueryArg) : Result QueryT :=
  match subjectOrInfo with
  | QSubject Undefined => Ok {| q_ := emptyQuery; q_grants := grants |}
  | QSubject value =>
      Ok {| q_ := {| qi_subject := value; qi_resource := None;
                     qi_action := None; qi_possession := None |};
            q_grants := grants |}
  | QInfo info =>
      if noKeys info then acThrow InvalidIQueryInfo
      else Ok {| q_ := info; q_grants := grants |}
  end.

Definition subject (value : Val) : Method QueryT unit := fun this w =>
  (Ok tt,
   {| q_ := {| qi_subject := value; qi_resource := qi_resource (q_ this);
               qi_action := qi_action (q_ this);
               qi_possession := qi_possession (q_ this) |};
      q_grants := q_grants this |}, w).

Definition resource (value : option string) : Method QueryT unit :=
  fun this w =>
  (Ok tt,
   {| q_ := {| qi_subject := qi_subject (q_ this); qi_resource := value;
               qi_action := qi_action (q_ this);
               qi_possession := qi_possession (q_ this) |};
      q_grants := q_grants this |}, w).

(** [new Permission(this._grants, this._)] is given the reference of the
    query and reads the grants object behind it. *)
Definition _getPermission (action possession : option string)
    (resource : option string) : Method QueryT PermissionT := fun this w =>
  let d := {| qi_subject := qi_subject (q_ this);
              qi_resource := if Js.truthy resource then resource
                             else qi_resource (q_ this);
              qi_action := action; qi_possession := possession |} in
  let this' := {| q_ := d; q_grants := q_grants this |} in
  let '(r, w') :=
    atRef (q_grants this)
      (readG (fun grants => Permission_new union depth grants d)) w in
  (r, this', w').

Definition createOwn := _getPermission (Some "create") (Some "own").
Definition createAny := _getPermission (Some "create") (Some "any").
Definition create := createAny.
Definition readOwn := _getPermission (Some "read") (Some "own").
Definition readAny := _getPermission (Some "read") (Some "any").
Definition read := readAny.
Definition updateOwn := _getPermission (Some "update") (Some "own").
Definition updateAny := _getPermission (Some "update") (Some "any").
Definition update := updateAny.
Definition deleteOwn := _getPermission (Some "delete") (Some "own").
Definition deleteAny := _getPermission (Some "delete") (Some "any").
Definition delete := deleteAny.

Definition do (action : string) : Method QueryT PermissionT :=
  let segments := Js.split Js.is_colon action in
  _getPermission (segments !! 1) (segments !! 2) (segments !! 0).

End depth.
End Query.

(** ** AccessControl: the facade *)

Module AccessControl.
Section depth.
Variable union : list string -> list string -> list string.
Variable depth : nat.

(** The getter [isLocked] *)
Definition isLocked (w : World) : bool := _isLocked w && isFrozen w.

Definition getGrants (w : World) : Grants := store w.

(** The [store] callback of the constructor defaults to a function that
    does nothing; the calls of it are left out. *)
Definition setGrants (grantsObject : GrantsInput) : M unit := fun w =>
  if isLocked w then (acThrow ERR_LOCK, w)
  else
    match utilsW.getInspectedGrants depth grantsObject with
    | Ok g => newGrants g w
    | Throw e => (Throw e, w)
    end.

(** [new AccessControl(grants)]; without an argument [grants] is [{}]. *)
Definition new (grants : GrantsInput) : Result unit * World :=
  setGrants grants {| heap := []; _grants := 0; _isLocked := false |}.

Definition reset : M unit := fun w =>
  if isLocked w then (acThrow ERR_LOCK, w)
  else newGrants ∅ w.

Definition lock : M unit := lockAC.

Definition extendRole (subjects extenderRoles : Val) (replace : bool)
  : M unit := fun w =>
  if isLocked w then (acThrow ERR_LOCK, w)
  else atRef (_grants w)
         (utilsW.extendRole depth subjects extenderRoles replace) w.

(** The body of the [eachRole] callback of [removeRoles]. *)
Definition pruneExtend (subjectsToRemove : list string)
    (subjectName : string) : GM unit :=
  grants ← getG;
  match utils.extendOf (default ∅ (grants !! subjectName)) with
  | Some l =>
      modifyG (utilsW.setEntry subjectName "_extend_"
                 (EArr (utils.subtractArray l subjectsToRemove)))
  | None => mret tt
  end.

Definition removeRoles (subjects : Val) : M unit := fun w =>
  if isLocked w then (acThrow ERR_LOCK, w)
  else
    let subjectsToRemove := utils.toStringArray subjects in
    if bool_decide (length subjectsToRemove = 0)
       || negb (utils.isFilledStringArray subjectsToRemove)
    then (acThrow (InvalidSubjects subjectsToRemove), w)
    else
      atRef (_grants w)
        (_ ← forEachG (fun subjectName =>
               grants ← getG;
               if negb (utils.has grants subjectName)
               then throwG (RemoveNonExisting subjectName)
               else modifyG (delete subjectName)) subjectsToRemove;
         grants ← getG;
         forEachG (pruneExtend subjectsToRemove)
           (map fst (map_to_list grants))) w.

(** [delete o[k]] does nothing, and does not throw, when [o] has no [k]. *)
Definition deleteKey (subject resource : string) (ap : option string)
  : GM unit :=
  grants ← getG;
  match default ∅ (grants !! subject) !! resource, ap with
  | Some _, None =>
      modifyG (alter (fun role => delete resource role) subject)
  | Some (EObj o), Some ap =>
      if utils.has o ap
      then modifyG (utilsW.setEntry subject resource (EObj (delete ap o)))
      else mret tt
  | _, _ => mret tt
  end.

Definition _removePermission (resources subjects : Val)
    (actionPossession : option string) : M unit := fun w =>
  let resources := utils.toStringArray resources in
  if bool_decide (length resources = 0)
     || negb (utils.isFilledStringArray resources)
  then (acThrow (InvalidResources resources), w)
  else
    let subjectsArr := utils.toStringArray subjects in
    if utils.hasDefined subjects
       && (bool_decide (length subjectsArr = 0)
           || negb (utils.isFilledStringArray subjectsArr))
    then (acThrow (InvalidSubjects subjectsArr), w)
    else
      atRef (_grants w)
        (grants ← getG;
         forEachG (fun subject =>
           grants ← getG;
           forEachG (fun resource =>
             if utils.includes resources resource
                && (negb (utils.hasDefined subjects)
                    || utils.includes subjectsArr subject)
             then
               if Js.truthy actionPossession then
                 '(a, p) ← liftR (utils.normalizeActionPossession
                                    actionPossession None);
                 deleteKey subject resource (Some (a +:+ ":" +:+ p))
               else deleteKey subject resource None
             else mret tt)
             (map fst (map_to_list (default ∅ (grants !! subject)))))
           (map fst (map_to_list grants))) w.

Definition removeResources (resources subjects : Val) : M unit := fun w =>
  if isLocked w then (acThrow ERR_LOCK, w)
  else _removePermission resources subjects None w.

Definition getInheritedRolesOf (subject : string) (w : World)
  : Result (list string) :=
  subjects ← utils.getRoleHierarchyOf depth (store w) subject None;
  Ok (tail subjects).

Definition getExtendedRolesOf := getInheritedRolesOf.

(** [Object.keys(this._grants)], in an order that is not modelled. *)
Definition getRoles (w : World) : list string :=
  map fst (map_to_list (store w)).

Definition getResources (w : World) : list string :=
  utils.getResources (store w).

(** [hasOwnProperty] takes the name as it is: a string is not split. *)
Definition hasRole (subject : Val) (w : World) : bool :=
  match subject with
  | Arr l => forallb (utils.has (store w)) l
  | Str s => utils.has (store w) s
  | Undefined => utils.has (store w) "undefined"
  end.

Definition hasResource (resource : Val) (w : World) : bool :=
  let resources := getResources w in
  match resource with
  | Arr l => forallb (utils.includes resources) l
  | Str s =>
      if bool_decide (s = "") then false else utils.includes resources s
  | Undefined => false
  end.

Definition can (subject : QueryArg) : M QueryT := fun w =>
  (Query.new (_grants w) subject, w).

Definition query := can.

Definition permission (queryInfo : IQueryInfo) : M PermissionT := fun w =>
  atRef (_grants w)
    (readG (fun grants => Permission_new union depth grants queryInfo)) w.

Definition grant (subject : AccessArg) : M AccessT := fun w =>
  if isLocked w then (acThrow ERR_LOCK, w)
  else Access.new subject false w.

Definition allow := grant.

Definition deny (subject : AccessArg) : M AccessT := fun w =>
  if isLocked w then (acThrow ERR_LOCK, w)
  else Access.new subject true w.

Definition reject := deny.

End depth.
End AccessControl.

(** ** Examples: the model runs *)

(** String concatenation of patterns stands in for the glob union of the
    notation library where an example needs a concrete one. *)
Definition concatUnion (a b : list string) : list string := a ++ b.

Definition world0 : World := (AccessControl.new 8 (GObject ∅)).2.


(** ** Predicates on computations *)

(** A computation on a grants object leaves the object as it is. *)
Definition keepsG {A} (m : GM A) (o : GObj) : Prop := (m o).2 = o.

(** On a frozen object nothing is ever written. *)
Definition frozenFrame {A} (m : GM A) : Prop :=
  forall o, g_frozen o = true -> (m o).2 = o.


(** ** The public operations as data *)

(** The operations of the facade that change the grants. *)
Inductive Mutator :=
  | MSetGrants (grantsObject : GrantsInput)
  | MReset
  | MExtendRole (subjects extenderRoles : Val) (replace : bool)
  | MRemoveRoles (subjects : Val)
  | MRemoveResources (resources subjects : Val)
  | MGrant (subject : AccessArg)
  | MDeny (subject : AccessArg).

(** The outcome of a facade operation, without the builder that [grant]
    and [deny] return. *)
Definition runMutator (depth : nat) (m : Mutator) (w : World)
  : Result unit * World :=
  match m with
  | MSetGrants grantsObject => AccessControl.setGrants depth grantsObject w
  | MReset => AccessControl.reset w
  | MExtendRole subjects extenderRoles replace =>
      AccessControl.extendRole depth subjects extenderRoles replace w
  | MRemoveRoles subjects => AccessControl.removeRoles subjects w
  | MRemoveResources resources subjects =>
      AccessControl.removeResources resources subjects w
  | MGrant subject =>
      let '(r, w') := AccessControl.grant subject w in (_ ← r; Ok tt, w')
  | MDeny subject =>
      let '(r, w') := AccessControl.deny subject w in (_ ← r; Ok tt, w')
  end.

(** The methods of an [Access] instance.  The eight action methods and
    [do] are [BCommit] with their action and possession. *)
Inductive BuilderCall :=
  | BSubject (value : Val)
  | BResource (value : Val)
  | BAttributes (value : Val)
  | BExtend (subjects : Val)
  | BGrant (subjectOrInfo : AccessArg)
  | BDeny (subjectOrInfo : AccessArg)
  | BLock
  | BCommit (action possession : option string) (resource attributes : Val).

(** The world after a method call on the builder [this]. *)
Definition runBuilder (depth : nat) (c : BuilderCall) (this : AccessT)
    (w : World) : World :=
  match c with
  | BSubject value => (Access.subject value this w).2
  | BResource value => (Access.resource value this w).2
  | BAttributes value => (Access.attributes value this w).2
  | BExtend subjects => (Access.extend depth subjects this w).2
  | BGrant subjectOrInfo => (Access.grant subjectOrInfo this w).2
  | BDeny subjectOrInfo => (Access.deny subjectOrInfo this w).2
  | BLock => (Access.lock this w).2
  | BCommit action possession resource attributes =>
      (Access._prepareAndCommit action possession resource attributes
         this w).2
  end.

(** One public operation: a facade operation, [lock], or a method of some
    builder.  A builder holds a reference that was the facade's grants
    object when the builder was made, so it is allocated; its draft is
    whatever the caller has put there. *)
Inductive step (depth : nat) : World -> World -> Prop :=
  | step_mutator m w : step depth w (runMutator depth m w).2
  | step_lock w : step depth w (AccessControl.lock w).2
  | step_builder c this w :
      a_grants this < length (heap w) ->
      step depth w (runBuilder depth c this w).

(** The worlds a program can reach from [new AccessControl(grants)]. *)
Definition reachable (depth : nat) (w : World) : Prop :=
  exists grants, rtc (step depth) (AccessControl.new depth grants).2 w.

(** [w'] has the grants object of [w], with the same content and lock. *)
Definition sameLock (w w' : World) : Prop :=
  _grants w' = _grants w
  /\ _isLocked w' = _isLocked w
  /\ heap w' !! _grants w = heap w !! _grants w.

(** [ac.grant(subject).createAny(resource)], for the examples. *)
Definition grantAny (subject resource : string) (w : World) : World :=
  match AccessControl.grant (ASubject (Str subject)) w with
  | (Ok a, w1) => (Access.createAny (Str resource) Undefined a w1).2
  | (Throw _, w1) => w1
  end.

(** The store [{ admin: { profile: { 'create:any': ['*'] } } }]. *)
Definition worldAdmin : World := grantAny "admin" "profile" world0.

(** The inheritance lists of [grants] name existing roles only and have no
    cycle, and no chain of them is longer than [depth]: [rk] bounds the
    length of the chains below a role. *)
Definition inheritOK (depth : nat) (grants : Grants) : Prop :=
  exists rk : string -> nat,
    forall s role ext e,
      grants !! s = Some role -> utils.extendOf role = Some ext -> e ∈ ext ->
      is_Some (grants !! e) /\ rk e < rk s /\ rk s <= depth.

(** Two roles, [a] extending [b]. *)
Definition worldAB (depth : nat) : World :=
  (AccessControl.extendRole depth (Str "a") (Arr ["b"]) false
     (grantAny "b" "r" (grantAny "a" "r" world0))).2.

(** What the [eachRole] callback of [removeRoles] does to one role. *)
Definition pruneRole (subjectsToRemove : list string) (role : Role) : Role :=
  match utils.extendOf role with
  | Some l =>
      <["_extend_" := EArr (utils.subtractArray l subjectsToRemove)]> role
  | None => role
  end.

(** Two roles, [A] extending [B]. *)
Definition worldExt (depth : nat) : World :=
  (AccessControl.extendRole depth (Str "A") (Arr ["B"]) false
     (grantAny "B" "r" (grantAny "A" "r" world0))).2.

(** The facade calls that check everything before their first write to
    the store: [setGrants] with a flat list (it fills a new object, which
    becomes the store only at the end), [reset] and [removeResources] with
    any arguments, and [extendRole], [removeRoles], [grant] and [deny] for
    at most one subject name.  [setGrants] with a nested mapping inspects
    and extends the object it is given, which may be the store itself. *)
Definition checksFirst (m : Mutator) : Prop :=
  match m with
  | MSetGrants (GArray _) | MReset | MRemoveResources _ _ => True
  | MSetGrants _ => False
  | MExtendRole subjects _ _ => length (utils.toStringArray subjects) <= 1
  | MRemoveRoles subjects => length (utils.toStringArray subjects) <= 1
  | MGrant (ASubject subject) | MDeny (ASubject subject) =>
      length (utils.toStringArray subject) <= 1
  | MGrant (AInfo _) | MDeny (AInfo _) => False
  end.

(** A loop of deletions throws only on a frozen object, at its first
    write. *)
Definition onlyFrozenThrows (m : GM unit) : Prop :=
  forall o, g_frozen o = false ->
    exists o', m o = (Ok tt, o') /\ g_frozen o' = false.


(** ** The shape of a store *)

(** What [validName] accepts: not blank, not a reserved keyword. *)
Definition goodName (name : string) : Prop :=
  Js.blank name = false /\ name ∉ utils.RESERVED_KEYWORDS.

(** The key [k] of a role holds what such a key may hold: the inheritance
    list under [_extend_], a resource definition under a valid name. *)
Definition entryOK (k : string) (e : Entry) : Prop :=
  match e with
  | EArr _ => k = "_extend_"
  | EObj _ => goodName k
  end.

Definition okAt (grants : Grants) (s k : string) : Prop :=
  forall role e, grants !! s = Some role -> role !! k = Some e -> entryOK k e.

(** Every subject has a valid name and every key of every role is either
    [_extend_] with a list or a valid resource name with a resource
    definition. *)
Definition goodStore (grants : Grants) : Prop :=
  forall s role, grants !! s = Some role ->
    goodName s /\ forall k e, role !! k = Some e -> entryOK k e.

Definition goodWorld (w : World) : Prop :=
  forall l o, heap w !! l = Some o -> goodStore (g_val o).

(** [R] relates the grants before and after the computation [m], whatever
    its outcome. *)
Definition relG {A} (R : Grants -> Grants -> Prop) (m : GM A) : Prop :=
  forall o, R (g_val o) (g_val (m o).2).

(** A store keeps its shape. *)
Definition keepsGood (g g' : Grants) : Prop := goodStore g -> goodStore g'.

(** The keys checked so far stay checked and the subjects are the same. *)
Definition keepsChecked (g g' : Grants) : Prop :=
  (forall s k, okAt g s k -> okAt g' s k)
  /\ (forall s, is_Some (g' !! s) <-> is_Some (g !! s)).

(** The eight keys the action methods write. *)
Definition normalizedKeys : list string :=
  ["create:own"; "create:any"; "read:own"; "read:any";
   "update:own"; "update:any"; "delete:own"; "delete:any"].

(** The flat record [{ subject: 'a', resource: 'r', action: 'publish' }]. *)
Definition recPublish : IAccessInfo :=
  {| ai_subject := Str "a"; ai_resource := Str "r";
     ai_action := Some "publish"; ai_possession := None;
     ai_attributes := Undefined; ai_denied := false |}.

(** The nested input [{ a: { r: { '': ['*'] } } }]. *)
Definition nestedEmptyKey : Grants :=
  {[ "a" := {[ "r" := EObj {[ EmptyString := ["*"] ]} ]} ]}.

(** ** The nested mapping of a flat list *)

(** [grants[subject][resource][ap] = attributes], with the subject and the
    resource made when they are missing. *)
Definition grantOf (subject resource ap : string) (attributes : list string)
    (grants : Grants) : Grants :=
  let role := default ∅ (grants !! subject) in
  let def := match role !! resource with Some (EObj o) => o | _ => ∅ end in
  <[subject := <[resource := EObj (<[ap := attributes]> def)]> role]> grants.

(** What the loop of [commitToGrants] leaves for one record of a flat
    list, written as a function of the grants: the writes of [grantOf] for
    the subjects and resources of the normalised record. *)
Definition nestedOfRecord (grants : Grants) (item : IAccessInfo) : Grants :=
  match utils.normalizeAccessInfo item true with
  | Ok access =>
      let ap := Js.str (ai_action access) +:+ ":"
                +:+ Js.str (ai_possession access) in
      foldl (fun g subject =>
               foldl (fun g resource =>
                        grantOf subject resource ap
                          (utils.toStringArray (ai_attributes access)) g)
                 g (utils.toStringArray (ai_resource access)))
        grants (utils.toStringArray (ai_subject access))
  | Throw _ => grants
  end.

Definition nestedOf (items : list IAccessInfo) : Grants :=
  foldl nestedOfRecord ∅ items.

(** No role has an inheritance list. *)
Definition allObj (grants : Grants) : Prop :=
  forall s role k e,
    grants !! s = Some role -> role !! k = Some e -> exists o, e = EObj o.

(** The flat record [{ subject: 'a', resource: 'r', action: 'read' }]. *)
Definition recRead : IAccessInfo :=
  {| ai_subject := Str "a"; ai_resource := Str "r";
     ai_action := Some "read"; ai_possession := None;
     ai_attributes := Undefined; ai_denied := false |}.

(** A grants object with the two roles [a] and [b] and nothing else. *)
Definition objAB : GObj :=
  {| g_val := {[ "a" := ∅; "b" := ∅ ]}; g_frozen := false |}.

(** ** What a commit writes *)

(** The grants after the commit of a normalised record: every subject and
    every resource of the record hold its attributes under its action and
    possession. *)
Definition grantsOfAccess (access : IAccessInfo) (grants : Grants) : Grants :=
  let ap := Js.str (ai_action access) +:+ ":"
            +:+ Js.str (ai_possession access) in
  foldl (fun g subject =>
           foldl (fun g resource =>
                    grantOf subject resource ap
                      (utils.toStringArray (ai_attributes access)) g)
             g (utils.toStringArray (ai_resource access)))
    grants (utils.toStringArray (ai_subject access)).

(** [grants[s][r][ap]] is the list [attrs]. *)
Definition grantedAt (grants : Grants) (s r ap : string)
    (attrs : list string) : Prop :=
  exists role d,
    grants !! s = Some role /\ role !! r = Some (EObj d)
    /\ d !! ap = Some attrs.

(** What the loop of [preCreateRoles] does for one subject. *)
Definition createRole (grants : Grants) (subject : string) : Grants :=
  if utils.has grants subject then grants else <[subject := ∅]> grants.

(** The draft an action method of [Access] commits: the draft of the
    builder with the action and possession of the method, the resource
    given to the method when there is one, and the attributes given to it,
    emptied by a denial and defaulting to every attribute. *)
Definition draftOf (this : AccessT) (action possession : option string)
    (resource attributes : Val) : IAccessInfo :=
  let d := setActionPossession (a_ this) action possession in
  let d := if utils.truthyVal resource then setResource d resource else d in
  if ai_denied d then setAttributes d (Arr [])
  else setAttributes d
         (if utils.truthyVal attributes
          then Arr (utils.toStringArray attributes) else Arr ["*"]).

(** The builder that [grant('admin')] returns on the empty store, and the
    world it leaves. *)
Definition accessAdmin : AccessT :=
  {| a_ := setSubject emptyAccess (Str "admin"); a_grants := 0 |}.

Definition worldGrantAdmin : World :=
  (runMutator 8 (MGrant (ASubject (Str "admin"))) world0).2.

(** The methods of a builder that work on the grants object the builder
    was made with: all but [grant], [deny] and [lock], which go to the
    facade. *)
Definition usesOwnRef (c : BuilderCall) : Prop :=
  match c with
  | BGrant _ | BDeny _ | BLock => False
  | _ => True
  end.

(** [grants[s][k]], when the subject [s] has the key [k]. *)
Definition entryAt (grants : Grants) (s k : string) : option Entry :=
  default ∅ (grants !! s) !! k.

(** [removeResources(resources, subjects)] is after the resource [k] of
    the subject [s]: [k] is one of the resources, and [s] is one of the
    subjects or no subject was given. *)
Definition targeted (resources : list string) (subjects : Val)
    (s k : string) : bool :=
  utils.includes resources k
  && (negb (utils.hasDefined subjects)
      || utils.includes (utils.toStringArray subjects) s).

(** The nested input [{ a: { r: { 'read:any': ['*'] } } }]. *)
Definition nestedRead : Grants :=
  {[ "a" := {[ "r" := EObj {[ "read:any" := ["*"] ]} ]} ]}.

(** What [removeResources] does for one key of one subject, and for one
    subject: [cond] says which keys of which subjects go. *)
Definition dropKey (cond : string -> string -> bool) (s : string)
    (g : Grants) (r : string) : Grants :=
  if cond s r then alter (fun role : gmap string Entry => delete r role) s g
  else g.

Definition dropKeys (cond : string -> string -> bool) (g : Grants)
    (s : string) : Grants :=
  foldl (dropKey cond s) g (map fst (map_to_list (default ∅ (g !! s)))).

(** ** Names of [Object.prototype] *)

(** The property names every plain object inherits.  The embedding looks
    names up among the own keys of an object; for these names the truth
    test [grants[name]], the call [grants.hasOwnProperty(...)] on an object
    that has an own key [hasOwnProperty], and the assignment to
    [__proto__] do something else in JavaScript. *)
Definition protoNames : list string :=
  ["constructor"; "hasOwnProperty"; "isPrototypeOf"; "propertyIsEnumerable";
   "toLocaleString"; "toString"; "valueOf"; "__proto__";
   "__defineGetter__"; "__defineSetter__"; "__lookupGetter__";
   "__lookupSetter__"].

Definition plain (name : string) : Prop := name ∉ protoNames.

Definition plainNames (names : list string) : Prop :=
  forall name, name ∈ names -> plain name.

(** No subject, no key of a role and no name in an inheritance list is a
    name of [Object.prototype]. *)
Definition plainGrants (grants : Grants) : Prop :=
  forall s role,
    grants !! s = Some role ->
    plain s
    /\ (forall k, is_Some (role !! k) -> plain k)
    /\ (forall ext, utils.extendOf role = Some ext -> plainNames ext).

(** The same as decision procedures. *)
Definition plainb (name : string) : bool :=
  negb (bool_decide (name ∈ protoNames)).

Definition plainGrantsb (grants : Grants) : bool :=
  forallb (fun '(s, role) =>
             plainb s
             && forallb (fun '(k, e) =>
                           plainb k
                           && match e with
                              | EArr l => forallb plainb l
                              | EObj _ => true
                              end) (map_to_list role))
    (map_to_list grants).

(** ** Stores made by the library alone *)

(** Every grants object of the heap has plain names only. *)
Definition plainHeap (w : World) : Prop :=
  Forall (fun o => plainGrants (g_val o)) (heap w).

(** The names an operation is given are none of [Object.prototype]. *)
Definition plainVal (v : Val) : Prop := plainNames (utils.toStringArray v).

Definition plainInfo (info : IAccessInfo) : Prop :=
  plainVal (ai_subject info) /\ plainVal (ai_resource info).

Definition plainArg (a : AccessArg) : Prop :=
  match a with
  | ASubject subject => plainVal subject
  | AInfo info => plainInfo info
  end.

Definition plainMutator (m : Mutator) : Prop :=
  match m with
  | MSetGrants (GArray items) => Forall plainInfo items
  | MSetGrants _ | MReset => True
  | MExtendRole subjects extenderRoles _ =>
      plainVal subjects /\ plainVal extenderRoles
  | MRemoveRoles subjects => plainVal subjects
  | MRemoveResources resources subjects =>
      plainVal resources /\ plainVal subjects
  | MGrant subject | MDeny subject => plainArg subject
  end.

Definition plainCall (c : BuilderCall) (this : AccessT) : Prop :=
  plainInfo (a_ this)
  /\ match c with
     | BSubject value | BResource value | BExtend value => plainVal value
     | BAttributes _ | BLock => True
     | BGrant subjectOrInfo | BDeny subjectOrInfo => plainArg subjectOrInfo
     | BCommit _ _ resource _ => plainVal resource
     end.

(** One public operation other than [setGrants] with a nested mapping,
    which takes the object of the caller as the store, on names that are
    none of [Object.prototype]. *)
Inductive ownStep (depth : nat) : World -> World -> Prop :=
  | ownStep_mutator m w :
      (forall o, m <> MSetGrants (GObject o)) ->
      plainMutator m ->
      ownStep depth w (runMutator depth m w).2
  | ownStep_lock w : ownStep depth w (AccessControl.lock w).2
  | ownStep_builder c this w :
      a_grants this < length (heap w) ->
      plainCall c this ->
      ownStep depth w (runBuilder depth c this w).

(** The worlds built from the empty store of [new AccessControl()] by
    these operations, none of which leaves a name of [Object.prototype]
    in a grants object.  Every role and every resource definition in them
    is an object that [preCreateRoles] or [commitToGrants] has made, so no
    two subjects share a role object and no two roles a resource
    definition; and on plain names the truth test [grants[name]], the
    call of [hasOwnProperty] and the assignment [grants[name] = {}] of the
    code are the lookup and the insertion of the embedding. *)
Definition madeHere (depth : nat) (w : World) : Prop :=
  rtc (fun w w' => ownStep depth w w' /\ plainHeap w') world0 w.

(** ** More worlds for the examples *)

(** [ac.grant('user').readAny('post')] on the empty store. *)
Definition worldRead : World :=
  match AccessControl.grant (ASubject (Str "user")) world0 with
  | (Ok a, w1) => (Access.readAny (Str "post") Undefined a w1).2
  | (Throw _, w1) => w1
  end.

(** [grant(['a', 'b', 'x'])], [extendRole('a', ['x'])], and then
    [removeRoles(['x', 'ghost'])], which throws at ['ghost'] after it has
    deleted ['x'] and before it prunes the inheritance lists. *)
Definition worldDangling : World :=
  (runMutator 8 (MRemoveRoles (Arr ["x"; "ghost"]))
     (runMutator 8 (MExtendRole (Str "a") (Arr ["x"]) false)
        (runMutator 8 (MGrant (ASubject (Arr ["a"; "b"; "x"]))) world0).2).2).2.

(** [ac.grant(['a', 'b'])] on the empty store: its grants object is
    [objAB]. *)
Definition worldRolesAB : World :=
  (runMutator 8 (MGrant (ASubject (Arr ["a"; "b"]))) world0).2.

(** ** Builder calls and their outcome *)

(** The outcome of a method call on the builder [this], without the
    builder it returns; the world is the one of [runBuilder]. *)
Definition callBuilder (depth : nat) (c : BuilderCall) (this : AccessT)
    (w : World) : Result unit * World :=
  match c with
  | BSubject value =>
      let '(r, _, w') := Access.subject value this w in (r, w')
  | BResource value =>
      let '(r, _, w') := Access.resource value this w in (r, w')
  | BAttributes value =>
      let '(r, _, w') := Access.attributes value this w in (r, w')
  | BExtend subjects =>
      let '(r, _, w') := Access.extend depth subjects this w in (r, w')
  | BGrant subjectOrInfo =>
      let '(r, _, w') := Access.grant subjectOrInfo this w in
      (_ ← r; Ok tt, w')
  | BDeny subjectOrInfo =>
      let '(r, _, w') := Access.deny subjectOrInfo this w in
      (_ ← r; Ok tt, w')
  | BLock => let '(r, _, w') := Access.lock this w in (r, w')
  | BCommit action possession resource attributes =>
      let '(r, _, w') :=
        Access._prepareAndCommit action possession resource attributes
          this w in
      (r, w')
  end.

(** The builder calls that check everything before their first write:
    [resource], [attributes] and [lock]; [subject], [grant(subject)] and
    [deny(subject)] for at most one name; [extend] from a builder with at
    most one subject; and an action method that commits one resource for
    one subject that exists. *)
Definition checksFirstB (c : BuilderCall) (this : AccessT) (w : World)
  : Prop :=
  match c with
  | BResource _ | BAttributes _ | BLock => True
  | BSubject value => length (utils.toStringArray value) <= 1
  | BGrant (ASubject subject) | BDeny (ASubject subject) =>
      length (utils.toStringArray subject) <= 1
  | BGrant (AInfo _) | BDeny (AInfo _) => False
  | BExtend _ => length (utils.toStringArray (ai_subject (a_ this))) <= 1
  | BCommit action possession resource attributes =>
      exists s r o,
        utils.toStringArray (ai_subject (a_ this)) = [s]
        /\ utils.toStringArray
             (if utils.truthyVal resource then resource
              else ai_resource (a_ this)) = [r]
        /\ heap w !! a_grants this = Some o
        /\ is_Some (g_val o !! s)
  end.

(** The record [{ subject: 'z', resource: '$', action: 'read' }]. *)
Definition recReserved : IAccessInfo :=
  {| ai_subject := Str "z"; ai_resource := Str "$";
     ai_action := Some "read"; ai_possession := None;
     ai_attributes := Undefined; ai_denied := false |}.

(** ** The commit algorithm in the words of the specification *)

(** Section 4.1 of the specification describes the nested mapping a flat
    list of records stands for.  The definitions below follow its words
    and use none of the normalising functions of the code. *)

(** The names of a record field of the shape [string|string[]]: a string
    is one name. *)
Definition specNames (v : Val) : list string :=
  match v with
  | Arr l => l
  | Str s => [s]
  | Undefined => []
  end.

(** Step 1: the action in lower case, taken from the compound string
    [action:possession] when the action is one. *)
Definition specAction (action : string) : string :=
  Js.toLowerCase (default "" (Js.split Js.is_colon action !! 0)).

(** Step 1: the possession of the explicit field, or the one of the
    compound string, or ["any"]; any other than [own] and [any] is
    rejected. *)
Definition specPossession (action : string) (possession : option string)
  : option string :=
  let p := match possession with
           | Some p => p
           | None => default "any" (Js.split Js.is_colon action !! 1)
           end in
  if bool_decide (p = "own") || bool_decide (p = "any") then Some p else None.

(** Step 2: no attribute for a denial, every attribute when the field is
    empty or absent, and otherwise the list of the trimmed strings, a
    string being split at its commas and semicolons. *)
Definition specAttributes (denied : bool) (attributes : Val) : list string :=
  if denied then []
  else match attributes with
       | Undefined | Arr [] => ["*"]
       | Arr l => map Js.trim l
       | Str s =>
           if bool_decide (s = "") then ["*"]
           else map Js.trim (Js.split Js.is_delim s)
       end.

(** Step 3: every subject gets an entry, and every resource of every
    subject holds the attributes under the key [action:possession]. *)
Definition specCommit (grants : Grants) (item : IAccessInfo)
  : option Grants :=
  action ← ai_action item;
  p ← specPossession action (ai_possession item);
  let key := specAction action +:+ ":" +:+ p in
  let attributes := specAttributes (ai_denied item) (ai_attributes item) in
  Some (foldl (fun g subject =>
                 foldl (fun g resource =>
                          grantOf subject resource key attributes g)
                   (createRole g subject) (specNames (ai_resource item)))
          grants (specNames (ai_subject item))).

(** The nested mapping of a flat list: its records committed in order
    into an empty mapping. *)
Definition specNested (items : list IAccessInfo) : option Grants :=
  foldl (fun acc item => g ← acc; specCommit g item) (Some ∅) items.

(** A string that is one name: it has no comma and no semicolon, and no
    white space around it. *)
Definition oneName (s : string) : Prop :=
  Js.trim s = s
  /\ forallb (fun c => negb (Js.is_delim c)) (list_ascii_of_string s) = true.

Definition oneNameOrList (v : Val) : Prop :=
  match v with
  | Str s => oneName s
  | _ => True
  end.

(** The records on which the coercions of the code and the words of the
    specification cannot differ: a subject or resource given as a string
    is one name, and no name is one of [Object.prototype]; the action has
    no white space around it; the possession, in its field or after the
    colon, is not the empty string; the attributes are absent, or a
    string without delimiter and without white space around it, or a
    list, not empty, of strings without white space around them. *)
Definition canonicalRecord (item : IAccessInfo) : Prop :=
  oneNameOrList (ai_subject item)
  /\ oneNameOrList (ai_resource item)
  /\ plainNames (specNames (ai_subject item))
  /\ plainNames (specNames (ai_resource item))
  /\ (forall action, ai_action item = Some action ->
        let first := default "" (Js.split Js.is_colon action !! 0) in
        Js.trim first = first
        /\ Js.split Js.is_colon action !! 1 <> Some "")
  /\ ai_possession item <> Some ""
  /\ match ai_attributes item with
     | Undefined => True
     | Str s => oneName s
     | Arr l => l <> [] /\ Forall (fun a => Js.trim a = a) l
     end.

(** No attribute of the record is the empty string. *)
Definition noBlankAttribute (item : IAccessInfo) : Prop :=
  match ai_attributes item with
  | Arr l => "" ∉ l
  | _ => True
  end.

(** Every attribute list of the grants is empty or free of blank
    strings. *)
Definition filledStore (grants : Grants) : Prop :=
  forall s role r d ap l,
    grants !! s = Some role -> role !! r = Some (EObj d) ->
    d !! ap = Some l ->
    l = [] \/ utils.isFilledStringArray l = true.

(** The record [{ subject: 'a', resource: 'r', action: 'read',
    attributes: [''] }]. *)
Definition recBlank : IAccessInfo :=
  {| ai_subject := Str "a"; ai_resource := Str "r";
     ai_action := Some "read"; ai_possession := None;
     ai_attributes := Arr [""]; ai_denied := false |}.

(** The record [{ subject: 'a', resource: 'r', action: 'read',
    attributes: [] }]. *)
Definition recNone : IAccessInfo :=
  {| ai_subject := Str "a"; ai_resource := Str "r";
     ai_action := Some "read"; ai_possession := None;
     ai_attributes := Arr []; ai_denied := false |}.

(** The query [{ subject: 'a', resource: 'r', action: 'read' }]. *)
Definition queryRead : IQueryInfo :=
  {| qi_subject := Str "a"; qi_resource := Some "r";
     qi_action := Some "read"; qi_possession := None |}.

(** ** Query resolution over a heap of arrays *)

(** The functions of the resolution once more, this time with the arrays
    and the query records as cells of a heap, so that a reference that is
    passed on, a copy ([concat], [Object.assign]) and a write in place
    ([push], an assignment to a property of the query record) are told
    apart.  The code of the resolution has no assignment to a property of
    the grants object, of a role or of a resource definition; these are
    read through their own keys and hold the addresses of their lists. *)
Module Ref.

Abbreviation loc := nat (only parsing).

(** The value of the field [subject] of a query: a reference when it is
    an array. *)
Inductive RVal :=
  | RUndefined
  | RStr (s : string)
  | RArr (a : loc).

(** [IQueryInfo] *)
Record RQuery := {
  rq_subject : RVal;
  rq_resource : option string;
  rq_action : option string;
  rq_possession : option string
}.

Inductive REntry :=
  | REArr (a : loc)
  | REObj (o : gmap string loc).

Abbreviation RGrants := (gmap string (gmap string REntry)) (only parsing).

Record Heap := {
  arrays : list (list string);
  records : list RQuery
}.

Definition HM (A : Type) : Type := Heap -> Result A * Heap.

Global Instance HM_ret : MRet HM := fun A a h => (Ok a, h).
Global Instance HM_bind : MBind HM := fun A B f m h =>
  match m h with
  | (Ok a, h') => f a h'
  | (Throw e, h') => (Throw e, h')
  end.

Definition throwH {A} (e : Error) : HM A := fun h => (Throw e, h).

(** A new array with the items [l]. *)
Definition newArray (l : list string) : HM loc := fun h =>
  (Ok (length (arrays h)),
   {| arrays := arrays h ++ [l]; records := records h |}).

(** The items of the array at [a]. *)
Definition readArray (a : loc) : HM (list string) := fun h =>
  match arrays h !! a with
  | Some l => (Ok l, h)
  | None => (Throw TypeError, h)
  end.

(** [arr.push(item)] *)
Definition push (a : loc) (item : string) : HM unit := fun h =>
  match arrays h !! a with
  | Some l =>
      (Ok tt, {| arrays := <[a := l ++ [item]]> (arrays h);
                 records := records h |})
  | None => (Throw TypeError, h)
  end.

(** [arr.concat()] *)
Definition concat (a : loc) : HM loc := l ← readArray a; newArray l.

(** [Object.assign({}, query)] *)
Definition clone (q : loc) : HM loc := fun h =>
  match records h !! q with
  | Some r =>
      (Ok (length (records h)),
       {| arrays := arrays h; records := records h ++ [r] |})
  | None => (Throw TypeError, h)
  end.

Definition readRecord (q : loc) : HM RQuery := fun h =>
  match records h !! q with
  | Some r => (Ok r, h)
  | None => (Throw TypeError, h)
  end.

(** An assignment to a property of the record at [q]. *)
Definition writeRecord (q : loc) (f : RQuery -> RQuery) : HM unit := fun h =>
  match records h !! q with
  | Some r =>
      (Ok tt, {| arrays := arrays h; records := <[q := f r]> (records h) |})
  | None => (Throw TypeError, h)
  end.

Definition setSubject (v : RVal) (r : RQuery) : RQuery :=
  {| rq_subject := v; rq_resource := rq_resource r;
     rq_action := rq_action r; rq_possession := rq_possession r |}.

Definition setResource (v : option string) (r : RQuery) : RQuery :=
  {| rq_subject := rq_subject r; rq_resource := v;
     rq_action := rq_action r; rq_possession := rq_possession r |}.

Definition setAction (v : option string) (r : RQuery) : RQuery :=
  {| rq_subject := rq_subject r; rq_resource := rq_resource r;
     rq_action := v; rq_possession := rq_possession r |}.

Definition setPossession (v : option string) (r : RQuery) : RQuery :=
  {| rq_subject := rq_subject r; rq_resource := rq_resource r;
     rq_action := rq_action r; rq_possession := v |}.

(** [l.forEach(f)] *)
Fixpoint forEachH {A} (f : A -> HM unit) (l : list A) : HM unit :=
  match l with
  | [] => mret tt
  | x :: l' => _ ← f x; forEachH f l'
  end.

(** [l.forEach(f)] when [f] assigns to a variable of the enclosing
    function. *)
Fixpoint foldH {A B} (f : B -> A -> HM B) (l : list A) (b : B) : HM B :=
  match l with
  | [] => mret b
  | x :: l' => b' ← f b x; foldH f l' b'
  end.

(** An array is returned as it is, not copied. *)
Definition toStringArray (value : RVal) : HM loc :=
  match value with
  | RArr a => mret a
  | RStr s => newArray (Js.splitDelims (Js.trim s))
  | RUndefined => newArray []
  end.

Definition isFilledStringArray (arr : loc) : HM bool :=
  l ← readArray arr; mret (utils.isFilledStringArray l).

(** Writes to [arr]. *)
Definition pushUniq (arr : loc) (item : string) : HM loc :=
  l ← readArray arr;
  _ ← (if utils.includes l item then mret tt else push arr item);
  mret arr.

(** Copies [arrA] and writes to the copy. *)
Definition uniqConcat (arrA arrB : loc) : HM loc :=
  arr ← concat arrA;
  items ← readArray arrB;
  _ ← forEachH (fun b => _ ← pushUniq arr b; mret tt) items;
  mret arr.

(** Writes to the record [info]. *)
Definition normalizeActionPossession (info : loc) : HM loc :=
  r ← readRecord info;
  match rq_action r with
  | None => throwH (AccessControlError InvalidAction)
  | Some action =>
      let s := Js.split Js.is_colon action in
      _ ← writeRecord info
            (setAction
               (Some (Js.toLowerCase (Js.trim (default "" (s !! 0))))));
      let poss := if Js.truthy (rq_possession r) then rq_possession r
                  else s !! 1 in
      if Js.truthy poss then
        if bool_decide (Js.str poss ≠ "any")
           && bool_decide (Js.str poss ≠ "own")
        then throwH (AccessControlError (InvalidPossession (Js.str poss)))
        else _ ← writeRecord info (setPossession poss); mret info
      else _ ← writeRecord info (setPossession (Some "any")); mret info
  end.

(** Clones the record [query] and writes to the clone. *)
Definition normalizeQueryInfo (query : loc) : HM loc :=
  query ← clone query;
  r ← readRecord query;
  subject ← toStringArray (rq_subject r);
  _ ← writeRecord query (setSubject (RArr subject));
  filled ← isFilledStringArray subject;
  if negb filled then
    l ← readArray subject; throwH (AccessControlError (InvalidSubjects l))
  else
    match rq_resource r with
    | None => throwH (AccessControlError (InvalidResource None))
    | Some res =>
        if Js.blank res
        then throwH (AccessControlError (InvalidResource (Some res)))
        else
          _ ← writeRecord query (setResource (Some (Js.trim res)));
          normalizeActionPossession query
    end.

Fixpoint getRoleHierarchyOf (depth : nat) (grants : RGrants)
    (subjectName : string) (rootRole : option string) : HM loc :=
  match grants !! subjectName with
  | None => throwH (AccessControlError (SubjectNotFound subjectName))
  | Some subject =>
      arr ← newArray [subjectName];
      match subject !! "_extend_" with
      | Some (REArr _extend_) =>
          names ← readArray _extend_;
          foldH (fun arr exRoleName =>
            if negb (utils.has grants exRoleName)
            then throwH (AccessControlError (SubjectNotFound "undefined"))
            else if bool_decide (exRoleName = subjectName)
            then throwH (AccessControlError (SelfExtend subjectName))
            else if Js.truthy rootRole
                    && bool_decide (Js.str rootRole = exRoleName)
            then throwH (AccessControlError
                           (CrossInheritance exRoleName (Js.str rootRole)))
            else
              match depth with
              | 0 => throwH RangeError
              | S depth' =>
                  ext ← getRoleHierarchyOf depth' grants exRoleName
                          (Some (utils.orElse rootRole subjectName));
                  uniqConcat arr ext
              end) names arr
      | _ => mret arr
      end
  end.

Definition getFlatRoles (depth : nat) (grants : RGrants) (subjects : RVal)
  : HM loc :=
  arrRoles ← toStringArray subjects;
  names ← readArray arrRoles;
  if bool_decide (length names = 0)
  then throwH (AccessControlError (InvalidSubjects names))
  else
    empty ← newArray [];
    arr ← uniqConcat empty arrRoles;
    foldH (fun arr subjectName =>
             h ← getRoleHierarchyOf depth grants subjectName None;
             uniqConcat arr h) names arr.

(** What [Notation.Glob.union], the external collaborator, may do with the
    two references it is given: leave other items in each of the two
    arrays, and return a new array or one of the two, or throw. *)
Inductive UnionResult :=
  | UNew (l : list string)
  | UFirst
  | USecond
  | UThrow (e : Error).

Record UnionEffect := {
  ue_first : list string;
  ue_second : list string;
  ue_result : UnionResult
}.

(** The array at [a] gets the items [l]. *)
Definition writeArray (a : loc) (l : list string) : HM unit := fun h =>
  match arrays h !! a with
  | Some _ =>
      (Ok tt, {| arrays := <[a := l]> (arrays h); records := records h |})
  | None => (Throw TypeError, h)
  end.

Section union.
(** The effect of the external union, from the items of its two
    arguments. *)
Variable union : list string -> list string -> UnionEffect.

(** [Notation.Glob.union(a, b)] *)
Definition callUnion (a b : loc) : HM loc :=
  la ← readArray a;
  lb ← readArray b;
  let e := union la lb in
  _ ← writeArray a (ue_first e);
  _ ← writeArray b (ue_second e);
  match ue_result e with
  | UNew l => newArray l
  | UFirst => mret a
  | USecond => mret b
  | UThrow err => throwH err
  end.

Definition getUnionAttrsOfRoles (depth : nat) (grants : RGrants)
    (query : loc) : HM loc :=
  query ← normalizeQueryInfo query;
  q ← readRecord query;
  subjects ← getFlatRoles depth grants (rq_subject q);
  names ← readArray subjects;
  attrsList ← foldH (fun attrsList subjectName =>
    match grants !! subjectName with
    | None => throwH TypeError
    | Some subject =>
        match subject !! Js.str (rq_resource q) with
        | Some resource =>
            let key := Js.str (rq_action q) +:+ ":"
                       +:+ Js.str (rq_possession q) in
            let any := Js.str (rq_action q) +:+ ":any" in
            found ← match resource with
                    | REObj o =>
                        match o !! key, o !! any with
                        | Some a, _ => mret a
                        | None, Some a => mret a
                        | None, None => newArray []
                        end
                    | REArr _ => newArray []
                    end;
            copy ← concat found;
            mret (attrsList ++ [copy])
        | None => mret attrsList
        end
    end) names [];
  match attrsList with
  | [] => newArray []
  | attrs :: rest => foldH callUnion rest attrs
  end.

(** [new Permission(grants, query)], as far as the heap goes.
    Modelled from the spec: the implementation of the class is not part of
    the sources; section 4.4 of the specification has the constructor
    resolve the attributes of the query, which is the call of
    [getUnionAttrsOfRoles]. *)
Definition Permission_new (depth : nat) (grants : RGrants) (query : loc)
  : HM loc :=
  getUnionAttrsOfRoles depth grants query.

(** [Query.prototype._getPermission]: [this_] is the record [this._]. *)
Definition _getPermission (depth : nat) (grants : RGrants) (this_ : loc)
    (action possession resource : option string) : HM loc :=
  _ ← writeRecord this_ (setAction action);
  _ ← writeRecord this_ (setPossession possession);
  _ ← (if Js.truthy resource then writeRecord this_ (setResource resource)
       else mret tt);
  Permission_new depth grants this_.

End union.

(** The heap [h'] has the cells of [h] below [n] (arrays) and [m]
    (records) as they are in [h], and no cell less. *)
Definition keeps (n m : nat) (h h' : Heap) : Prop :=
  (forall a, a < n -> arrays h' !! a = arrays h !! a)
  /\ (forall q, q < m -> records h' !! q = records h !! q)
  /\ length (arrays h) <= length (arrays h')
  /\ length (records h) <= length (records h').

(** The computation [f] keeps the cells below [n] and [m], and its result
    satisfies [Q]. *)
Definition safe {A} (n m : nat) (Q : A -> Prop) (f : HM A) : Prop :=
  forall h, n <= length (arrays h) -> m <= length (records h) ->
    keeps n m h (f h).2 /\ (forall x, (f h).1 = Ok x -> Q x).

(** A union that writes in place: it pushes the items of the second
    array that the first lacks onto the first and returns the first. *)
Definition unionInPlace (la lb : list string) : UnionEffect :=
  {| ue_first := utils.uniqConcat la lb; ue_second := lb;
     ue_result := UFirst |}.

(** The grants as values: every address replaced by the items of its
    array. *)
Definition derefEntry (h : Heap) (e : REntry) : Entry :=
  match e with
  | REArr a => EArr (default [] (arrays h !! a))
  | REObj o => EObj ((fun a => default [] (arrays h !! a)) <$> o)
  end.

Definition deref (h : Heap) (grants : RGrants) : Grants :=
  (fun role : gmap string REntry => derefEntry h <$> role) <$> grants.

(** Every list of the grants is an array of the heap. *)
Definition wf (h : Heap) (grants : RGrants) : Prop :=
  forall s role k e,
    grants !! s = Some role -> role !! k = Some e ->
    match e with
    | REArr a => a < length (arrays h)
    | REObj o => forall ap a, o !! ap = Some a -> a < length (arrays h)
    end.

(** The heap with the lists [['*', '!secret']] and [['secret']] and the
    query [{ subject: ['x', 'y'], resource: 'r', action: 'read' }]; the
    grants in which [x] and [y] hold these lists on [r]. *)
Definition heapXY : Heap :=
  {| arrays := [["*"; "!secret"]; ["secret"]; ["x"; "y"]];
     records := [{| rq_subject := RArr 2; rq_resource := Some "r";
                    rq_action := Some "read"; rq_possession := None |}] |}.

Definition grantsXY : RGrants :=
  {[ "x" := {[ "r" := REObj {[ "read:any" := 0 ]} ]};
     "y" := {[ "r" := REObj {[ "read:any" := 1 ]} ]} ]}.

End Ref.
(** * Properties *)

(** ** Examples: the model runs *)

Example trim_ex : Js.trim "  a b  " = "a b".
Proof. reflexivity. Qed.

Example splitDelims_ex :
  Js.splitDelims "a b ,c;  d,, e" = ["a b"; "c"; "d"; ""; "e"].
Proof. reflexivity. Qed.

Example splitDelims_empty : Js.splitDelims "" = [""].
Proof. reflexivity. Qed.

Example split_colon_ex : Js.split Js.is_colon "create:any" = ["create"; "any"].
Proof. reflexivity. Qed.

Example toLowerCase_ex : Js.toLowerCase "ReAd" = "read".
Proof. reflexivity. Qed.

Example new_empty :
  AccessControl.new 8 (GObject ∅)
  = (Ok tt, {| heap := [{| g_val := ∅; g_frozen := false |}];
               _grants := 0; _isLocked := false |}).
Proof. reflexivity. Qed.

(** ** Reasoning about the state monads *)

Lemma world_eta (w : World) :
  {| heap := heap w; _grants := _grants w; _isLocked := _isLocked w |} = w.
Proof. by destruct w. Qed.

Lemma bindG_unfold {A B} (m : GM A) (f : A -> GM B) (o : GObj) :
  (m ≫= f) o
  = match m o with
    | (Ok a, o') => f a o'
    | (Throw e, o') => (Throw e, o')
    end.
Proof. reflexivity. Qed.

Lemma bind_ret {A B} (a : A) (f : A -> GM B) o : (mret a ≫= f) o = f a o.
Proof. reflexivity. Qed.

Lemma bind_liftR_Ok {A B} (a : A) (f : A -> GM B) o :
  (liftR (Ok a) ≫= f) o = f a o.
Proof. reflexivity. Qed.

Lemma bind_liftR_Throw {A B} e (f : A -> GM B) o :
  (liftR (Throw e) ≫= f) o = (Throw e, o).
Proof. reflexivity. Qed.

Lemma bind_throwG {A B} m (f : A -> GM B) o :
  (throwG m ≫= f) o = (acThrow m, o).
Proof. reflexivity. Qed.

Lemma bind_getG {B} (f : Grants -> GM B) o : (getG ≫= f) o = f (g_val o) o.
Proof. reflexivity. Qed.

Lemma modifyG_frozen g o :
  g_frozen o = true -> modifyG g o = (Throw TypeError, o).
Proof. intros H. unfold modifyG. by rewrite H. Qed.

Lemma modifyG_unfrozen g o :
  g_frozen o = false ->
  modifyG g o = (Ok tt, {| g_val := g (g_val o); g_frozen := false |}).
Proof. intros H. unfold modifyG. by rewrite H. Qed.

Lemma bind_modifyG_frozen {B} g (f : unit -> GM B) o :
  g_frozen o = true -> (modifyG g ≫= f) o = (Throw TypeError, o).
Proof. intros H. by rewrite bindG_unfold, modifyG_frozen. Qed.

Lemma bind_modifyG_unfrozen {B} g (f : unit -> GM B) o :
  g_frozen o = false ->
  (modifyG g ≫= f) o = f tt {| g_val := g (g_val o); g_frozen := false |}.
Proof. intros H. by rewrite bindG_unfold, modifyG_unfrozen. Qed.

Lemma bind_assocG {A B C} (m : GM A) (f : A -> GM B) (g : B -> GM C) o :
  ((m ≫= f) ≫= g) o = (m ≫= (fun a => f a ≫= g)) o.
Proof. rewrite !bindG_unfold. by destruct (m o) as [[a|e] o']. Qed.

Lemma forEachG_cons {A} (f : A -> GM unit) x l :
  forEachG f (x :: l) = (f x ≫= (fun _ => forEachG f l)).
Proof. reflexivity. Qed.

Lemma forEachG_nil {A} (f : A -> GM unit) o : forEachG f [] o = (Ok tt, o).
Proof. reflexivity. Qed.

Lemma forEachG_nil_fn {A} (f : A -> GM unit) : forEachG f [] = mret tt.
Proof. reflexivity. Qed.

Ltac gsimp :=
  repeat first
    [ rewrite bind_assocG | rewrite bind_ret | rewrite bind_liftR_Ok
    | rewrite bind_liftR_Throw | rewrite bind_throwG | rewrite bind_getG ];
  cbv beta.

Lemma atRef_unchanged {A} (l : nat) (m : GM A) (w : World) (o : GObj) r :
  heap w !! l = Some o -> m o = (r, o) -> atRef l m w = (r, w).
Proof.
  intros Hl Hm. unfold atRef. rewrite Hl, Hm.
  by rewrite list_insert_id, world_eta.
Qed.

Lemma atRef_keeps {A} (l : nat) (m : GM A) (w : World) :
  (forall o, heap w !! l = Some o -> keepsG m o) ->
  (atRef l m w).2 = w.
Proof.
  intros H. unfold atRef. destruct (heap w !! l) as [o|] eqn:Hl; [|done].
  specialize (H o eq_refl). unfold keepsG in H.
  destruct (m o) as [r o']. simpl in *. subst o'.
  by rewrite list_insert_id, world_eta.
Qed.

Lemma ff_ret {A} (a : A) : frozenFrame (mret a : GM A).
Proof. by intros o _. Qed.

Lemma ff_liftR {A} (r : Result A) : frozenFrame (liftR r).
Proof. by intros o _. Qed.

Lemma ff_throwG {A} (m : Msg) : frozenFrame (throwG m : GM A).
Proof. by intros o _. Qed.

Lemma ff_getG : frozenFrame getG.
Proof. by intros o _. Qed.

Lemma ff_modifyG f : frozenFrame (modifyG f).
Proof. intros o Ho. unfold modifyG. by rewrite Ho. Qed.

Lemma ff_bind {A B} (m : GM A) (f : A -> GM B) :
  frozenFrame m -> (forall a, frozenFrame (f a)) -> frozenFrame (m ≫= f).
Proof.
  intros Hm Hf o Ho. rewrite bindG_unfold.
  specialize (Hm o Ho). destruct (m o) as [[a|e] o']; simpl in *; subst o'.
  - by apply Hf.
  - done.
Qed.

Lemma ff_forEachG {A} (f : A -> GM unit) (l : list A) :
  (forall x, frozenFrame (f x)) -> frozenFrame (forEachG f l).
Proof.
  intros Hf. induction l as [|x l IH]; simpl.
  - apply ff_ret.
  - apply ff_bind; [apply Hf | intros _; apply IH].
Qed.

Lemma ff_readG {A} (f : Grants -> Result A) : frozenFrame (readG f).
Proof. by intros o _. Qed.

(** A read leaves any object as it is, frozen or not. *)
Lemma readG_keeps {A} (f : Grants -> Result A) (o : GObj) : keepsG (readG f) o.
Proof. reflexivity. Qed.

Ltac ff_step :=
  match goal with
  | |- frozenFrame (mret _) => apply ff_ret
  | |- frozenFrame (liftR _) => apply ff_liftR
  | |- frozenFrame (throwG _) => apply ff_throwG
  | |- frozenFrame getG => apply ff_getG
  | |- frozenFrame (modifyG _) => apply ff_modifyG
  | |- frozenFrame (forEachG _ _) => apply ff_forEachG; intros ?
  | |- frozenFrame (_ ≫= _) => apply ff_bind; [|intros ?]
  | |- frozenFrame (if ?b then _ else _) => destruct b
  | |- frozenFrame (match ?x with _ => _ end) => destruct x
  | |- frozenFrame (let '(_, _) := ?x in _) => destruct x
  end.

Lemma ff_extendRole depth subjects extenderRoles replace :
  frozenFrame (utilsW.extendRole depth subjects extenderRoles replace).
Proof. unfold utilsW.extendRole. repeat ff_step. Qed.

Lemma ff_preCreateRoles subjects :
  frozenFrame (utilsW.preCreateRoles subjects).
Proof. unfold utilsW.preCreateRoles. repeat ff_step. Qed.

Lemma ff_commitToGrants access normalizeAll :
  frozenFrame (utilsW.commitToGrants access normalizeAll).
Proof. unfold utilsW.commitToGrants. repeat ff_step. Qed.

(** ** Queries do not write *)

Lemma getPermission_world union depth action possession res this w :
  (Query._getPermission union depth action possession res this w).2 = w.
Proof.
  unfold Query._getPermission.
  pose proof (atRef_keeps (q_grants this)
    (readG (fun grants => Permission_new union depth grants
       {| qi_subject := qi_subject (q_ this);
          qi_resource := if Js.truthy res then res
                         else qi_resource (q_ this);
          qi_action := action; qi_possession := possession |})) w
    (fun o _ => readG_keeps _ o)) as H.
  destruct (atRef _ _ w) as [r w']. exact H.
Qed.


(** ** The locked state *)

Lemma sameLock_refl w : sameLock w w.
Proof. by repeat split. Qed.

Lemma sameLock_store w w' : sameLock w w' -> store w' = store w.
Proof. intros (Hg & _ & Hh). unfold store. by rewrite Hg, Hh. Qed.

Lemma sameLock_isLocked w w' :
  sameLock w w' ->
  AccessControl.isLocked w' = AccessControl.isLocked w.
Proof.
  intros (Hg & Hl & Hh). unfold AccessControl.isLocked, isFrozen.
  by rewrite Hg, Hl, Hh.
Qed.

Lemma isLocked_frozen w :
  AccessControl.isLocked w = true ->
  _isLocked w = true
  /\ exists o, heap w !! _grants w = Some o /\ g_frozen o = true.
Proof.
  unfold AccessControl.isLocked, isFrozen. intros [H1 H2]%andb_true_iff.
  split; [done|]. destruct (heap w !! _grants w) as [o|]; [|done].
  by exists o.
Qed.

(** Under the lock, a computation on any allocated grants object leaves the
    facade's object alone: that object is frozen, and any other object is
    not the facade's. *)
Lemma atRef_sameLock {A} (l : nat) (m : GM A) (w : World) :
  AccessControl.isLocked w = true -> frozenFrame m ->
  sameLock w (atRef l m w).2.
Proof.
  intros (Hl & o0 & Ho0 & Hfr)%isLocked_frozen Hm. unfold atRef.
  destruct (heap w !! l) as [o|] eqn:Hlo; [|apply sameLock_refl].
  destruct (m o) as [r o'] eqn:Hmo. repeat split; simpl.
  destruct (decide (l = _grants w)) as [->|Hne].
  - assert (o = o0) by congruence. subst o0.
    specialize (Hm o Hfr). rewrite Hmo in Hm. simpl in Hm. subst o'.
    by rewrite list_insert_id.
  - by rewrite list_lookup_insert_ne.
Qed.

Lemma atRef_own_locked {A} (m : GM A) (w : World) :
  AccessControl.isLocked w = true -> frozenFrame m ->
  (atRef (_grants w) m w).2 = w.
Proof.
  intros (Hl & o0 & Ho0 & Hfr)%isLocked_frozen Hm.
  apply atRef_keeps. intros o Ho. assert (o = o0) by congruence. subst o0.
  by apply Hm.
Qed.

Lemma lockAC_locked w :
  AccessControl.isLocked w = true -> (lockAC w).2 = w.
Proof.
  intros Hlk. pose proof Hlk as (Hl & o0 & Ho0 & Hfr)%isLocked_frozen.
  unfold lockAC. case_bool_decide; [done|].
  unfold AccessControl.isLocked in Hlk. apply andb_true_iff in Hlk as [_ Hf].
  rewrite Hl, Hf. simpl. rewrite <- Hl. apply world_eta.
Qed.

Lemma lockAC_success w :
  store w ≠ ∅ ->
  exists w1, lockAC w = (Ok tt, w1)
    /\ AccessControl.isLocked w1 = true
    /\ store w1 = store w
    /\ _grants w1 = _grants w.
Proof.
  intros Hne. unfold lockAC. rewrite bool_decide_eq_false_2 by done.
  eexists. split; [reflexivity|].
  assert (exists o, heap w !! _grants w = Some o) as [o Ho].
  { unfold store in Hne. destruct (heap w !! _grants w) as [o|]; [eauto|done]. }
  unfold AccessControl.isLocked, isFrozen, store. simpl.
  destruct (_isLocked w && _ && _) eqn:Hlk.
  - apply andb_true_iff in Hlk as [_ Hf]. unfold isFrozen in Hf.
    rewrite Ho in *. simpl in *. by rewrite Hf.
  - rewrite list_lookup_alter_eq, Ho. done.
Qed.

Lemma lockAC_inv w r w1 :
  lockAC w = (r, w1) ->
  r = Ok tt -> store w ≠ ∅.
Proof.
  unfold lockAC. case_bool_decide; [|done].
  intros [= <- <-]. discriminate.
Qed.

Lemma newAccess_locked arg denied w :
  AccessControl.isLocked w = true -> (Access.new arg denied w).2 = w.
Proof.
  intros Hlk. unfold Access.new. destruct arg as [[|s|l]|info]; try done.
  - unfold Access.subject. simpl.
    pose proof (atRef_own_locked (utilsW.preCreateRoles (Str s)) w Hlk
                  (ff_preCreateRoles _)) as H.
    destruct (atRef _ _ w) as [[?|?] ?]; exact H.
  - unfold Access.subject. simpl.
    pose proof (atRef_own_locked (utilsW.preCreateRoles (Arr l)) w Hlk
                  (ff_preCreateRoles _)) as H.
    destruct (atRef _ _ w) as [[?|?] ?]; exact H.
  - destruct (noKeys info); [done|]. simpl.
    destruct (utils.isInfoFulfilled _); [|done].
    pose proof (atRef_own_locked
      (utilsW.commitToGrants (utils.resetAttributes (setDenied info denied))
         true) w Hlk (ff_commitToGrants _ _)) as H.
    destruct (atRef _ _ w) as [[?|?] ?]; exact H.
Qed.

(** Every facade mutator fails with the locked-state error and leaves the
    world as it is. *)
Lemma runMutator_locked depth m w :
  AccessControl.isLocked w = true ->
  runMutator depth m w = (acThrow ERR_LOCK, w).
Proof.
  intros Hlk. destruct m; simpl;
    unfold AccessControl.setGrants, AccessControl.reset,
      AccessControl.extendRole, AccessControl.removeRoles,
      AccessControl.removeResources, AccessControl.grant,
      AccessControl.deny; by rewrite Hlk.
Qed.

Lemma runBuilder_sameLock depth c this w :
  AccessControl.isLocked w = true ->
  sameLock w (runBuilder depth c this w).
Proof.
  intros Hlk.
  destruct c as [value|value|value|exts|arg|arg| |action possession res attrs];
    simpl.
  - unfold Access.subject.
    pose proof (atRef_sameLock (a_grants this) (utilsW.preCreateRoles value)
                  w Hlk (ff_preCreateRoles _)) as H.
    destruct (atRef _ _ w) as [[?|?] ?]; exact H.
  - unfold Access.resource. destruct (utils.hasValidNames _ _);
      apply sameLock_refl.
  - apply sameLock_refl.
  - unfold Access.extend.
    pose proof (atRef_sameLock (a_grants this)
      (utilsW.extendRole depth (ai_subject (a_ this)) exts false)
      w Hlk (ff_extendRole _ _ _ _)) as H.
    destruct (atRef _ _ w) as [? ?]; exact H.
  - unfold Access.grant.
    pose proof (newAccess_locked arg false w Hlk) as H.
    destruct (Access.new _ _ w) as [[?|?] ?]; simpl in *; subst;
      apply sameLock_refl.
  - unfold Access.deny.
    pose proof (newAccess_locked arg true w Hlk) as H.
    destruct (Access.new _ _ w) as [[?|?] ?]; simpl in *; subst;
      apply sameLock_refl.
  - unfold Access.lock. pose proof (lockAC_locked w Hlk) as H.
    destruct (lockAC w) as [? ?]; simpl in *; subst; apply sameLock_refl.
  - unfold Access._prepareAndCommit.
    match goal with
    | |- context [atRef ?l ?m w] =>
        pose proof (atRef_sameLock l m w Hlk (ff_commitToGrants _ _)) as H;
        destruct (atRef l m w) as [[?|?] ?]; exact H
    end.
Qed.

Lemma step_locked depth w w' :
  step depth w w' -> AccessControl.isLocked w = true ->
  AccessControl.isLocked w' = true /\ store w' = store w.
Proof.
  intros Hs Hlk.
  assert (sameLock w w') as Hsl.
  { destruct Hs.
    - rewrite runMutator_locked by done. apply sameLock_refl.
    - unfold AccessControl.lock. rewrite lockAC_locked by done.
      apply sameLock_refl.
    - by apply runBuilder_sameLock. }
  split; [by rewrite (sameLock_isLocked w w') | by apply sameLock_store].
Qed.

Lemma rtc_step_locked depth w w' :
  rtc (step depth) w w' -> AccessControl.isLocked w = true ->
  AccessControl.isLocked w' = true /\ store w' = store w.
Proof.
  induction 1 as [w|w w1 w2 Hs _ IH]; intros Hlk; [done|].
  destruct (step_locked depth w w1 Hs Hlk) as [Hlk1 Hst1].
  destruct (IH Hlk1) as [Hlk2 Hst2]. split; [done | congruence].
Qed.

Lemma normalizeAccessInfo_Ok access all access' :
  utils.normalizeAccessInfo access all = Ok access' ->
  exists s ss r rs attrs,
    utils.toStringArray (ai_subject access) = s :: ss
    /\ utils.toStringArray (ai_resource access) = r :: rs
    /\ ai_subject access' = Arr (s :: ss)
    /\ ai_resource access' = Arr (r :: rs)
    /\ ai_attributes access' = Arr attrs
    /\ ai_denied access' = ai_denied access.
Proof.
  unfold utils.normalizeAccessInfo. intros H.
  destruct (bool_decide _ || _) eqn:H1 in H; [done|].
  destruct (bool_decide _ || _) eqn:H2 in H; [done|].
  apply orb_false_iff in H1 as [H1 _], H2 as [H2 _].
  apply bool_decide_eq_false in H1, H2.
  destruct (utils.toStringArray (ai_subject access)) as [|s ss]; [done|].
  destruct (utils.toStringArray (ai_resource access)) as [|r rs]; [done|].
  exists s, ss, r, rs.
  destruct all.
  - destruct (utils.normalizeActionPossession _ _) as [[a p]|e]; [|done].
    simplify_eq/=. repeat case_match; eexists; repeat split; reflexivity.
  - simplify_eq/=. repeat case_match; eexists; repeat split; reflexivity.
Qed.

Lemma normalizeActionPossession_not_lock action possession e :
  utils.normalizeActionPossession action possession = Throw e ->
  e ≠ AccessControlError ERR_LOCK.
Proof.
  unfold utils.normalizeActionPossession. destruct action; [|by intros [= <-]].
  destruct (Js.truthy (if Js.truthy possession then _ else _)); [|done].
  destruct (_ && _); [|done]. by intros [= <-].
Qed.

Lemma normalizeAccessInfo_not_lock access all e :
  utils.normalizeAccessInfo access all = Throw e ->
  e ≠ AccessControlError ERR_LOCK.
Proof.
  unfold utils.normalizeAccessInfo.
  destruct (_ || _); [by intros [= <-]|].
  destruct (_ || _); [by intros [= <-]|].
  destruct all; [|done].
  destruct (utils.normalizeActionPossession _ _) as [[a p]|e'] eqn:Hn; [done|].
  simpl. intros [= <-]. by eapply normalizeActionPossession_not_lock.
Qed.

Lemma validName_not_lock name e :
  utils.validName name true = Throw e -> e ≠ AccessControlError ERR_LOCK.
Proof.
  unfold utils.validName. destruct (Js.blank name); [by intros [= <-]|].
  destruct (utils.includes _ _); [by intros [= <-]|done].
Qed.

(** A commit to a frozen object never returns: it throws a validation
    error or the [TypeError] of its first write, never the locked-state
    error, and the object is as before. *)
Lemma commitToGrants_frozen access all o :
  g_frozen o = true ->
  exists e, utilsW.commitToGrants access all o = (Throw e, o)
            /\ e ≠ AccessControlError ERR_LOCK.
Proof.
  intros Hfr.
  set (P := fun r : Result unit * GObj =>
              exists e, r = (Throw e, o) /\ e ≠ AccessControlError ERR_LOCK).
  change (P (utilsW.commitToGrants access all o)).
  assert (P (Throw TypeError, o)) as HT by (by exists TypeError).
  unfold utilsW.commitToGrants.
  destruct (utils.normalizeAccessInfo access all) as [access'|e] eqn:Hn.
  2:{ gsimp. exists e. split; [done|]. by eapply normalizeAccessInfo_not_lock. }
  gsimp.
  apply normalizeAccessInfo_Ok in Hn
    as (s & ss & r & rs & attrs & _ & _ & Hs & Hr & Ha & _).
  rewrite Hs, Hr. cbn [utils.toStringArray].
  rewrite (forEachG_cons _ s ss).
  destruct (utils.validName s true) as [v|e] eqn:Hv.
  2:{ gsimp. exists e. split; [done|]. by eapply validName_not_lock. }
  gsimp.
  destruct (negb (utils.has (g_val o) s)) eqn:Hhas.
  { by rewrite bind_modifyG_frozen. }
  gsimp. rewrite (forEachG_cons _ r rs).
  destruct (utils.validName r true) as [v'|e] eqn:Hv'.
  2:{ gsimp. exists e. split; [done|]. by eapply validName_not_lock. }
  gsimp.
  destruct (negb (utils.has (default ∅ (g_val o !! s)) r)) eqn:Hhas'.
  { by rewrite bind_modifyG_frozen. }
  gsimp.
  destruct (default ∅ (g_val o !! s) !! r) as [[l|ro]|].
  - by gsimp.
  - by rewrite bind_modifyG_frozen.
  - by gsimp.
Qed.

(** ** Query resolution *)

Lemma forEachR_ext_in {A B} (f g : B -> A -> Result B) (l : list A) (b : B) :
  (forall b x, x ∈ l -> f b x = g b x) -> forEachR f l b = forEachR g l b.
Proof.
  revert b. induction l as [|x l IH]; intros b H; [done|]. simpl.
  rewrite (H b x) by left. destruct (g b x) as [b'|e]; [|done]. simpl.
  apply IH. intros b0 y Hy. apply H. by right.
Qed.

Lemma normalizeQueryInfo_read subject res p :
  p = "own" \/ p = "any" ->
  utils.normalizeQueryInfo
    {| qi_subject := subject; qi_resource := res;
       qi_action := Some "read"; qi_possession := Some p |}
  = if negb (utils.isFilledStringArray (utils.toStringArray subject))
    then acThrow (InvalidSubjects (utils.toStringArray subject))
    else match res with
         | None => acThrow (InvalidResource None)
         | Some r =>
             if Js.blank r then acThrow (InvalidResource (Some r))
             else Ok {| qi_subject := Arr (utils.toStringArray subject);
                        qi_resource := Some (Js.trim r);
                        qi_action := Some "read";
                        qi_possession := Some p |}
         end.
Proof.
  intros Hp. unfold utils.normalizeQueryInfo. cbn [qi_subject qi_resource
    qi_action qi_possession].
  destruct (negb _); [done|]. destruct res as [r|]; [|done].
  destruct (Js.blank r); [done|].
  by destruct Hp as [-> | ->].
Qed.

(** The attribute lists collected for the roles [subjects]. *)
Lemma collect_own_any (grants : Grants) (res : string) (subjects : list string)
    (acc : list (list string)) :
  (forall s role o, s ∈ subjects -> grants !! s = Some role ->
     role !! res = Some (EObj o) -> o !! "read:own" = None) ->
  forEachR (fun attrsList subjectName =>
    match grants !! subjectName with
    | None => Throw TypeError
    | Some subject =>
        match subject !! res with
        | Some resource =>
            Ok (attrsList ++ [utils.attrsOf resource "read" "own"])
        | None => Ok attrsList
        end
    end) subjects acc
  = forEachR (fun attrsList subjectName =>
    match grants !! subjectName with
    | None => Throw TypeError
    | Some subject =>
        match subject !! res with
        | Some resource =>
            Ok (attrsList ++ [utils.attrsOf resource "read" "any"])
        | None => Ok attrsList
        end
    end) subjects acc.
Proof.
  intros H. apply forEachR_ext_in. intros b s Hs.
  destruct (grants !! s) as [role|] eqn:Hrole; [|done].
  destruct (role !! res) as [[l|o]|] eqn:Hres; [done| |done].
  unfold utils.attrsOf. change ("read" +:+ ":" +:+ "own") with "read:own".
  change ("read" +:+ ":any") with "read:any".
  change ("read" +:+ ":" +:+ "any") with "read:any".
  rewrite (H s role o Hs Hrole Hres). by destruct (o !! "read:any").
Qed.

Lemma getUnionAttrsOfRoles_own_any union depth grants subject res :
  (forall roles s role o,
     utils.getFlatRoles depth grants (Arr (utils.toStringArray subject))
       = Ok roles ->
     s ∈ roles -> grants !! s = Some role ->
     role !! Js.trim (default "" res) = Some (EObj o) ->
     o !! "read:own" = None) ->
  utils.getUnionAttrsOfRoles union depth grants
    {| qi_subject := subject; qi_resource := res;
       qi_action := Some "read"; qi_possession := Some "own" |}
  = utils.getUnionAttrsOfRoles union depth grants
    {| qi_subject := subject; qi_resource := res;
       qi_action := Some "read"; qi_possession := Some "any" |}.
Proof.
  intros H. unfold utils.getUnionAttrsOfRoles.
  rewrite !normalizeQueryInfo_read by auto.
  destruct (negb _); [done|]. destruct res as [r|]; [|done].
  destruct (Js.blank r); [done|].
  cbn [mbind Result_bind qi_subject qi_resource qi_action qi_possession Js.str
       default].
  destruct (utils.getFlatRoles _ _ _) as [roles|e] eqn:Hflat; [|done].
  cbn [mbind Result_bind]. unfold id.
  rewrite (collect_own_any grants (Js.trim r) roles []); [done|].
  intros s role o Hs Hrole Hres. by eapply (H roles s role o).
Qed.

Lemma getRoleHierarchyOf_leaf depth grants subjectName role rootRole :
  grants !! subjectName = Some role ->
  default [] (utils.extendOf role) = [] ->
  utils.getRoleHierarchyOf depth grants subjectName rootRole
  = Ok [subjectName].
Proof.
  intros Hrole Hext. destruct depth; simpl; rewrite Hrole;
    destruct (utils.extendOf role) as [[|x l]|]; done.
Qed.

Lemma uniqConcat_self_1 x : utils.uniqConcat [x] [x] = [x].
Proof.
  unfold utils.uniqConcat, utils.pushUniq, utils.includes. simpl.
  rewrite bool_decide_eq_true_2; [done | by left].
Qed.

Lemma uniqConcat_nil_1 x : utils.uniqConcat [] [x] = [x].
Proof. reflexivity. Qed.

Lemma getFlatRoles_leaf depth grants X role :
  grants !! X = Some role ->
  default [] (utils.extendOf role) = [] ->
  utils.getFlatRoles depth grants (Arr [X]) = Ok [X].
Proof.
  intros Hrole Hext. unfold utils.getFlatRoles.
  cbn [utils.toStringArray length forEachR].
  rewrite bool_decide_eq_false_2 by done.
  rewrite (getRoleHierarchyOf_leaf depth grants X role None Hrole Hext).
  cbn [mbind Result_bind]. rewrite uniqConcat_nil_1.
  by rewrite uniqConcat_self_1.
Qed.

Lemma Permission_new_leaf union depth grants X R role o l p :
  p = "own" \/ p = "any" ->
  utils.toStringArray (Str X) = [X] ->
  Js.blank X = false -> Js.blank R = false ->
  grants !! X = Some role ->
  default [] (utils.extendOf role) = [] ->
  role !! Js.trim R = Some (EObj o) ->
  o !! "read:any" = Some l ->
  (p = "own" -> o !! "read:own" = None) ->
  Permission_new union depth grants
    {| qi_subject := Str X; qi_resource := Some R;
       qi_action := Some "read"; qi_possession := Some p |}
  = Ok {| attributes := l; subjects := [X]; resource := Js.trim R |}.
Proof.
  intros Hp HX HbX HbR Hrole Hext Hres Hany Hown.
  unfold Permission_new, utils.getUnionAttrsOfRoles.
  rewrite !normalizeQueryInfo_read by done. rewrite HX.
  unfold utils.isFilledStringArray. simpl. rewrite HbX, HbR. simpl.
  unfold id.
  rewrite (getFlatRoles_leaf depth grants X role Hrole Hext). simpl.
  rewrite Hrole, Hres. simpl. unfold utils.attrsOf.
  destruct Hp as [-> | ->].
  - change ("read" +:+ ":" +:+ "own") with "read:own".
    change ("read" +:+ ":any") with "read:any".
    by rewrite Hown, Hany.
  - change ("read" +:+ ":" +:+ "any") with "read:any". by rewrite Hany.
Qed.

(** ** The role hierarchy *)

Lemma includes_true arr x : utils.includes arr x = true <-> x ∈ arr.
Proof. unfold utils.includes. apply bool_decide_eq_true. Qed.

Lemma includes_false arr x : utils.includes arr x = false <-> x ∉ arr.
Proof. unfold utils.includes. apply bool_decide_eq_false. Qed.

Lemma has_true {V} (o : gmap string V) k :
  utils.has o k = true <-> is_Some (o !! k).
Proof.
  unfold utils.has. destruct (o !! k); naive_solver.
Qed.

Lemma has_false {V} (o : gmap string V) k :
  utils.has o k = false <-> o !! k = None.
Proof. unfold utils.has. by destruct (o !! k). Qed.

Lemma elem_of_pushUniq arr item x :
  x ∈ utils.pushUniq arr item <-> x ∈ arr \/ x = item.
Proof.
  unfold utils.pushUniq. destruct (utils.includes arr item) eqn:H.
  - apply includes_true in H. split; [by left|]. by intros [?| ->].
  - rewrite elem_of_app, list_elem_of_singleton. done.
Qed.

Lemma elem_of_uniqConcat arrA arrB x :
  x ∈ utils.uniqConcat arrA arrB <-> x ∈ arrA \/ x ∈ arrB.
Proof.
  unfold utils.uniqConcat. revert arrA.
  induction arrB as [|b arrB IH]; intros arrA; simpl.
  - split; [by left|]. intros [?|H]; [done|]. by apply elem_of_nil in H.
  - rewrite IH, elem_of_pushUniq, elem_of_cons. tauto.
Qed.

(** The loop of [getRoleHierarchyOf] only adds to the list. *)
Lemma hierarchy_loop_mem (F : string -> Result (list string))
    (G : string -> option Error) ext arr l :
  forEachR (fun arr exRoleName =>
    match G exRoleName with
    | Some e => Throw e
    | None => ext ← F exRoleName; Ok (utils.uniqConcat arr ext)
    end) ext arr = Ok l ->
  (forall x, x ∈ arr -> x ∈ l)
  /\ (forall e, e ∈ ext -> exists le, F e = Ok le /\ forall x, x ∈ le -> x ∈ l).
Proof.
  revert arr. induction ext as [|e ext IH]; intros arr; simpl.
  - intros [= <-]. split; [done|]. intros e He. by apply elem_of_nil in He.
  - destruct (G e); [done|]. destruct (F e) as [le|] eqn:HF; [|done]. simpl.
    intros H. destruct (IH _ H) as [H1 H2]. split.
    + intros x Hx. apply H1, elem_of_uniqConcat. by left.
    + intros e' [->|He']%elem_of_cons; [|by apply H2].
      exists le. split; [done|]. intros x Hx.
      apply H1, elem_of_uniqConcat. by right.
Qed.

(** [getRoleHierarchyOf] written with the loop above. *)
Lemma getRoleHierarchyOf_unfold depth grants subjectName rootRole :
  utils.getRoleHierarchyOf depth grants subjectName rootRole
  = match grants !! subjectName with
    | None => acThrow (SubjectNotFound subjectName)
    | Some subject =>
        match utils.extendOf subject with
        | None | Some [] => Ok [subjectName]
        | Some _extend_ =>
            forEachR (fun arr exRoleName =>
              match
                (if negb (utils.has grants exRoleName)
                 then Some (AccessControlError (SubjectNotFound "undefined"))
                 else if bool_decide (exRoleName = subjectName)
                 then Some (AccessControlError (SelfExtend subjectName))
                 else if Js.truthy rootRole
                         && bool_decide (Js.str rootRole = exRoleName)
                 then Some (AccessControlError
                              (CrossInheritance exRoleName (Js.str rootRole)))
                 else if depth is 0 then Some RangeError else None)
              with
              | Some e => Throw e
              | None =>
                  ext ← utils.getRoleHierarchyOf (pred depth) grants
                          exRoleName
                          (Some (utils.orElse rootRole subjectName));
                  Ok (utils.uniqConcat arr ext)
              end) _extend_ [subjectName]
        end
    end.
Proof.
  destruct depth; simpl; destruct (grants !! subjectName) as [subject|];
    try done; destruct (utils.extendOf subject) as [[|x l]|]; try done;
    apply forEachR_ext_in; intros b y _;
    repeat (case_match; try done).
Qed.

Lemma getRoleHierarchyOf_self depth grants subjectName rootRole l :
  utils.getRoleHierarchyOf depth grants subjectName rootRole = Ok l ->
  subjectName ∈ l.
Proof.
  rewrite getRoleHierarchyOf_unfold.
  destruct (grants !! subjectName) as [subject|]; [|done].
  destruct (utils.extendOf subject) as [[|x ext]|].
  - intros [= <-]. by left.
  - intros H. apply hierarchy_loop_mem in H as [H _]. apply H. by left.
  - intros [= <-]. by left.
Qed.

(** The hierarchy of a role contains every role of its inheritance list. *)
Lemma getRoleHierarchyOf_extender depth grants subjectName rootRole l role
    ext e :
  utils.getRoleHierarchyOf depth grants subjectName rootRole = Ok l ->
  grants !! subjectName = Some role -> utils.extendOf role = Some ext ->
  e ∈ ext -> e ∈ l.
Proof.
  rewrite getRoleHierarchyOf_unfold. intros H Hrole Hext He.
  rewrite Hrole, Hext in H. destruct ext as [|x ext].
  { by apply elem_of_nil in He. }
  apply hierarchy_loop_mem in H as [_ H].
  destruct (H e He) as (le & Hle & Hin). apply Hin.
  by eapply getRoleHierarchyOf_self.
Qed.

(** With existing extenders, no cycle and chains within the call stack the
    hierarchy of a role resolves. *)
Lemma getRoleHierarchyOf_resolves (rk : string -> nat) grants :
  (forall s role ext e,
     grants !! s = Some role -> utils.extendOf role = Some ext -> e ∈ ext ->
     is_Some (grants !! e) /\ rk e < rk s) ->
  forall depth subjectName rootRole,
    is_Some (grants !! subjectName) ->
    rk subjectName <= depth ->
    (Js.truthy rootRole = true -> rk subjectName < rk (Js.str rootRole)) ->
    exists l, utils.getRoleHierarchyOf depth grants subjectName rootRole = Ok l.
Proof.
  intros Hok. induction depth as [|depth IH];
    intros subjectName rootRole [role Hrole] Hrk Hroot.
  - rewrite getRoleHierarchyOf_unfold, Hrole.
    destruct (utils.extendOf role) as [[|x ext]|] eqn:Hext; eauto.
    destruct (Hok subjectName role (x :: ext) x Hrole Hext) as (_ & ?);
      [by left | lia].
  - rewrite getRoleHierarchyOf_unfold, Hrole.
    destruct (utils.extendOf role) as [ext|] eqn:Hext; [|eauto].
    assert (forall arr l', (forall e, e ∈ l' -> e ∈ ext) ->
      exists l, forEachR (fun arr exRoleName =>
        match
          (if negb (utils.has grants exRoleName)
           then Some (AccessControlError (SubjectNotFound "undefined"))
           else if bool_decide (exRoleName = subjectName)
           then Some (AccessControlError (SelfExtend subjectName))
           else if Js.truthy rootRole
                   && bool_decide (Js.str rootRole = exRoleName)
           then Some (AccessControlError
                        (CrossInheritance exRoleName (Js.str rootRole)))
           else if S depth is 0 then Some RangeError else None)
        with
        | Some e => Throw e
        | None =>
            ext ← utils.getRoleHierarchyOf (pred (S depth)) grants exRoleName
                    (Some (utils.orElse rootRole subjectName));
            Ok (utils.uniqConcat arr ext)
        end) l' arr = Ok l) as Hloop.
    { intros arr l'. revert arr.
      induction l' as [|e l' IHl]; intros arr Hsub; simpl; [eauto|].
      destruct (Hok subjectName role ext e Hrole Hext) as ([re Hre] & Hlt);
        [apply Hsub; by left|].
      assert (utils.has grants e = true) as -> by (apply has_true; eauto).
      simpl. rewrite bool_decide_eq_false_2 by (intros ->; lia).
      assert (Js.truthy rootRole && bool_decide (Js.str rootRole = e) = false)
        as ->.
      { destruct (Js.truthy rootRole) eqn:Ht; [|done]. simpl.
        apply bool_decide_eq_false. intros <-. specialize (Hroot eq_refl).
        lia. }
      destruct (IH e (Some (utils.orElse rootRole subjectName)))
        as [le Hle]; [eauto | lia | |].
      { intros _. unfold utils.orElse.
        destruct (Js.truthy rootRole) eqn:Ht; simpl; [|done].
        specialize (Hroot eq_refl). lia. }
      rewrite Hle. simpl. apply IHl. intros e' He'. apply Hsub. by right. }
    destruct ext as [|x ext]; [eauto|]. by apply Hloop.
Qed.

(** ** extendRole *)

Lemma validName_Ok name v :
  utils.validName name true = Ok v ->
  v = true /\ Js.blank name = false
  /\ utils.includes utils.RESERVED_KEYWORDS name = false.
Proof.
  unfold utils.validName. destruct (Js.blank name); [done|].
  destruct (utils.includes _ _); [done|]. by intros [= <-].
Qed.

Lemma not_blank_not_empty name : Js.blank name = false -> name ≠ "".
Proof. by intros H ->. Qed.

(** What a successful [extendRole] of one subject by one role has checked
    and written. *)
Lemma extendRole_single_Ok depth sv a e replace o o1 :
  utils.toStringArray sv = [a] ->
  utilsW.extendRole depth sv (Arr [e]) replace o = (Ok tt, o1) ->
  g_frozen o = false
  /\ is_Some (g_val o !! e) /\ is_Some (g_val o !! a) /\ a ≠ e /\ a ≠ ""
  /\ exists l, e ∈ l
       /\ o1 = {| g_val := utilsW.setEntry a "_extend_" (EArr l) (g_val o);
                  g_frozen := false |}.
Proof.
  intros Hsv. unfold utilsW.extendRole. rewrite Hsv.
  cbn [utils.isEmptyArray utils.toStringArray length].
  rewrite !bool_decide_eq_false_2 by done. gsimp.
  unfold utils.getNonExistentRoles. cbn [List.filter].
  destruct (utils.has (g_val o) e) eqn:He; cbn [negb length].
  2:{ rewrite bool_decide_eq_true_2 by lia. by gsimp. }
  rewrite bool_decide_eq_false_2 by lia.
  rewrite forEachG_cons. gsimp.
  destruct (utils.has (g_val o) a) eqn:Ha; cbn [negb]; [|by gsimp].
  destruct (utils.includes [e] a) eqn:Hinc; [by gsimp|].
  destruct (utils.getCrossExtendingRole _ _ _ _) as [c|err]; [|by gsimp].
  gsimp. destruct (Js.truthy c); [by gsimp|].
  destruct (utils.validName a true) as [v|err] eqn:Hv; [|by gsimp].
  gsimp. apply validName_Ok in Hv as (_ & Hb & _).
  apply has_true in He, Ha. apply includes_false in Hinc.
  assert (a ≠ e) by (intros ->; apply Hinc; by left).
  pose proof (not_blank_not_empty a Hb).
  destruct (g_frozen o) eqn:Hfr.
  { destruct replace; cbn [negb];
      [by rewrite bind_modifyG_frozen|].
    destruct (default ∅ (g_val o !! a) !! "_extend_") as [[l|?]|];
      [by rewrite bind_modifyG_frozen | by gsimp
      | by rewrite bind_modifyG_frozen]. }
  destruct replace; cbn [negb].
  - rewrite bind_modifyG_unfrozen by done. rewrite forEachG_nil.
    intros [= <-]. repeat split; try done. exists [e]. split; [by left|done].
  - destruct (default ∅ (g_val o !! a) !! "_extend_") as [[l|?]|].
    + rewrite bind_modifyG_unfrozen by done. rewrite forEachG_nil.
      intros [= <-]. repeat split; try done. eexists. split; [|done].
      first [ apply elem_of_uniqConcat; right; by left
            | apply elem_of_pushUniq; by right ].
    + by gsimp.
    + rewrite bind_modifyG_unfrozen by done. rewrite forEachG_nil.
      intros [= <-]. repeat split; try done. eexists. split; [|done].
      first [ apply elem_of_uniqConcat; right; by left
            | apply elem_of_pushUniq; by right ].
Qed.

(** [extendRole(b, [a])] when the hierarchy of [a] contains [b]. *)
Lemma extendRole_cross depth sv b a replace o l :
  utils.toStringArray sv = [b] ->
  is_Some (g_val o !! a) -> is_Some (g_val o !! b) -> a ≠ b -> a ≠ "" ->
  utils.getRoleHierarchyOf depth (g_val o) a None = Ok l -> b ∈ l ->
  utilsW.extendRole depth sv (Arr [a]) replace o
  = (acThrow (CrossInheritance a b), o).
Proof.
  intros Hsv Ha Hb Hab Hne Hl Hbl. unfold utilsW.extendRole. rewrite Hsv.
  cbn [utils.isEmptyArray utils.toStringArray length].
  rewrite !bool_decide_eq_false_2 by done. gsimp.
  unfold utils.getNonExistentRoles. cbn [List.filter].
  apply has_true in Ha, Hb. rewrite Ha. cbn [negb length].
  rewrite bool_decide_eq_false_2 by lia.
  rewrite forEachG_cons. gsimp. rewrite Hb. cbn [negb].
  assert (utils.includes [a] b = false) as ->.
  { apply includes_false. intros ?%list_elem_of_singleton. by subst. }
  unfold utils.getCrossExtendingRole. cbn [utils.toStringArray].
  cbn [utils.getCrossExtendingRole_go Js.truthy orb].
  rewrite bool_decide_eq_false_2 by done. rewrite Hl.
  cbn [mbind Result_bind]. unfold utils.inherits.
  assert (utils.includes l b = true) as -> by (by apply includes_true).
  gsimp. unfold Js.truthy. destruct (decide (a = "")); [done|]. by gsimp.
Qed.

Lemma setEntry_lookup s k v (grants : Grants) role :
  grants !! s = Some role ->
  utilsW.setEntry s k v grants !! s = Some (<[k := v]> role).
Proof.
  intros H. unfold utilsW.setEntry. by rewrite lookup_alter_eq, H.
Qed.

Lemma setEntry_lookup_ne s s' k v (grants : Grants) :
  s ≠ s' -> utilsW.setEntry s k v grants !! s' = grants !! s'.
Proof. intros H. unfold utilsW.setEntry. by rewrite lookup_alter_ne. Qed.

Lemma setEntry_is_Some s s' k v (grants : Grants) :
  is_Some (utilsW.setEntry s k v grants !! s') <-> is_Some (grants !! s').
Proof.
  unfold utilsW.setEntry. destruct (decide (s = s')) as [->|].
  - rewrite lookup_alter_eq. by rewrite fmap_is_Some.
  - by rewrite lookup_alter_ne.
Qed.

(** ** removeRoles *)

Lemma pruneExtend_spec rem k o :
  g_frozen o = false ->
  exists g', AccessControl.pruneExtend rem k o
             = (Ok tt, {| g_val := g'; g_frozen := false |})
    /\ g' !! k = pruneRole rem <$> g_val o !! k
    /\ forall k', k' ≠ k -> g' !! k' = g_val o !! k'.
Proof.
  intros Hfr. unfold AccessControl.pruneExtend. gsimp.
  destruct (g_val o !! k) as [role|] eqn:Hk; simpl.
  - destruct (utils.extendOf role) as [l|] eqn:Hext.
    + rewrite modifyG_unfrozen by done. eexists. split; [done|]. split.
      * rewrite (setEntry_lookup _ _ _ _ role Hk). unfold pruneRole.
        by rewrite Hext.
      * intros k' Hne. by rewrite setEntry_lookup_ne.
    + exists (g_val o). destruct o as [g f]. simpl in *. subst f.
      split; [done|]. split; [|done]. unfold pruneRole. by rewrite Hk, Hext.
  - unfold utils.extendOf. rewrite lookup_empty.
    exists (g_val o). destruct o as [g f]. simpl in *. subst f.
    split; [done|]. split; [|done]. by rewrite Hk.
Qed.

Lemma prune_loop rem ks o :
  NoDup ks -> g_frozen o = false ->
  exists g', forEachG (AccessControl.pruneExtend rem) ks o
             = (Ok tt, {| g_val := g'; g_frozen := false |})
    /\ forall k, g' !! k = if bool_decide (k ∈ ks)
                           then pruneRole rem <$> g_val o !! k
                           else g_val o !! k.
Proof.
  revert o. induction ks as [|k ks IH]; intros o Hnd Hfr.
  - exists (g_val o). destruct o as [g f]. simpl in *. subst f.
    split; [done|]. intros k.
    destruct (bool_decide (k ∈ [])) eqn:Hin; [|done].
    apply bool_decide_eq_true in Hin. by apply elem_of_nil in Hin.
  - apply NoDup_cons in Hnd as [Hk Hnd].
    destruct (pruneExtend_spec rem k o Hfr) as (g1 & H1 & Hk1 & Hne1).
    destruct (IH {| g_val := g1; g_frozen := false |} Hnd eq_refl)
      as (g2 & H2 & Hg2).
    exists g2. split.
    + rewrite forEachG_cons, bindG_unfold, H1. exact H2.
    + intros k'. rewrite Hg2. simpl.
      destruct (decide (k' = k)) as [->|Hne].
      * rewrite bool_decide_eq_false_2 by done.
        rewrite bool_decide_eq_true_2 by left. done.
      * rewrite Hne1 by done. destruct (bool_decide (k' ∈ ks)) eqn:Hin.
        -- apply bool_decide_eq_true in Hin.
           rewrite bool_decide_eq_true_2 by (by right). done.
        -- apply bool_decide_eq_false in Hin.
           rewrite bool_decide_eq_false_2; [done|].
           by intros [?|?]%elem_of_cons.
Qed.

Lemma prune_all rem o :
  g_frozen o = false ->
  forEachG (AccessControl.pruneExtend rem) (map fst (map_to_list (g_val o))) o
  = (Ok tt, {| g_val := pruneRole rem <$> g_val o; g_frozen := false |}).
Proof.
  intros Hfr.
  destruct (prune_loop rem (map fst (map_to_list (g_val o))) o)
    as (g' & H & Hg'); [apply NoDup_fst_map_to_list | done |].
  rewrite H. do 2 f_equal. apply map_eq. intros k. rewrite Hg', lookup_fmap.
  destruct (g_val o !! k) as [role|] eqn:Hk.
  - rewrite bool_decide_eq_true_2; [done|].
    apply list_elem_of_fmap. exists (k, role). split; [done|].
    by apply elem_of_map_to_list.
  - simpl. by destruct (bool_decide _).
Qed.

Lemma not_elem_of_subtractArray arrA arrB x :
  x ∈ arrB -> x ∉ utils.subtractArray arrA arrB.
Proof.
  intros Hx. unfold utils.subtractArray. rewrite list_elem_of_In.
  rewrite filter_In. intros [_ H]. apply negb_true_iff, includes_false in H.
  done.
Qed.

Lemma subtractArray_all arr x :
  (forall e, e ∈ arr -> e = x) -> utils.subtractArray arr [x] = [].
Proof.
  intros H. unfold utils.subtractArray.
  induction arr as [|a arr IH]; [done|]. simpl.
  assert (utils.includes [x] a = true) as ->.
  { apply includes_true. rewrite (H a) by left. by left. }
  simpl. apply IH. intros e He. apply H. by right.
Qed.

(** [removeRoles([B])] on an unlocked store in which [B] exists. *)
Lemma removeRoles_single B w o :
  heap w !! _grants w = Some o -> g_frozen o = false ->
  Js.blank B = false -> is_Some (g_val o !! B) ->
  AccessControl.removeRoles (Arr [B]) w
  = (Ok tt,
     {| heap := <[_grants w :=
                    {| g_val := pruneRole [B] <$> delete B (g_val o);
                       g_frozen := false |}]> (heap w);
        _grants := _grants w; _isLocked := _isLocked w |}).
Proof.
  intros Ho Hfr HB HsB. unfold AccessControl.removeRoles.
  assert (AccessControl.isLocked w = false) as ->.
  { unfold AccessControl.isLocked, isFrozen. rewrite Ho. simpl.
    rewrite Hfr. apply andb_false_r. }
  cbn [utils.toStringArray length]. rewrite bool_decide_eq_false_2 by done.
  unfold utils.isFilledStringArray. cbn [forallb]. rewrite HB.
  cbn [negb andb orb]. unfold atRef. rewrite Ho.
  rewrite forEachG_cons. gsimp.
  apply has_true in HsB. rewrite HsB. cbn [negb].
  rewrite bind_modifyG_unfrozen by done. rewrite forEachG_nil_fn.
  gsimp. cbn [g_val].
  pose proof (prune_all [B]
    {| g_val := delete B (g_val o); g_frozen := false |} eq_refl) as Hp.
  cbn [g_val] in Hp. by rewrite Hp.
Qed.

(** ** Failing calls *)

Lemma atRef_throw_clean {A} (l : nat) (m : GM A) (w : World) e w' :
  (forall o o', m o = (Throw e, o') -> o' = o) ->
  atRef l m w = (Throw e, w') -> w' = w.
Proof.
  intros Hm. unfold atRef. destruct (heap w !! l) as [o|] eqn:Ho.
  - destruct (m o) as [r o'] eqn:Hmo. intros [= -> <-].
    rewrite (Hm o o' Hmo). by rewrite list_insert_id, world_eta.
  - by intros [= _ <-].
Qed.

Lemma modifyG_throw g o e o' : modifyG g o = (Throw e, o') -> o' = o.
Proof. unfold modifyG. destruct (g_frozen o); [by intros [= _ <-]|done]. Qed.

Lemma extendRole_le1_throw depth sv exts replace o e o' :
  length (utils.toStringArray sv) <= 1 ->
  utilsW.extendRole depth sv exts replace o = (Throw e, o') -> o' = o.
Proof.
  intros Hlen. unfold utilsW.extendRole.
  destruct (utils.toStringArray sv) as [|a [|? ?]] eqn:Hsv;
    [by intros [= _ <-]| |simpl in Hlen; lia].
  cbn [length]. rewrite bool_decide_eq_false_2 by done.
  destruct (utils.isEmptyArray exts); [done|].
  destruct (bool_decide _); [by intros [= _ <-]|]. gsimp.
  destruct (bool_decide _); [by intros [= _ <-]|].
  rewrite forEachG_cons, forEachG_nil_fn. gsimp.
  destruct (negb _); [by gsimp; intros [= _ <-]|].
  destruct (utils.includes _ _); [by gsimp; intros [= _ <-]|].
  destruct (utils.getCrossExtendingRole _ _ _ _) as [c|err];
    [|by gsimp; intros [= _ <-]].
  gsimp. destruct (Js.truthy c); [by gsimp; intros [= _ <-]|].
  destruct (utils.validName a true) as [v|err];
    [|by gsimp; intros [= _ <-]].
  gsimp. rewrite bindG_unfold.
  destruct (negb replace).
  - destruct (default ∅ (g_val o !! a) !! "_extend_") as [[l|?]|].
    + destruct (modifyG _ o) as [[[]|e1] o1] eqn:Hm; [done|].
      intros [= _ <-]. by eapply modifyG_throw.
    + by intros [= _ <-].
    + destruct (modifyG _ o) as [[[]|e1] o1] eqn:Hm; [done|].
      intros [= _ <-]. by eapply modifyG_throw.
  - destruct (modifyG _ o) as [[[]|e1] o1] eqn:Hm; [done|].
    intros [= _ <-]. by eapply modifyG_throw.
Qed.

Lemma preCreateRoles_le1_throw sv o e o' :
  length (utils.toStringArray sv) <= 1 ->
  utilsW.preCreateRoles sv o = (Throw e, o') -> o' = o.
Proof.
  intros Hlen. unfold utilsW.preCreateRoles.
  assert (exists l, l = utils.toStringArray sv /\ length l <= 1)
    as (l & Hl & Hlen') by eauto.
  destruct sv as [|s|l0]; [by intros [= _ <-]| |];
    cbn [utils.toStringArray] in Hl |- *; rewrite <- Hl;
    (destruct l as [|a [|? ?]];
      [by intros [= _ <-] | | simpl in Hlen'; lia]);
    rewrite forEachG_cons, forEachG_nil_fn;
    (destruct (utils.validName a true) as [v|err];
      [|by gsimp; intros [= _ <-]]);
    gsimp; (destruct (negb _); [|by gsimp]);
    rewrite bindG_unfold;
    (destruct (modifyG _ o) as [[[]|e1] o1] eqn:Hm; [done|]);
    intros [= _ <-]; by eapply modifyG_throw.
Qed.

Lemma removeRoles_le1_throw sv w e w' :
  length (utils.toStringArray sv) <= 1 ->
  AccessControl.removeRoles sv w = (Throw e, w') -> w' = w.
Proof.
  intros Hlen. unfold AccessControl.removeRoles.
  destruct (AccessControl.isLocked w); [by intros [= _ <-]|].
  destruct (_ || _); [by intros [= _ <-]|].
  apply atRef_throw_clean. intros o o'.
  destruct (utils.toStringArray sv) as [|B [|? ?]] eqn:Hsv;
    [| |simpl in Hlen; lia].
  - rewrite forEachG_nil_fn. gsimp.
    destruct (g_frozen o) eqn:Hfr.
    + intros H. pose proof (ff_forEachG (AccessControl.pruneExtend [])
        (map fst (map_to_list (g_val o)))) as Hff.
      assert (forall x, frozenFrame (AccessControl.pruneExtend [] x)) as Hx.
      { intros x. unfold AccessControl.pruneExtend. repeat ff_step. }
      specialize (Hff Hx o Hfr). by rewrite H in Hff.
    + by rewrite prune_all.
  - rewrite forEachG_cons, forEachG_nil_fn. gsimp.
    destruct (negb _); [by gsimp; intros [= _ <-]|].
    destruct (g_frozen o) eqn:Hfr.
    + rewrite bind_modifyG_frozen by done. by intros [= _ <-].
    + rewrite bind_modifyG_unfrozen by done. gsimp. cbn [g_val].
      pose proof (prune_all [B]
        {| g_val := delete B (g_val o); g_frozen := false |} eq_refl) as Hp.
      cbn [g_val] in Hp. by rewrite Hp.
Qed.

Lemma oft_ret : onlyFrozenThrows (mret tt).
Proof. intros o Ho. by exists o. Qed.

Lemma oft_modifyG g : onlyFrozenThrows (modifyG g).
Proof. intros o Ho. rewrite modifyG_unfrozen by done. by eexists. Qed.

Lemma oft_getG (f : Grants -> GM unit) :
  (forall g, onlyFrozenThrows (f g)) -> onlyFrozenThrows (getG ≫= f).
Proof. intros H o Ho. rewrite bind_getG. by apply H. Qed.

Lemma oft_forEachG {A} (f : A -> GM unit) l :
  (forall x, onlyFrozenThrows (f x)) -> onlyFrozenThrows (forEachG f l).
Proof.
  intros H. induction l as [|x l IH]; [apply oft_ret|].
  intros o Ho. rewrite forEachG_cons, bindG_unfold.
  destruct (H x o Ho) as (o1 & -> & Ho1). by apply IH.
Qed.

Lemma oft_deleteKey subject res : 
  onlyFrozenThrows (AccessControl.deleteKey subject res None).
Proof.
  unfold AccessControl.deleteKey. apply oft_getG. intros g.
  destruct (default ∅ (g !! subject) !! res) as [[?|?]|];
    first [apply oft_modifyG | apply oft_ret].
Qed.

Lemma removePermission_throw resources subjects w e w' :
  AccessControl._removePermission resources subjects None w = (Throw e, w')
  -> w' = w.
Proof.
  unfold AccessControl._removePermission.
  destruct (_ || _); [by intros [= _ <-]|].
  destruct (_ && _); [by intros [= _ <-]|].
  apply atRef_throw_clean. intros o o' H.
  match type of H with ?m o = _ =>
    assert (frozenFrame m) as Hff;
    [|assert (onlyFrozenThrows m) as Hoft]
  end.
  - unfold AccessControl.deleteKey. repeat ff_step.
  - apply oft_getG. intros g. apply oft_forEachG. intros s.
    apply oft_getG. intros g'. apply oft_forEachG. intros r.
    destruct (_ && _); [|apply oft_ret].
    cbn [Js.truthy]. apply oft_deleteKey.
  - destruct (g_frozen o) eqn:Hfr.
    + specialize (Hff o Hfr). by rewrite H in Hff.
    + destruct (Hoft o Hfr) as (o1 & Ho1 & _). congruence.
Qed.

Lemma newAccess_subject_throw v denied w e w' :
  length (utils.toStringArray v) <= 1 ->
  Access.new (ASubject v) denied w = (Throw e, w') -> w' = w.
Proof.
  intros Hlen. unfold Access.new.
  assert (match Access.subject v
                  {| a_ := setDenied emptyAccess denied;
                     a_grants := _grants w |} w with
          | (Ok _, this', w'0) => (Ok this', w'0)
          | (Throw e0, _, w'0) => (Throw e0, w'0)
          end = (Throw e, w') -> w' = w) as H.
  { unfold Access.subject. cbn [a_grants].
    destruct (atRef _ _ w) as [[[]|e1] w1] eqn:Hat; [done|].
    intros [= -> <-]. revert Hat. apply atRef_throw_clean.
    intros o o'. by apply preCreateRoles_le1_throw. }
  destruct v; [done|exact H|exact H].
Qed.

(** ** The shape of reachable stores *)

Section relG.
Context (R : Grants -> Grants -> Prop).
Context (R_refl : forall g, R g g).
Context (R_trans : forall g1 g2 g3, R g1 g2 -> R g2 g3 -> R g1 g3).

Lemma rel_ret {A} (a : A) : relG R (mret a : GM A).
Proof using R_refl. intros o. apply R_refl. Qed.

Lemma rel_liftR {A} (r : Result A) : relG R (liftR r).
Proof using R_refl. intros o. apply R_refl. Qed.

Lemma rel_throwG {A} (m : Msg) : relG R (throwG m : GM A).
Proof using R_refl. intros o. apply R_refl. Qed.

Lemma rel_getG : relG R getG.
Proof using R_refl. intros o. apply R_refl. Qed.

Lemma rel_modifyG f : (forall g, R g (f g)) -> relG R (modifyG f).
Proof using R_refl.
  intros H o. unfold modifyG. destruct (g_frozen o); [apply R_refl|apply H].
Qed.

Lemma rel_bind {A B} (m : GM A) (f : A -> GM B) :
  relG R m -> (forall a, relG R (f a)) -> relG R (m ≫= f).
Proof using R_trans.
  intros Hm Hf o. rewrite bindG_unfold. specialize (Hm o).
  destruct (m o) as [[a|e] o']; simpl in *; [|done].
  eapply R_trans; [exact Hm | apply Hf].
Qed.

Lemma rel_bind_liftR {A B} (r : Result A) (f : A -> GM B) :
  (forall a, r = Ok a -> relG R (f a)) -> relG R (liftR r ≫= f).
Proof using R_refl.
  intros Hf o. destruct r as [a|e]; [|apply R_refl].
  rewrite bind_liftR_Ok. by apply Hf.
Qed.

Lemma rel_forEachG {A} (f : A -> GM unit) (l : list A) :
  (forall x, relG R (f x)) -> relG R (forEachG f l).
Proof using R_refl R_trans.
  intros Hf. induction l as [|x l IH]; [apply rel_ret|].
  rewrite forEachG_cons. apply rel_bind; [apply Hf | intros _; apply IH].
Qed.

End relG.

Lemma keepsGood_refl g : keepsGood g g.
Proof. by intros H. Qed.

Lemma keepsGood_trans g1 g2 g3 :
  keepsGood g1 g2 -> keepsGood g2 g3 -> keepsGood g1 g3.
Proof. intros H1 H2 H. by apply H2, H1. Qed.

Lemma keepsChecked_refl g : keepsChecked g g.
Proof. by split. Qed.

Lemma keepsChecked_trans g1 g2 g3 :
  keepsChecked g1 g2 -> keepsChecked g2 g3 -> keepsChecked g1 g3.
Proof.
  intros [H1 D1] [H2 D2]. split.
  - intros s k H. by apply H2, H1.
  - intros s. by rewrite D2, D1.
Qed.

Lemma validName_good name v :
  utils.validName name true = Ok v -> goodName name.
Proof.
  intros (_ & Hb & Hr)%validName_Ok. split; [done|].
  by apply includes_false.
Qed.

Lemma validName_false_good name :
  utils.validName name false = Ok true -> goodName name.
Proof.
  unfold utils.validName. destruct (Js.blank name) eqn:Hb; [done|].
  destruct (utils.includes _ _) eqn:Hr; [done|]. intros _.
  split; [done|]. by apply includes_false.
Qed.

Lemma goodStore_insert_empty g s :
  goodName s -> keepsGood g (<[s := ∅]> g).
Proof.
  intros Hs Hg s' role. destruct (decide (s = s')) as [->|Hne].
  - rewrite lookup_insert_eq. intros [= <-]. split; [done|].
    intros k e. by rewrite lookup_empty.
  - rewrite lookup_insert_ne by done. apply Hg.
Qed.

Lemma goodStore_setEntry g s k v :
  entryOK k v -> keepsGood g (utilsW.setEntry s k v g).
Proof.
  intros Hv Hg s' role. unfold utilsW.setEntry.
  destruct (decide (s = s')) as [->|Hne].
  - rewrite lookup_alter_eq. destruct (g !! s') as [role0|] eqn:H0; [|done].
    simpl. intros [= <-]. destruct (Hg s' role0 H0) as [Hn Hk].
    split; [done|]. intros k' e. destruct (decide (k = k')) as [->|Hne].
    + rewrite lookup_insert_eq. by intros [= <-].
    + rewrite lookup_insert_ne by done. apply Hk.
  - rewrite lookup_alter_ne by done. apply Hg.
Qed.

Lemma goodStore_delete g s : keepsGood g (delete s g).
Proof.
  intros Hg s' role. destruct (decide (s = s')) as [->|Hne].
  - by rewrite lookup_delete_eq.
  - rewrite lookup_delete_ne by done. apply Hg.
Qed.

Lemma goodStore_delete_key g s k :
  keepsGood g (alter (fun role : gmap string Entry => delete k role) s g).
Proof.
  intros Hg s' role. destruct (decide (s = s')) as [->|Hne].
  - rewrite lookup_alter_eq. destruct (g !! s') as [role0|] eqn:H0; [|done].
    simpl. intros [= <-]. destruct (Hg s' role0 H0) as [Hn Hk].
    split; [done|]. intros k' e. destruct (decide (k = k')) as [->|Hne].
    + by rewrite lookup_delete_eq.
    + rewrite lookup_delete_ne by done. apply Hk.
  - rewrite lookup_alter_ne by done. apply Hg.
Qed.

Ltac good_step :=
  match goal with
  | |- relG keepsGood (mret _) => apply rel_ret, keepsGood_refl
  | |- relG keepsGood (liftR _) => apply rel_liftR, keepsGood_refl
  | |- relG keepsGood (throwG _) => apply rel_throwG, keepsGood_refl
  | |- relG keepsGood getG => apply rel_getG, keepsGood_refl
  | |- relG keepsGood (forEachG _ _) =>
      apply (rel_forEachG _ keepsGood_refl keepsGood_trans); intros ?
  | |- relG keepsGood (liftR _ ≫= _) =>
      apply (rel_bind_liftR _ keepsGood_refl); intros ? ?
  | |- relG keepsGood (_ ≫= _) =>
      apply (rel_bind _ keepsGood_trans); [|intros ?]
  | |- relG keepsGood (if ?b then _ else _) => destruct b
  | |- relG keepsGood (match ?x with _ => _ end) => destruct x
  | |- relG keepsGood (modifyG _) =>
      apply (rel_modifyG _ keepsGood_refl); intros ?
  end.

Lemma good_preCreateRoles subjects :
  relG keepsGood (utilsW.preCreateRoles subjects).
Proof.
  unfold utilsW.preCreateRoles. repeat good_step.
  all: apply goodStore_insert_empty; by eapply validName_good.
Qed.

Lemma good_commitToGrants access normalizeAll :
  relG keepsGood (utilsW.commitToGrants access normalizeAll).
Proof.
  unfold utilsW.commitToGrants. repeat good_step.
  all: first [ apply goodStore_insert_empty; by eapply validName_good
             | apply goodStore_setEntry; simpl; by eapply validName_good ].
Qed.

Lemma good_extendRole depth subjects extenderRoles replace :
  relG keepsGood (utilsW.extendRole depth subjects extenderRoles replace).
Proof.
  unfold utilsW.extendRole. repeat good_step.
  all: by apply goodStore_setEntry.
Qed.

Lemma good_pruneExtend rem s : relG keepsGood (AccessControl.pruneExtend rem s).
Proof.
  unfold AccessControl.pruneExtend. repeat good_step.
  by apply goodStore_setEntry.
Qed.

Lemma good_deleteKey s r ap : relG keepsGood (AccessControl.deleteKey s r ap).
Proof.
  intros o. unfold AccessControl.deleteKey. rewrite bind_getG.
  destruct (default ∅ (g_val o !! s) !! r) as [e|] eqn:Hr;
    [|destruct ap; apply keepsGood_refl].
  assert (Hdel : keepsGood (g_val o)
            (g_val (modifyG (alter (fun role : gmap string Entry =>
                                      delete r role) s) o).2)).
  { apply (rel_modifyG _ keepsGood_refl). intros g. apply goodStore_delete_key. }
  destruct e as [l|d], ap as [ap|]; try done; try apply keepsGood_refl.
  destruct (utils.has d ap); [|apply keepsGood_refl].
  unfold modifyG. destruct (g_frozen o); [apply keepsGood_refl|]. simpl.
  intros Hg. apply goodStore_setEntry; [|done]. simpl.
  destruct (g_val o !! s) as [role|] eqn:Hs;
    [|simpl in Hr; by rewrite lookup_empty in Hr].
  simpl in Hr. destruct (Hg s role Hs) as [_ Hk]. apply (Hk r _ Hr).
Qed.

Lemma atRef_good {A} (l : nat) (m : GM A) (w : World) :
  relG keepsGood m -> goodWorld w -> goodWorld (atRef l m w).2.
Proof.
  intros Hm Hw. unfold atRef. destruct (heap w !! l) as [o|] eqn:Hl; [|done].
  specialize (Hm o). destruct (m o) as [r o']. simpl in *.
  intros l' o'' Hl'. cbn [snd heap] in Hl'.
  destruct (decide (l = l')) as [->|Hne].
  - rewrite list_lookup_insert_eq in Hl' by (by eapply lookup_lt_Some).
    simplify_eq. apply Hm. by eapply Hw.
  - rewrite list_lookup_insert_ne in Hl' by done. by eapply Hw.
Qed.

Lemma newGrants_good g w :
  goodStore g -> goodWorld w -> goodWorld (newGrants g w).2.
Proof.
  intros Hg Hw l o. unfold newGrants. simpl.
  intros [Hl|[_ Hl]]%lookup_app_Some; [by eapply Hw|].
  apply list_lookup_singleton_Some in Hl as [_ <-]. done.
Qed.

Lemma lockAC_good w : goodWorld w -> goodWorld (lockAC w).2.
Proof.
  intros Hw. unfold lockAC. destruct (bool_decide _); [done|].
  intros l o. cbn [snd heap]. destruct (_ && _); [apply Hw|].
  destruct (decide (_grants w = l)) as [<-|Hne].
  - rewrite list_lookup_alter_eq.
    destruct (heap w !! _grants w) as [o0|] eqn:H0; [|done].
    simpl. intros [= <-]. simpl. by eapply Hw.
  - rewrite list_lookup_alter_ne by done. apply Hw.
Qed.

Lemma goodStore_empty : goodStore ∅.
Proof. intros s role. by rewrite lookup_empty. Qed.

Lemma goodWorld_store w : goodWorld w -> goodStore (store w).
Proof.
  intros Hw. unfold store.
  destruct (heap w !! _grants w) as [o|] eqn:Hl; simpl.
  - by eapply Hw.
  - apply goodStore_empty.
Qed.

Lemma keepsChecked_setExtend g s l :
  keepsChecked g (utilsW.setEntry s "_extend_" (EArr l) g).
Proof.
  unfold utilsW.setEntry. split.
  - intros s' k' H role e. destruct (decide (s = s')) as [->|Hne].
    + rewrite lookup_alter_eq. destruct (g !! s') as [role0|] eqn:H0; [|done].
      simpl. intros [= <-]. destruct (decide ("_extend_" = k')) as [<-|Hk].
      * rewrite lookup_insert_eq. by intros [= <-].
      * rewrite lookup_insert_ne by done. by apply H.
    + rewrite lookup_alter_ne by done. apply H.
  - intros s'. destruct (decide (s = s')) as [->|Hne].
    + rewrite lookup_alter_eq. by rewrite fmap_is_Some.
    + by rewrite lookup_alter_ne.
Qed.

Ltac checked_step :=
  match goal with
  | |- relG keepsChecked (mret _) => apply rel_ret, keepsChecked_refl
  | |- relG keepsChecked (liftR _) => apply rel_liftR, keepsChecked_refl
  | |- relG keepsChecked (throwG _) => apply rel_throwG, keepsChecked_refl
  | |- relG keepsChecked (forEachG _ _) =>
      apply (rel_forEachG _ keepsChecked_refl keepsChecked_trans); intros ?
  | |- relG keepsChecked (_ ≫= _) =>
      apply (rel_bind _ keepsChecked_trans); [|intros ?]
  | |- relG keepsChecked getG => apply rel_getG, keepsChecked_refl
  | |- relG keepsChecked (if ?b then _ else _) => destruct b
  | |- relG keepsChecked (match ?x with _ => _ end) => destruct x
  | |- relG keepsChecked (modifyG _) =>
      apply (rel_modifyG _ keepsChecked_refl); intros ?
  end.

Lemma checked_extendRole depth subjects extenderRoles replace :
  relG keepsChecked (utilsW.extendRole depth subjects extenderRoles replace).
Proof.
  unfold utilsW.extendRole. repeat checked_step.
  all: apply keepsChecked_setExtend.
Qed.

Lemma okAt_lookup g s k e :
  default ∅ (g !! s) !! k = Some e -> entryOK k e -> okAt g s k.
Proof.
  intros He Hok role e' Hs Hk. rewrite Hs in He. simpl in He. congruence.
Qed.

Lemma validResourceObject_Ok e v :
  utils.validResourceObject e = Ok v -> exists o, e = EObj o.
Proof. destruct e; [done|]. by eexists. Qed.

(** One key of a role passes the inspection. *)
Lemma validRoleObject_key depth s k o o' :
  (v ← liftR (utils.validName k false);
   grants ← getG;
   let subject := default ∅ (grants !! s) in
   if negb v then
     if bool_decide (k = "_extend_") then
       match subject !! k with
       | Some (EArr extRoles) =>
           if negb (utils.isFilledStringArray extRoles)
           then throwG (InvalidExtendValue s)
           else utilsW.extendRole depth (Str s) (Arr extRoles) false
       | _ => throwG (InvalidExtendValue s)
       end
     else throwG (ReservedResourceName k)
   else
     match subject !! k with
     | Some e => _ ← liftR (utils.validResourceObject e); mret tt
     | None => throwG InvalidResourceDefinition
     end) o = (Ok tt, o') ->
  keepsChecked (g_val o) (g_val o') /\ okAt (g_val o') s k.
Proof.
  destruct (utils.validName k false) as [v|err] eqn:Hv;
    [rewrite bind_liftR_Ok | by rewrite bind_liftR_Throw].
  rewrite bind_getG. cbv zeta.
  destruct v; cbn [negb].
  - destruct (default ∅ (g_val o !! s) !! k) as [e|] eqn:He; [|done].
    destruct (utils.validResourceObject e) as [b|err] eqn:Hr;
      [rewrite bind_liftR_Ok | by rewrite bind_liftR_Throw].
    intros [= <-]. split; [apply keepsChecked_refl|].
    apply validResourceObject_Ok in Hr as [d ->].
    eapply okAt_lookup; [done|]. by apply validName_false_good.
  - case_bool_decide as Hk; [|done].
    destruct (default ∅ (g_val o !! s) !! k) as [[ext|d]|] eqn:He; try done.
    destruct (utils.isFilledStringArray ext); [|done]. cbn [negb].
    intros Hx.
    pose proof (checked_extendRole depth (Str s) (Arr ext) false o) as Hc.
    rewrite Hx in Hc. simpl in Hc. split; [done|].
    apply Hc. by eapply okAt_lookup.
Qed.

Lemma forEachG_checked {A} (f : A -> GM unit) (P : Grants -> A -> Prop) l :
  (forall x o o', f x o = (Ok tt, o') ->
     keepsChecked (g_val o) (g_val o') /\ P (g_val o') x) ->
  (forall x g g', keepsChecked g g' -> P g x -> P g' x) ->
  forall o o', forEachG f l o = (Ok tt, o') ->
    keepsChecked (g_val o) (g_val o') /\ forall x, x ∈ l -> P (g_val o') x.
Proof.
  intros Hf HP. induction l as [|x l IH]; intros o o'.
  - intros [= <-]. split; [apply keepsChecked_refl|]. by intros x ?%elem_of_nil.
  - rewrite forEachG_cons, bindG_unfold.
    destruct (f x o) as [[[]|err] o1] eqn:Hx; [|done]. intros Hl.
    destruct (Hf _ _ _ Hx) as [Hc1 HP1]. destruct (IH _ _ Hl) as [Hc2 HP2].
    split; [by eapply keepsChecked_trans|].
    intros y [->|Hy]%elem_of_cons; [by eapply HP|by apply HP2].
Qed.

Lemma validRoleObject_Ok depth s o v o' :
  utilsW.validRoleObject depth s o = (Ok v, o') ->
  keepsChecked (g_val o) (g_val o') /\ forall k, okAt (g_val o') s k.
Proof.
  unfold utilsW.validRoleObject. rewrite bind_getG.
  destruct (g_val o !! s) as [role|] eqn:Hs; [|done].
  rewrite bindG_unfold.
  match goal with |- context [forEachG ?f ?l o] =>
    destruct (forEachG f l o) as [[[]|err] o1] eqn:Hl; [|done];
    apply (forEachG_checked f (fun g k => okAt g s k)) in Hl
  end.
  - intros [= <- <-]. destruct Hl as [Hc Hk]. split; [done|]. intros k.
    destruct (role !! k) as [e|] eqn:He.
    + apply Hk. apply list_elem_of_fmap. exists (k, e). split; [done|].
      by apply elem_of_map_to_list.
    + apply Hc. intros role' e' Hs' He'. congruence.
  - intros k o0 o0'. apply validRoleObject_key.
  - intros k g g' [Hc _]. apply Hc.
Qed.

Lemma getInspectedGrants_good depth input g :
  utilsW.getInspectedGrants depth input = Ok g -> goodStore g.
Proof.
  destruct input as [g0|items|]; [| |done]; unfold utilsW.getInspectedGrants.
  - match goal with |- context [forEachG ?f ?l ?o] =>
      destruct (forEachG f l o) as [[[]|err] o1] eqn:Hl; [|done];
      apply (forEachG_checked f
               (fun g s => goodName s /\ forall k, okAt g s k)) in Hl
    end.
    + simpl. intros [= <-]. destruct Hl as [[_ Hd] Hs]. simpl in *.
      intros s role Hrole.
      assert (Hin : s ∈ map fst (map_to_list g0)).
      { destruct (proj1 (Hd s)) as [role0 H0]; [by eexists|].
        apply list_elem_of_fmap. exists (s, role0). split; [done|].
        by apply elem_of_map_to_list. }
      destruct (Hs s Hin) as [Hn Hk]. split; [done|].
      intros k e He. by eapply Hk.
    + intros s o o'.
      destruct (utils.validName s true) as [v|err] eqn:Hv;
        [rewrite bind_liftR_Ok | by rewrite bind_liftR_Throw].
      rewrite bindG_unfold.
      destruct (utilsW.validRoleObject depth s o) as [[b|err] o2] eqn:Hr;
        [|done].
      intros [= <-]. apply validRoleObject_Ok in Hr as [Hc Hk].
      split; [done|]. split; [by eapply validName_good|done].
    + intros s g1 g2 [Hc _] [Hn Hk]. split; [done|]. intros k. apply Hc, Hk.
  - pose proof (rel_forEachG keepsGood keepsGood_refl keepsGood_trans
                  (fun item => utilsW.commitToGrants item true) items
                  (fun item => good_commitToGrants item true)
                  {| g_val := ∅; g_frozen := false |}) as H.
    destruct (forEachG _ _ _) as [[[]|err] o1]; [|done].
    simpl in *. intros [= <-]. apply H, goodStore_empty.
Qed.

Lemma newAccess_good subject denied w :
  goodWorld w -> goodWorld (Access.new subject denied w).2.
Proof.
  intros Hw. unfold Access.new, Access.subject.
  destruct subject as [[|s|l]|info]; try done.
  - pose proof (atRef_good (_grants w) (utilsW.preCreateRoles (Str s)) w
                  (good_preCreateRoles _) Hw) as H.
    cbn [a_grants]. by destruct (atRef _ _ w) as [[?|?] ?].
  - pose proof (atRef_good (_grants w) (utilsW.preCreateRoles (Arr l)) w
                  (good_preCreateRoles _) Hw) as H.
    cbn [a_grants]. by destruct (atRef _ _ w) as [[?|?] ?].
  - destruct (noKeys info); [done|]. destruct (utils.isInfoFulfilled _); [|done].
    cbn [a_grants].
    match goal with |- context [atRef ?l ?m w] =>
      pose proof (atRef_good l m w (good_commitToGrants _ _) Hw) as H;
      by destruct (atRef l m w) as [[?|?] ?]
    end.
Qed.

Lemma runMutator_good depth m w :
  goodWorld w -> goodWorld (runMutator depth m w).2.
Proof.
  intros Hw. destruct m; simpl.
  - unfold AccessControl.setGrants. destruct (AccessControl.isLocked w); [done|].
    destruct (utilsW.getInspectedGrants depth grantsObject) as [g|err] eqn:Hg;
      [|done].
    apply newGrants_good; [by eapply getInspectedGrants_good|done].
  - unfold AccessControl.reset. destruct (AccessControl.isLocked w); [done|].
    apply newGrants_good; [apply goodStore_empty|done].
  - unfold AccessControl.extendRole.
    destruct (AccessControl.isLocked w); [done|].
    apply atRef_good; [apply good_extendRole|done].
  - unfold AccessControl.removeRoles.
    destruct (AccessControl.isLocked w); [done|].
    destruct (_ || _); [done|]. apply atRef_good; [|done].
    repeat good_step; try apply goodStore_delete. apply good_pruneExtend.
  - unfold AccessControl.removeResources, AccessControl._removePermission.
    destruct (AccessControl.isLocked w); [done|].
    destruct (_ || _); [done|]. destruct (_ && _); [done|].
    apply atRef_good; [|done].
    repeat first [apply good_deleteKey | good_step].
  - unfold AccessControl.grant. destruct (AccessControl.isLocked w); [done|].
    pose proof (newAccess_good subject false w Hw) as H.
    by destruct (Access.new subject false w).
  - unfold AccessControl.deny. destruct (AccessControl.isLocked w); [done|].
    pose proof (newAccess_good subject true w Hw) as H.
    by destruct (Access.new subject true w).
Qed.

Lemma runBuilder_good depth c this w :
  goodWorld w -> goodWorld (runBuilder depth c this w).
Proof.
  intros Hw. destruct c; simpl.
  - unfold Access.subject.
    pose proof (atRef_good (a_grants this) (utilsW.preCreateRoles value) w
                  (good_preCreateRoles _) Hw) as H.
    by destruct (atRef _ _ w) as [[?|?] ?].
  - unfold Access.resource. by destruct (utils.hasValidNames _ _).
  - done.
  - unfold Access.extend.
    match goal with |- context [atRef ?l ?m w] =>
      pose proof (atRef_good l m w (good_extendRole _ _ _ _) Hw) as H;
      by destruct (atRef l m w) as [? ?]
    end.
  - unfold Access.grant. pose proof (newAccess_good subjectOrInfo false w Hw).
    by destruct (Access.new subjectOrInfo false w) as [[?|?] ?].
  - unfold Access.deny. pose proof (newAccess_good subjectOrInfo true w Hw).
    by destruct (Access.new subjectOrInfo true w) as [[?|?] ?].
  - unfold Access.lock. pose proof (lockAC_good w Hw).
    by destruct (lockAC w).
  - unfold Access._prepareAndCommit.
    match goal with |- context [atRef ?l ?m w] =>
      pose proof (atRef_good l m w (good_commitToGrants _ _) Hw) as H;
      by destruct (atRef l m w) as [[?|?] ?]
    end.
Qed.

Lemma step_good depth w w' : step depth w w' -> goodWorld w -> goodWorld w'.
Proof.
  intros [m w0|w0|c this w0 _] Hw.
  - by apply runMutator_good.
  - by apply lockAC_good.
  - by apply runBuilder_good.
Qed.

Lemma new_good depth grants : goodWorld (AccessControl.new depth grants).2.
Proof.
  unfold AccessControl.new, AccessControl.setGrants.
  assert (H0 : goodWorld {| heap := []; _grants := 0; _isLocked := false |}).
  { by intros l o. }
  destruct (AccessControl.isLocked _); [done|].
  destruct (utilsW.getInspectedGrants depth grants) as [g|err] eqn:Hg; [|done].
  apply newGrants_good; [by eapply getInspectedGrants_good|done].
Qed.

Lemma reachable_good depth w : reachable depth w -> goodWorld w.
Proof.
  intros [grants Hr].
  eapply (rtc_ind_r (fun w => goodWorld w)); [| |exact Hr].
  - apply new_good.
  - intros y z _ Hs Hy. by eapply step_good.
Qed.

Lemma goodName_validName name :
  goodName name -> utils.validName name false = Ok true.
Proof.
  intros [Hb Hr]. unfold utils.validName. rewrite Hb.
  by rewrite (proj2 (includes_false _ _) Hr).
Qed.

Lemma reachable_worldAdmin : reachable 8 worldAdmin.
Proof.
  exists (GObject ∅).
  assert (Hw : worldAdmin
    = runBuilder 8 (BCommit (Some "create") (Some "any") (Str "profile")
                      Undefined)
        {| a_ := setSubject emptyAccess (Str "admin"); a_grants := 0 |}
        (runMutator 8 (MGrant (ASubject (Str "admin"))) world0).2)
    by (vm_compute; reflexivity).
  rewrite Hw. eapply rtc_l; [apply step_mutator|].
  eapply rtc_l; [|apply rtc_refl].
  apply step_builder. vm_compute. lia.
Qed.

(** ** A flat list and its nested mapping *)

Lemma setEntry_insert s k v (g : Grants) role :
  g !! s = Some role -> utilsW.setEntry s k v g = <[s := <[k := v]> role]> g.
Proof.
  intros H. apply map_eq. intros s'. destruct (decide (s = s')) as [<-|Hne].
  - by rewrite (setEntry_lookup _ _ _ _ _ H), lookup_insert_eq.
  - by rewrite setEntry_lookup_ne, lookup_insert_ne.
Qed.

Lemma grantOf_is_Some s r ap attrs g : is_Some (grantOf s r ap attrs g !! s).
Proof. unfold grantOf. rewrite lookup_insert_eq. by eexists. Qed.

(** One resource of one subject in [commitToGrants]. *)
Lemma commit_resource s ap attrs r o o' :
  g_frozen o = false -> is_Some (g_val o !! s) ->
  (_ ← liftR (utils.validName r true);
   grants ← getG;
   let grantItem := default ∅ (grants !! s) in
   _ ← (if negb (utils.has grantItem r)
        then modifyG (utilsW.setEntry s r (EObj ∅)) else mret tt);
   grants ← getG;
   match default ∅ (grants !! s) !! r with
   | Some (EObj d) =>
       modifyG (utilsW.setEntry s r (EObj (<[ap := attrs]> d)))
   | _ => liftR (Throw TypeError)
   end) o = (Ok tt, o') ->
  g_val o' = grantOf s r ap attrs (g_val o)
  /\ g_frozen o' = false /\ is_Some (g_val o' !! s).
Proof.
  intros Hf [role Hs].
  destruct (utils.validName r true) as [v|err];
    [rewrite bind_liftR_Ok | by rewrite bind_liftR_Throw].
  rewrite bind_getG. cbv zeta. rewrite Hs. cbn [from_option id].
  assert (Hgo : forall e (g : Grants) (ro : Role),
            g !! s = Some ro -> ro !! r = Some e ->
            forall o1, g_val o1 = g -> g_frozen o1 = false ->
            (grants ← getG;
             match default ∅ (grants !! s) !! r with
             | Some (EObj d) =>
                 modifyG (utilsW.setEntry s r (EObj (<[ap := attrs]> d)))
             | _ => liftR (Throw TypeError)
             end) o1 = (Ok tt, o') ->
            g_val o' = <[s := <[r := EObj (<[ap := attrs]>
                          match e with EObj d => d | _ => ∅ end)]> ro]> g
            /\ g_frozen o' = false).
  { intros e g ro Hg Hro o1 <- Hf1. rewrite bind_getG, Hg. cbn [from_option id].
    rewrite Hro. destruct e as [l|d]; [done|].
    rewrite modifyG_unfrozen by done. intros [= <-]. simpl.
    by rewrite (setEntry_insert _ _ _ _ _ Hg). }
  destruct (utils.has role r) eqn:Hh; cbn [negb].
  - rewrite bind_ret. apply has_true in Hh as [e He]. intros Hrun.
    destruct (Hgo e _ _ Hs He o eq_refl Hf Hrun) as [Hv Hfr].
    split; [|split; [done|]].
    + rewrite Hv. unfold grantOf. rewrite Hs. cbn [from_option id]. rewrite He.
      by destruct e.
    + rewrite Hv, lookup_insert_eq. by eexists.
  - rewrite bind_modifyG_unfrozen by done. apply has_false in Hh. intros Hrun.
    eapply (Hgo (EObj ∅)) in Hrun as [Hv Hfr];
      [|by apply setEntry_lookup|by rewrite lookup_insert_eq|done..].
    split; [|split; [done|]].
    + rewrite Hv. unfold grantOf. rewrite Hs. cbn [from_option id]. rewrite Hh.
      rewrite (setEntry_insert _ _ _ _ _ Hs).
      by rewrite !insert_insert_eq.
    + rewrite Hv, lookup_insert_eq. by eexists.
Qed.

Lemma forEachG_fold {A} (f : A -> GM unit) (h : Grants -> A -> Grants)
    (I : Grants -> Prop) l :
  (forall x o o', g_frozen o = false -> I (g_val o) ->
     f x o = (Ok tt, o') ->
     g_val o' = h (g_val o) x /\ g_frozen o' = false /\ I (g_val o')) ->
  forall o o', g_frozen o = false -> I (g_val o) ->
    forEachG f l o = (Ok tt, o') ->
    g_val o' = foldl h (g_val o) l /\ g_frozen o' = false /\ I (g_val o').
Proof.
  intros Hf. induction l as [|x l IH]; intros o o' Hfr HI.
  - by intros [= <-].
  - rewrite forEachG_cons, bindG_unfold.
    destruct (f x o) as [[[]|err] o1] eqn:Hx; [|done]. intros Hl.
    destruct (Hf _ _ _ Hfr HI Hx) as (Hv & Hfr1 & HI1).
    destruct (IH _ _ Hfr1 HI1 Hl) as (Hv' & Hfr' & HI').
    split; [|done]. simpl. by rewrite <- Hv.
Qed.

Lemma grantOf_fresh s r ap attrs (g : Grants) :
  g !! s = None -> grantOf s r ap attrs (<[s := ∅]> g) = grantOf s r ap attrs g.
Proof.
  intros H. unfold grantOf. rewrite lookup_insert_eq, H. cbn [from_option id].
  by rewrite insert_insert_eq.
Qed.

Lemma commitToGrants_Ok item o o' :
  g_frozen o = false ->
  utilsW.commitToGrants item true o = (Ok tt, o') ->
  g_val o' = nestedOfRecord (g_val o) item /\ g_frozen o' = false.
Proof.
  intros Hfr. unfold utilsW.commitToGrants, nestedOfRecord.
  destruct (utils.normalizeAccessInfo item true) as [access|err] eqn:Hn;
    [rewrite bind_liftR_Ok | by rewrite bind_liftR_Throw].
  apply normalizeAccessInfo_Ok in Hn
    as (s0 & ss & r0 & rs & attrs & _ & _ & Hs & Hr & Ha & _).
  rewrite Hs, Hr, Ha. cbn [utils.toStringArray]. intros Hrun.
  eapply (forEachG_fold _ _ (fun _ => True)) in Hrun as (Hv & Hf' & _);
    [done| |done..].
  clear. intros s o o' Hfr _.
  destruct (utils.validName s true) as [v|err];
    [rewrite bind_liftR_Ok | by rewrite bind_liftR_Throw].
  rewrite bind_getG.
  set (body := fun res : string => _).
  intros Hrun.
  assert (Hloop : forall o1, g_frozen o1 = false -> is_Some (g_val o1 !! s) ->
            forEachG body (r0 :: rs) o1 = (Ok tt, o') ->
            g_val o' = foldl (fun g resource =>
                                grantOf s resource
                                  (Js.str (ai_action access) +:+ ":"
                                   +:+ Js.str (ai_possession access))
                                  attrs g) (g_val o1) (r0 :: rs)
            /\ g_frozen o' = false).
  { intros o1 Hf1 Hs1 Hl.
    eapply (forEachG_fold body _ (fun g => is_Some (g !! s))) in Hl
      as (Hv & Hf' & _); [done| |done..].
    intros r o2 o2' Hf2 Hs2. subst body. cbv beta. apply commit_resource; done. }
  destruct (utils.has (g_val o) s) eqn:Hh; cbn [negb] in Hrun.
  - rewrite bind_ret in Hrun. apply has_true in Hh.
    destruct (Hloop o Hfr Hh Hrun) as [Hv Hf']. done.
  - rewrite bind_modifyG_unfrozen in Hrun by done. apply has_false in Hh.
    apply Hloop in Hrun as [Hv Hf']; [|done|simpl; by rewrite lookup_insert_eq].
    split; [|done]. rewrite Hv. simpl. by rewrite grantOf_fresh.
Qed.

Lemma flat_load_nestedOf depth items g :
  utilsW.getInspectedGrants depth (GArray items) = Ok g -> g = nestedOf items.
Proof.
  unfold utilsW.getInspectedGrants.
  destruct (forEachG _ _ _) as [[[]|err] o1] eqn:Hl; [|done].
  simpl. intros [= <-].
  eapply (forEachG_fold _ nestedOfRecord (fun _ => True)) in Hl
    as (Hv & _); [done| |done..].
  intros item o o' Hfr _ Hc. by apply commitToGrants_Ok in Hc as [? ?].
Qed.

Lemma allObj_grantOf s r ap attrs g : allObj g -> allObj (grantOf s r ap attrs g).
Proof.
  intros Hg s' role k e. unfold grantOf.
  destruct (decide (s = s')) as [<-|Hne].
  - rewrite lookup_insert_eq. intros [= <-].
    destruct (decide (r = k)) as [<-|Hk].
    + rewrite lookup_insert_eq. intros [= <-]. by eexists.
    + rewrite lookup_insert_ne by done.
      destruct (g !! s) as [role|] eqn:Hs; cbn [from_option id].
      * by apply (Hg s role).
      * by rewrite lookup_empty.
  - rewrite lookup_insert_ne by done. apply Hg.
Qed.

Lemma allObj_foldl {A} (h : Grants -> A -> Grants) l :
  (forall g x, allObj g -> allObj (h g x)) ->
  forall g, allObj g -> allObj (foldl h g l).
Proof.
  intros Hh. induction l as [|x l IH]; intros g Hg; [done|].
  simpl. by apply IH, Hh.
Qed.

Lemma allObj_nestedOf items : allObj (nestedOf items).
Proof.
  unfold nestedOf. apply allObj_foldl.
  - intros g item Hg. unfold nestedOfRecord.
    destruct (utils.normalizeAccessInfo item true); [|done].
    apply allObj_foldl; [|done]. intros g1 s Hg1.
    apply allObj_foldl; [|done]. intros g2 r Hg2. by apply allObj_grantOf.
  - intros s role k e. by rewrite lookup_empty.
Qed.

Lemma forEachG_keeps {A} (f : A -> GM unit) l o :
  (forall x, (f x o).2 = o) -> (forEachG f l o).2 = o.
Proof.
  intros Hf. induction l as [|x l IH]; [done|].
  rewrite forEachG_cons, bindG_unfold. specialize (Hf x).
  destruct (f x o) as [[[]|err] o1]; simpl in Hf; by subst o1.
Qed.

(** The inspection of a role without an inheritance list writes nothing. *)
Lemma validRoleObject_allObj depth s o :
  allObj (g_val o) -> (utilsW.validRoleObject depth s o).2 = o.
Proof.
  intros Ho. unfold utilsW.validRoleObject. rewrite bind_getG.
  destruct (g_val o !! s) as [role|] eqn:Hs; [|done].
  rewrite bindG_unfold.
  match goal with |- context [forEachG ?f ?l o] =>
    pose proof (forEachG_keeps f l o) as Hk;
    destruct (forEachG f l o) as [[[]|err] o1]
  end; simpl in *; apply Hk; clear Hk.
  all: intros k;
    (destruct (utils.validName k false) as [v|err'];
       [rewrite bind_liftR_Ok | by rewrite bind_liftR_Throw]);
    rewrite bind_getG; cbv zeta; rewrite Hs; cbn [from_option id];
    destruct v; cbn [negb];
    [ destruct (role !! k) as [e|]; [|done];
      by destruct (utils.validResourceObject e)
    | case_bool_decide; [|done];
      destruct (role !! k) as [[l|d]|] eqn:Hk; try done;
      by destruct (Ho s role k (EArr l) Hs Hk) ].
Qed.

Lemma nested_load_allObj depth (input g : Grants) :
  allObj input ->
  utilsW.getInspectedGrants depth (GObject input) = Ok g -> g = input.
Proof.
  intros Hin. unfold utilsW.getInspectedGrants.
  match goal with |- context [forEachG ?f ?l ?o] =>
    pose proof (forEachG_keeps f l o) as Hk;
    destruct (forEachG f l o) as [[[]|err] o1]; [|done]
  end.
  simpl. intros [= <-]. simpl in Hk. rewrite Hk; [done|].
  intros s.
  destruct (utils.validName s true) as [v|err];
    [rewrite bind_liftR_Ok | by rewrite bind_liftR_Throw].
  rewrite bindG_unfold.
  pose proof (validRoleObject_allObj depth s
                {| g_val := input; g_frozen := false |} Hin) as Hv.
  by destruct (utilsW.validRoleObject _ _ _) as [[b|err] o2].
Qed.

Lemma setGrants_Ok depth input w w' :
  AccessControl.setGrants depth input w = (Ok tt, w') ->
  exists g, utilsW.getInspectedGrants depth input = Ok g
            /\ w' = (newGrants g w).2.
Proof.
  unfold AccessControl.setGrants. destruct (AccessControl.isLocked w); [done|].
  destruct (utilsW.getInspectedGrants depth input) as [g|err]; [|done].
  intros [= <-]. by exists g.
Qed.

Lemma newGrants_lookup g w :
  heap (newGrants g w).2 !! _grants (newGrants g w).2
  = Some {| g_val := g; g_frozen := false |}.
Proof.
  unfold newGrants. simpl. rewrite lookup_app_r by done.
  by rewrite Nat.sub_diag.
Qed.

(** ** More on the role hierarchy *)

Lemma uniqConcat_prefix arrA arrB :
  exists rest, utils.uniqConcat arrA arrB = arrA ++ rest.
Proof.
  unfold utils.uniqConcat. revert arrA.
  induction arrB as [|b arrB IH]; intros arrA; simpl.
  - exists []. by rewrite app_nil_r.
  - destruct (IH (utils.pushUniq arrA b)) as [rest Hrest].
    unfold utils.pushUniq in *. destruct (utils.includes arrA b).
    + by exists rest.
    + exists (b :: rest). rewrite Hrest. by rewrite <- app_assoc.
Qed.

Lemma uniqConcat_NoDup arrA arrB :
  NoDup arrA -> NoDup (utils.uniqConcat arrA arrB).
Proof.
  unfold utils.uniqConcat. revert arrA.
  induction arrB as [|b arrB IH]; intros arrA HA; simpl; [done|].
  apply IH. unfold utils.pushUniq.
  destruct (utils.includes arrA b) eqn:Hb; [done|].
  apply NoDup_app. split; [done|]. split; [|apply NoDup_singleton].
  intros x Hx ->%list_elem_of_singleton. by apply includes_false in Hb.
Qed.

(** The loop of [getRoleHierarchyOf] appends to the list, keeps it free of
    duplicates and adds nothing but what the extenders resolve to. *)
Lemma hierarchy_loop_shape (F : string -> Result (list string))
    (G : string -> option Error) ext arr l :
  forEachR (fun arr exRoleName =>
    match G exRoleName with
    | Some e => Throw e
    | None => ext ← F exRoleName; Ok (utils.uniqConcat arr ext)
    end) ext arr = Ok l ->
  (exists rest, l = arr ++ rest)
  /\ (NoDup arr -> NoDup l)
  /\ (forall x, x ∈ l ->
        x ∈ arr \/ exists e le, e ∈ ext /\ G e = None /\ F e = Ok le /\ x ∈ le).
Proof.
  revert arr. induction ext as [|e ext IH]; intros arr; simpl.
  - intros [= <-]. split; [exists []; by rewrite app_nil_r|].
    split; [done|]. by left.
  - destruct (G e) eqn:HG; [done|]. destruct (F e) as [le|] eqn:HF; [|done].
    simpl. intros H. destruct (IH _ H) as ([rest Hrest] & Hnd & Hup).
    destruct (uniqConcat_prefix arr le) as [r1 Hr1].
    split; [|split].
    + exists (r1 ++ rest). by rewrite Hrest, Hr1, <- app_assoc.
    + intros Ha. by apply Hnd, uniqConcat_NoDup.
    + intros x Hx. destruct (Hup x Hx) as [Hx'|(e' & le' & He' & ? & ? & ?)].
      * apply elem_of_uniqConcat in Hx' as [?|?]; [by left|].
        right. exists e, le. split; [by left|done].
      * right. exists e', le'. split; [by right|done].
Qed.

Lemma getRoleHierarchyOf_shape depth grants subjectName rootRole l :
  utils.getRoleHierarchyOf depth grants subjectName rootRole = Ok l ->
  (exists rest, l = subjectName :: rest) /\ NoDup l.
Proof.
  rewrite getRoleHierarchyOf_unfold.
  destruct (grants !! subjectName) as [subject|]; [|done].
  destruct (utils.extendOf subject) as [[|x ext]|].
  - intros [= <-]. split; [by exists []|apply NoDup_singleton].
  - intros H. apply hierarchy_loop_shape in H as ([rest ->] & Hnd & _).
    split; [by exists rest|]. apply Hnd, NoDup_singleton.
  - intros [= <-]. split; [by exists []|apply NoDup_singleton].
Qed.

Lemma getRoleHierarchyOf_exist depth grants subjectName rootRole l :
  utils.getRoleHierarchyOf depth grants subjectName rootRole = Ok l ->
  forall x, x ∈ l -> is_Some (grants !! x).
Proof.
  revert subjectName rootRole l.
  induction depth as [|depth IH]; intros subjectName rootRole l;
    rewrite getRoleHierarchyOf_unfold;
    destruct (grants !! subjectName) as [subject|] eqn:Hs; try done;
    (destruct (utils.extendOf subject) as [[|x0 ext]|];
     [ intros [= <-] x ->%list_elem_of_singleton; by eexists
     | | intros [= <-] x ->%list_elem_of_singleton; by eexists ]).
  - intros H x Hx. apply hierarchy_loop_shape in H as (_ & _ & Hup).
    destruct (Hup x Hx) as [->%list_elem_of_singleton|(e & le & _ & HG & _)];
      [by eexists|].
    by repeat case_match.
  - intros H x Hx. apply hierarchy_loop_shape in H as (_ & _ & Hup).
    destruct (Hup x Hx)
      as [->%list_elem_of_singleton|(e & le & _ & _ & HF & Hle)];
      [by eexists|].
    simpl in HF. by eapply IH.
Qed.

Lemma getFlatRoles_loop depth grants subjects arr l :
  forEachR (fun arr subjectName =>
    h ← utils.getRoleHierarchyOf depth grants subjectName None;
    Ok (utils.uniqConcat arr h)) subjects arr = Ok l ->
  (forall x, x ∈ arr -> x ∈ l)
  /\ (forall s, s ∈ subjects -> is_Some (grants !! s))
  /\ (forall x, x ∈ l -> x ∈ arr \/ is_Some (grants !! x)).
Proof.
  revert arr. induction subjects as [|s subjects IH]; intros arr; simpl.
  - intros [= <-]. split; [done|]. split; [by intros s ?%elem_of_nil|].
    by left.
  - destruct (utils.getRoleHierarchyOf depth grants s None) as [h|] eqn:Hh;
      [|done].
    simpl. intros H. destruct (IH _ H) as (Hin & Hex & Hup).
    split; [|split].
    + intros x Hx. apply Hin, elem_of_uniqConcat. by left.
    + intros s' [->|?]%elem_of_cons; [|by apply Hex].
      eapply getRoleHierarchyOf_exist; [done|].
      by eapply getRoleHierarchyOf_self.
    + intros x Hx. destruct (Hup x Hx) as [Hx'|?]; [|by right].
      apply elem_of_uniqConcat in Hx' as [?|?]; [by left|]. right.
      by eapply getRoleHierarchyOf_exist.
Qed.

Lemma worldAdmin_store :
  store worldAdmin
  = {[ "admin" := {[ "profile" := EObj {[ "create:any" := ["*"] ]} ]} ]}.
Proof. vm_compute. reflexivity. Qed.

Lemma inheritOK_worldAdmin depth : inheritOK depth (store worldAdmin).
Proof.
  exists (fun _ => 0). intros s role ext e. rewrite worldAdmin_store.
  intros [<- <-]%lookup_singleton_Some. done.
Qed.

Lemma hierarchy_loop_checks (F : string -> Result (list string))
    (G : string -> option Error) ext arr l :
  forEachR (fun arr exRoleName =>
    match G exRoleName with
    | Some e => Throw e
    | None => ext ← F exRoleName; Ok (utils.uniqConcat arr ext)
    end) ext arr = Ok l ->
  forall e, e ∈ ext -> G e = None.
Proof.
  revert arr. induction ext as [|e ext IH]; intros arr; simpl.
  - by intros _ e ?%elem_of_nil.
  - destruct (G e) eqn:HG; [done|]. destruct (F e) as [le|]; [|done].
    simpl. intros H e' [->|?]%elem_of_cons; [done|]. by eapply IH.
Qed.

(** ** What the writers write *)

Lemma forEachG_foldI {A} (f : A -> GM unit) (h : Grants -> A -> Grants)
    (I : GObj -> Prop) l :
  (forall x o o', I o -> f x o = (Ok tt, o') ->
     g_val o' = h (g_val o) x /\ I o') ->
  forall o o', I o -> forEachG f l o = (Ok tt, o') ->
    g_val o' = foldl h (g_val o) l /\ I o'.
Proof.
  intros Hf. induction l as [|x l IH]; intros o o' HI.
  - by intros [= <-].
  - rewrite forEachG_cons, bindG_unfold.
    destruct (f x o) as [[[]|err] o1] eqn:Hx; [|done]. intros Hl.
    destruct (Hf _ _ _ HI Hx) as (Hv & HI1).
    destruct (IH _ _ HI1 Hl) as (Hv' & HI').
    split; [|done]. simpl. by rewrite <- Hv.
Qed.

Lemma preCreateRoles_Ok subjects o o' :
  utilsW.preCreateRoles subjects o = (Ok tt, o') ->
  utils.toStringArray subjects <> []
  /\ g_val o' = foldl createRole (g_val o) (utils.toStringArray subjects).
Proof.
  unfold utilsW.preCreateRoles.
  assert (Hloop : forall l o o',
    forEachG (fun subject =>
      _ ← liftR (utils.validName subject true);
      grants ← getG;
      if negb (utils.has grants subject)
      then modifyG (insert subject ∅)
      else mret tt) l o = (Ok tt, o') ->
    g_val o' = foldl createRole (g_val o) l).
  { clear. intros l o o' H.
    eapply (forEachG_foldI _ createRole (fun _ => True)) in H as [H _];
      [done| |done].
    clear. intros s o o' _.
    destruct (utils.validName s true) as [v|err];
      [rewrite bind_liftR_Ok | by rewrite bind_liftR_Throw].
    rewrite bind_getG. unfold createRole.
    destruct (utils.has (g_val o) s); cbn [negb].
    - by intros [= <-].
    - unfold modifyG. destruct (g_frozen o); [done|]. by intros [= <-]. }
  destruct subjects as [|s|[|x l]]; try done.
  - simpl. destruct (Js.splitDelims (Js.trim s)) as [|y l] eqn:Hs; [done|].
    intros H. split; [done|]. by apply Hloop.
  - intros H. split; [done|]. by apply Hloop.
Qed.

Lemma foldl_createRole l : forall g,
  (forall s, s ∈ l -> is_Some (foldl createRole g l !! s))
  /\ (forall s role, g !! s = Some role ->
                     foldl createRole g l !! s = Some role)
  /\ (forall s role, foldl createRole g l !! s = Some role ->
                     g !! s = Some role \/ (s ∈ l /\ role = ∅)).
Proof.
  induction l as [|x l IH]; intros g; simpl.
  - split; [by intros s ?%elem_of_nil|]. split; [done|]. by left.
  - destruct (IH (createRole g x)) as (H1 & H2 & H3).
    assert (Hx : is_Some (createRole g x !! x)).
    { unfold createRole. destruct (utils.has g x) eqn:Hh.
      - by apply has_true.
      - rewrite lookup_insert_eq. by eexists. }
    assert (Hk : forall s role, g !! s = Some role ->
                                createRole g x !! s = Some role).
    { intros s role Hs. unfold createRole.
      destruct (utils.has g x) eqn:Hh; [done|]. apply has_false in Hh.
      rewrite lookup_insert_ne; [done|]. intros ->. congruence. }
    split; [|split].
    + intros s [->|?]%elem_of_cons; [|by apply H1].
      destruct Hx as [role Hrole]. rewrite (H2 _ _ Hrole). by eexists.
    + intros s role Hs. by apply H2, Hk.
    + intros s role Hs. destruct (H3 _ _ Hs) as [Hc|[? ->]].
      * unfold createRole in Hc. destruct (utils.has g x); [by left|].
        destruct (decide (x = s)) as [->|Hne].
        -- rewrite lookup_insert_eq in Hc. injection Hc as <-.
           right. split; [by left|done].
        -- rewrite lookup_insert_ne in Hc by done. by left.
      * right. split; [by right|done].
Qed.

Lemma atRef_store {A} (m : GM A) (w : World) o :
  heap w !! _grants w = Some o ->
  store (atRef (_grants w) m w).2 = g_val (m o).2.
Proof.
  intros Ho. unfold atRef. rewrite Ho. destruct (m o) as [r o'].
  unfold store. simpl.
  rewrite list_lookup_insert_eq by (by eapply lookup_lt_Some). done.
Qed.

Lemma atRef_Ok {A} l (m : GM A) (w w' : World) a :
  atRef l m w = (Ok a, w') ->
  exists o, heap w !! l = Some o /\ (m o).1 = Ok a.
Proof.
  unfold atRef. destruct (heap w !! l) as [o|]; [|done].
  destruct (m o) as [r o'] eqn:Hm. intros [= -> <-]. exists o.
  by rewrite Hm.
Qed.

Lemma commitToGrants_gen item all o o' :
  g_frozen o = false ->
  utilsW.commitToGrants item all o = (Ok tt, o') ->
  exists access,
    utils.normalizeAccessInfo item all = Ok access
    /\ g_val o' = grantsOfAccess access (g_val o) /\ g_frozen o' = false.
Proof.
  intros Hfr. unfold utilsW.commitToGrants, grantsOfAccess.
  destruct (utils.normalizeAccessInfo item all) as [access|err] eqn:Hn;
    [rewrite bind_liftR_Ok | by rewrite bind_liftR_Throw].
  intros Hrun. exists access. split; [done|].
  apply normalizeAccessInfo_Ok in Hn
    as (s0 & ss & r0 & rs & attrs & _ & _ & Hs & Hr & Ha & _).
  revert Hrun. rewrite Hs, Hr, Ha. cbn [utils.toStringArray]. intros Hrun.
  eapply (forEachG_fold _ _ (fun _ => True)) in Hrun as (Hv & Hf' & _);
    [done| |done..].
  clear. intros s o o' Hfr _.
  destruct (utils.validName s true) as [v|err];
    [rewrite bind_liftR_Ok | by rewrite bind_liftR_Throw].
  rewrite bind_getG.
  set (body := fun res : string => _).
  intros Hrun.
  assert (Hloop : forall o1, g_frozen o1 = false -> is_Some (g_val o1 !! s) ->
            forEachG body (r0 :: rs) o1 = (Ok tt, o') ->
            g_val o' = foldl (fun g resource =>
                                grantOf s resource
                                  (Js.str (ai_action access) +:+ ":"
                                   +:+ Js.str (ai_possession access))
                                  attrs g) (g_val o1) (r0 :: rs)
            /\ g_frozen o' = false).
  { intros o1 Hf1 Hs1 Hl.
    eapply (forEachG_fold body _ (fun g => is_Some (g !! s))) in Hl
      as (Hv & Hf' & _); [done| |done..].
    intros r o2 o2' Hf2 Hs2. subst body. cbv beta. apply commit_resource; done. }
  destruct (utils.has (g_val o) s) eqn:Hh; cbn [negb] in Hrun.
  - rewrite bind_ret in Hrun. apply has_true in Hh.
    destruct (Hloop o Hfr Hh Hrun) as [Hv Hf']. done.
  - rewrite bind_modifyG_unfrozen in Hrun by done. apply has_false in Hh.
    apply Hloop in Hrun as [Hv Hf']; [|done|simpl; by rewrite lookup_insert_eq].
    split; [|done]. rewrite Hv. simpl. by rewrite grantOf_fresh.
Qed.

Lemma grantOf_keeps s r ap attrs g s' r' ap' attrs' :
  grantedAt g s' r' ap' attrs' ->
  (s' = s -> r' = r -> ap' = ap -> attrs' = attrs) ->
  grantedAt (grantOf s r ap attrs g) s' r' ap' attrs'.
Proof.
  intros (role & d & Hs & Hr & Hd) Hsame. unfold grantedAt, grantOf.
  destruct (decide (s' = s)) as [->|Hns].
  - rewrite lookup_insert_eq, Hs. cbn [from_option id].
    destruct (decide (r' = r)) as [->|Hnr].
    + rewrite Hr. eexists _, _. split; [done|].
      rewrite lookup_insert_eq. split; [done|].
      destruct (decide (ap' = ap)) as [->|Hna].
      * rewrite lookup_insert_eq. f_equal. symmetry. by apply Hsame.
      * by rewrite lookup_insert_ne.
    + eexists _, d. split; [done|]. by rewrite lookup_insert_ne.
  - exists role, d. by rewrite lookup_insert_ne.
Qed.

Lemma grantOf_sets s r ap attrs g :
  grantedAt (grantOf s r ap attrs g) s r ap attrs.
Proof.
  unfold grantedAt, grantOf. eexists _, _.
  by rewrite !lookup_insert_eq.
Qed.

Lemma grantsOfAccess_keeps access g s' r' ap' attrs' :
  grantedAt g s' r' ap' attrs' ->
  (s' ∈ utils.toStringArray (ai_subject access) ->
   r' ∈ utils.toStringArray (ai_resource access) ->
   ap' = Js.str (ai_action access) +:+ ":" +:+ Js.str (ai_possession access) ->
   attrs' = utils.toStringArray (ai_attributes access)) ->
  grantedAt (grantsOfAccess access g) s' r' ap' attrs'.
Proof.
  unfold grantsOfAccess.
  generalize (utils.toStringArray (ai_subject access)) as S.
  generalize (utils.toStringArray (ai_resource access)) as R.
  generalize (utils.toStringArray (ai_attributes access)) as attrs.
  generalize (Js.str (ai_action access) +:+ ":"
              +:+ Js.str (ai_possession access)) as ap.
  intros ap attrs R S. revert g.
  induction S as [|s S IH]; intros g Hg Hsame; simpl; [done|].
  apply IH.
  - clear IH. revert g Hg.
    induction R as [|r R IHR]; intros g Hg; simpl; [done|].
    assert (HR : forall g, grantedAt g s' r' ap' attrs' ->
              (s' = s -> r' ∈ r :: R -> ap' = ap -> attrs' = attrs) ->
              grantedAt (foldl (fun g resource =>
                           grantOf s resource ap attrs g) g (r :: R))
                s' r' ap' attrs').
    { clear. induction (r :: R) as [|x l IHl]; intros g Hg Hsame; simpl;
        [done|].
      apply IHl.
      - apply grantOf_keeps; [done|]. intros -> -> ->.
        apply Hsame; [done|by left|done].
      - intros ? ? ?. apply Hsame; [done|by right|done]. }
    apply (HR g Hg). intros -> Hr ->. apply Hsame; [by left|done|done].
  - intros ? ? ?. apply Hsame; [by right|done|done].
Qed.

Lemma grantsOfAccess_sets access g s r :
  s ∈ utils.toStringArray (ai_subject access) ->
  r ∈ utils.toStringArray (ai_resource access) ->
  grantedAt (grantsOfAccess access g) s r
    (Js.str (ai_action access) +:+ ":" +:+ Js.str (ai_possession access))
    (utils.toStringArray (ai_attributes access)).
Proof.
  unfold grantsOfAccess.
  generalize (utils.toStringArray (ai_subject access)) as S.
  generalize (utils.toStringArray (ai_resource access)) as R.
  generalize (utils.toStringArray (ai_attributes access)) as attrs.
  generalize (Js.str (ai_action access) +:+ ":"
              +:+ Js.str (ai_possession access)) as ap.
  intros ap attrs R S Hs Hr.
  assert (Hkeep : forall l g s0,
    grantedAt g s r ap attrs ->
    grantedAt (foldl (fun g resource => grantOf s0 resource ap attrs g) g l)
      s r ap attrs).
  { induction l as [|x l IHl]; intros g0 s0 Hg; simpl; [done|].
    apply IHl. by apply grantOf_keeps. }
  assert (Hset : forall l g,
    r ∈ l ->
    grantedAt (foldl (fun g resource => grantOf s resource ap attrs g) g l)
      s r ap attrs).
  { induction l as [|x l IHl]; intros g0 Hin; simpl;
      [by apply elem_of_nil in Hin|].
    apply elem_of_cons in Hin as [->|Hin]; [|by apply IHl].
    apply Hkeep, grantOf_sets. }
  revert g. induction S as [|s0 S IH]; intros g; simpl;
    [by apply elem_of_nil in Hs|].
  apply elem_of_cons in Hs as [<-|Hs]; [|by apply IH].
  assert (Hout : forall S g,
    grantedAt g s r ap attrs ->
    grantedAt (foldl (fun g subject =>
                 foldl (fun g resource =>
                          grantOf subject resource ap attrs g) g R) g S)
      s r ap attrs).
  { clear -Hkeep. induction S as [|x S IHS]; intros g0 Hg; simpl; [done|].
    by apply IHS, Hkeep. }
  by apply Hout, Hset.
Qed.

Lemma prepareAndCommit_Ok action possession resource attributes this w
    this' w' :
  Access._prepareAndCommit action possession resource attributes this w
  = (Ok tt, this', w') ->
  a_grants this = _grants w ->
  exists access,
    utils.normalizeAccessInfo
      (draftOf this action possession resource attributes) false = Ok access
    /\ store w' = grantsOfAccess access (store w).
Proof.
  unfold Access._prepareAndCommit. fold (draftOf this action possession
                                           resource attributes).
  intros H Href. rewrite Href in H.
  destruct (atRef (_grants w) _ w) as [[[]|err] w1] eqn:Hat; [|done].
  injection H as _ <-.
  pose proof (atRef_Ok _ _ _ _ _ Hat) as (o & Ho & Hm).
  pose proof (atRef_store
    (utilsW.commitToGrants (draftOf this action possession resource attributes)
       false) w o Ho) as Hst.
  rewrite Hat in Hst. simpl in Hst.
  destruct (utilsW.commitToGrants _ _ o) as [r o'] eqn:Hc. simpl in *. subst r.
  destruct (g_frozen o) eqn:Hfr.
  { destruct (commitToGrants_frozen
                (draftOf this action possession resource attributes) false o
                Hfr) as (e & He & _). congruence. }
  destruct (commitToGrants_gen _ _ _ _ Hfr Hc) as (access & Hn & Hv & _).
  exists access. split; [done|]. rewrite Hst, Hv. unfold store. by rewrite Ho.
Qed.

Lemma normalize_draftOf this action possession resource attributes access :
  utils.normalizeAccessInfo
    (draftOf this action possession resource attributes) false = Ok access ->
  utils.toStringArray (ai_subject access)
  = utils.toStringArray (ai_subject (a_ this))
  /\ utils.toStringArray (ai_resource access)
     = utils.toStringArray (if utils.truthyVal resource then resource
                            else ai_resource (a_ this))
  /\ ai_action access = action /\ ai_possession access = possession
  /\ utils.toStringArray (ai_attributes access)
     = (if ai_denied (a_ this) then []
        else if utils.truthyVal attributes
             then utils.toStringArray attributes else ["*"]).
Proof.
  unfold utils.normalizeAccessInfo. intros H.
  destruct (bool_decide _ || _) eqn:H1 in H; [done|].
  destruct (bool_decide _ || _) eqn:H2 in H; [done|].
  injection H as <-. cbn [ai_subject ai_resource ai_action ai_possession
                            ai_attributes utils.toStringArray].
  unfold draftOf, setActionPossession, setResource, setAttributes.
  destruct (utils.truthyVal resource), (ai_denied (a_ this)) eqn:Hd;
    simpl; rewrite ?Hd; simpl; repeat split;
    destruct (utils.truthyVal attributes); simpl; try done;
    by destruct (utils.toStringArray attributes).
Qed.

Lemma atRef_other_store {A} (l : nat) (m : GM A) (w : World) :
  l ≠ _grants w ->
  store (atRef l m w).2 = store w /\ _grants (atRef l m w).2 = _grants w.
Proof.
  intros Hne. unfold atRef. destruct (heap w !! l) as [o|]; [|done].
  destruct (m o) as [r o']. unfold store. simpl.
  by rewrite list_lookup_insert_ne.
Qed.

(** The first loop of [removeRoles]. *)
Lemma removeRoles_delete_loop rem o o' :
  rem <> [] \/ g_frozen o = false ->
  forEachG (fun subjectName =>
    grants ← getG;
    if negb (utils.has grants subjectName)
    then throwG (RemoveNonExisting subjectName)
    else modifyG (delete subjectName)) rem o = (Ok tt, o') ->
  g_frozen o' = false
  /\ NoDup rem
  /\ (forall s, s ∈ rem -> is_Some (g_val o !! s))
  /\ (forall s, g_val o' !! s
                = if bool_decide (s ∈ rem) then None else g_val o !! s).
Proof.
  revert o. induction rem as [|x rem IH]; intros o Hfr.
  - intros [= <-]. destruct Hfr as [?|Hfr]; [done|].
    split; [done|]. split; [apply NoDup_nil_2|].
    split; [by intros s ?%elem_of_nil|]. intros s.
    rewrite bool_decide_eq_false_2; [done|]. by intros ?%elem_of_nil.
  - rewrite forEachG_cons, bindG_unfold, bind_getG.
    destruct (utils.has (g_val o) x) eqn:Hx; cbn [negb]; [|done].
    unfold modifyG at 1. destruct (g_frozen o) eqn:Hf; [done|].
    intros H. apply IH in H as (Hf' & Hnd & Hex & Hlook); [|by right].
    simpl in *. apply has_true in Hx.
    assert (Hxr : x ∉ rem).
    { intros Hin. destruct (Hex x Hin) as [? Hsome].
      by rewrite lookup_delete_eq in Hsome. }
    split; [done|]. split; [by apply NoDup_cons|]. split.
    + intros s [->|Hs]%elem_of_cons; [done|].
      destruct (Hex s Hs) as [r Hr].
      destruct (decide (x = s)) as [->|Hne]; [done|].
      rewrite lookup_delete_ne in Hr by done. by eexists.
    + intros s. rewrite Hlook. destruct (decide (s = x)) as [->|Hne].
      * rewrite bool_decide_eq_false_2 by done.
        rewrite bool_decide_eq_true_2 by left. by rewrite lookup_delete_eq.
      * rewrite lookup_delete_ne by done.
        destruct (bool_decide (s ∈ rem)) eqn:Hin.
        -- apply bool_decide_eq_true in Hin.
           by rewrite bool_decide_eq_true_2 by (by right).
        -- apply bool_decide_eq_false in Hin.
           rewrite bool_decide_eq_false_2; [done|].
           by intros [?|?]%elem_of_cons.
Qed.

Lemma removeRoles_Ok subjects w w' :
  AccessControl.removeRoles subjects w = (Ok tt, w') ->
  NoDup (utils.toStringArray subjects)
  /\ (forall s, s ∈ utils.toStringArray subjects -> is_Some (store w !! s))
  /\ (forall s, store w' !! s
                = if bool_decide (s ∈ utils.toStringArray subjects) then None
                  else pruneRole (utils.toStringArray subjects)
                         <$> store w !! s).
Proof.
  unfold AccessControl.removeRoles.
  destruct (AccessControl.isLocked w); [done|].
  destruct (bool_decide _ || _) eqn:Hchk; [done|].
  apply orb_false_iff in Hchk as [Hlen _]. apply bool_decide_eq_false in Hlen.
  set (rem := utils.toStringArray subjects) in *. intros H.
  pose proof (atRef_Ok _ _ _ _ _ H) as (o & Ho & Hm).
  match type of H with atRef _ ?m w = _ =>
    pose proof (atRef_store m w o Ho) as Hst; rewrite H in Hst
  end.
  simpl in Hst. clear H. revert Hm Hst. rewrite !bindG_unfold.
  match goal with |- context [forEachG ?f rem o] =>
    destruct (forEachG f rem o) as [[[]|err] o1] eqn:Hdel; [|done]
  end.
  apply removeRoles_delete_loop in Hdel as (Hf1 & Hnd & Hex & Hlook);
    [|left; by destruct rem].
  rewrite bind_getG, (prune_all rem o1 Hf1). simpl. intros _ Hst.
  assert (Hsw : store w = g_val o) by (unfold store; by rewrite Ho).
  rewrite Hsw. split; [done|]. split; [done|].
  intros s. rewrite Hst, lookup_fmap, Hlook. by destruct (bool_decide _).
Qed.

(** ** removeResources *)

Lemma deleteKey_None s r o :
  g_frozen o = false ->
  exists o', AccessControl.deleteKey s r None o = (Ok tt, o')
    /\ g_val o' = alter (fun role : gmap string Entry => delete r role) s
                    (g_val o)
    /\ g_frozen o' = false.
Proof.
  intros Hfr. unfold AccessControl.deleteKey. rewrite bind_getG.
  destruct (default ∅ (g_val o !! s) !! r) as [e|] eqn:He.
  - destruct e; cbv beta iota; rewrite modifyG_unfrozen by done; by eexists.
  - exists o. split; [done|]. split; [|done]. symmetry.
    apply map_eq. intros s'. destruct (decide (s = s')) as [<-|Hne].
    + rewrite lookup_alter_eq. destruct (g_val o !! s) as [role|]; [|done].
      simpl in *. f_equal. by apply delete_id.
    + by rewrite lookup_alter_ne.
Qed.

Lemma entryAt_delete (g : Grants) s r s' k :
  entryAt (alter (fun role : gmap string Entry => delete r role) s g) s' k
  = if bool_decide (s' = s) && bool_decide (k = r) then None
    else entryAt g s' k.
Proof.
  unfold entryAt. case_bool_decide as Hs; simpl.
  - subst s'. rewrite lookup_alter_eq.
    destruct (g !! s) as [role|]; simpl.
    + case_bool_decide as Hk.
      * subst. by rewrite lookup_delete_eq.
      * by rewrite lookup_delete_ne.
    + rewrite lookup_empty. by destruct (bool_decide _).
  - by rewrite lookup_alter_ne.
Qed.

Lemma removeResources_inner (cond : string -> string -> bool) s ks :
  forall g,
  (forall s', is_Some (foldl (dropKey cond s) g ks !! s') <-> is_Some (g !! s'))
  /\ (forall s' k,
        entryAt (foldl (dropKey cond s) g ks) s' k
        = if bool_decide (s' = s) && bool_decide (k ∈ ks) && cond s k
          then None else entryAt g s' k).
Proof.
  induction ks as [|x ks IH]; intros g; cbn [foldl].
  - split; [done|]. intros s' k.
    rewrite (bool_decide_eq_false_2 (k ∈ [])) by (by intros ?%elem_of_nil).
    by rewrite andb_false_r.
  - destruct (IH (dropKey cond s g x)) as [Hd Hl]. split.
    + intros s'. rewrite Hd. unfold dropKey. destruct (cond s x); [|done].
      destruct (decide (s = s')) as [<-|Hne].
      * rewrite lookup_alter_eq. by rewrite fmap_is_Some.
      * by rewrite lookup_alter_ne.
    + intros s' k. rewrite Hl. unfold dropKey.
      destruct (decide (s' = s)) as [->|Hns].
      2:{ rewrite !(bool_decide_eq_false_2 (s' = s)) by done. simpl.
          destruct (cond s x); [|done]. rewrite entryAt_delete.
          by rewrite (bool_decide_eq_false_2 (s' = s)) by done. }
      rewrite !(bool_decide_eq_true_2 (s = s)) by done. simpl.
      destruct (decide (k = x)) as [->|Hnx].
      * rewrite (bool_decide_eq_true_2 (x ∈ x :: ks))
          by (apply elem_of_cons; by left). simpl.
        destruct (cond s x) eqn:Hc.
        -- rewrite entryAt_delete.
           rewrite (bool_decide_eq_true_2 (s = s)) by done.
           rewrite (bool_decide_eq_true_2 (x = x)) by done. simpl.
           by destruct (bool_decide _).
        -- by rewrite andb_false_r.
      * assert (bool_decide (k ∈ x :: ks) = bool_decide (k ∈ ks)) as ->.
        { apply bool_decide_ext. rewrite elem_of_cons.
          split; [by intros [?|?]|by right]. }
        destruct (bool_decide (k ∈ ks) && cond s k); [done|].
        destruct (cond s x); [|done]. rewrite entryAt_delete.
        rewrite (bool_decide_eq_false_2 (k = x)) by done.
        by rewrite andb_false_r.
Qed.

Lemma removeResources_outer (cond : string -> string -> bool) S :
  forall g,
  (forall s', is_Some (foldl (dropKeys cond) g S !! s') <-> is_Some (g !! s'))
  /\ (forall s' k,
        entryAt (foldl (dropKeys cond) g S) s' k
        = if bool_decide (s' ∈ S) && cond s' k
          then None else entryAt g s' k).
Proof.
  induction S as [|x S IH]; intros g; cbn [foldl].
  - split; [done|]. intros s' k.
    by rewrite (bool_decide_eq_false_2 (s' ∈ [])) by (by intros ?%elem_of_nil).
  - destruct (IH (dropKeys cond g x)) as [Hd Hl].
    destruct (removeResources_inner cond x
                (map fst (map_to_list (default ∅ (g !! x)))) g) as [Hd1 Hl1].
    fold (dropKeys cond g x) in Hd1, Hl1. split.
    + intros s'. by rewrite Hd, Hd1.
    + intros s' k. rewrite Hl, Hl1.
      destruct (decide (s' = x)) as [->|Hne].
      * rewrite (bool_decide_eq_true_2 (x = x)) by done.
        rewrite (bool_decide_eq_true_2 (x ∈ x :: S))
          by (apply elem_of_cons; by left). simpl.
        destruct (cond x k); [|by rewrite !andb_false_r].
        rewrite !andb_true_r.
        destruct (bool_decide (x ∈ S)); [done|].
        case_bool_decide as Hk; [done|].
        unfold entryAt. destruct (default ∅ (g !! x) !! k) as [e|] eqn:He;
          [|done].
        exfalso. apply Hk. apply list_elem_of_fmap. exists (k, e).
        split; [done|]. by apply elem_of_map_to_list.
      * rewrite (bool_decide_eq_false_2 (s' = x)) by done. simpl.
        assert (bool_decide (s' ∈ x :: S) = bool_decide (s' ∈ S)) as ->.
        { apply bool_decide_ext. rewrite elem_of_cons.
          split; [by intros [?|?]|by right]. }
        done.
Qed.

Lemma removeResources_loops (cond : string -> string -> bool) o :
  g_frozen o = false ->
  exists o',
    (grants ← getG;
     forEachG (fun subject =>
       grants ← getG;
       forEachG (fun resource =>
         if cond subject resource
         then AccessControl.deleteKey subject resource None
         else mret tt)
         (map fst (map_to_list (default ∅ (grants !! subject)))))
       (map fst (map_to_list grants))) o = (Ok tt, o')
    /\ g_frozen o' = false
    /\ (forall s, is_Some (g_val o' !! s) <-> is_Some (g_val o !! s))
    /\ (forall s k, entryAt (g_val o') s k
                    = if cond s k then None else entryAt (g_val o) s k).
Proof.
  intros Hfr. rewrite bind_getG.
  assert (Hin : forall s ks o1, g_frozen o1 = false ->
    exists o2,
      forEachG (fun resource =>
        if cond s resource
        then AccessControl.deleteKey s resource None
        else mret tt) ks o1 = (Ok tt, o2)
      /\ g_frozen o2 = false /\ g_val o2 = foldl (dropKey cond s) (g_val o1) ks).
  { intros s ks. induction ks as [|r ks IH]; intros o1 Hf1.
    - by exists o1.
    - rewrite forEachG_cons, bindG_unfold. cbn [foldl].
      destruct (cond s r) eqn:Hc.
      + destruct (deleteKey_None s r o1 Hf1) as (o2 & -> & Hv & Hf2).
        destruct (IH o2 Hf2) as (o3 & -> & Hf3 & Hv3).
        exists o3. split; [done|]. split; [done|].
        rewrite Hv3, Hv. f_equal. unfold dropKey. by rewrite Hc.
      + cbn [mret GM_ret]. destruct (IH o1 Hf1) as (o3 & -> & Hf3 & Hv3).
        exists o3. split; [done|]. split; [done|].
        rewrite Hv3. f_equal. unfold dropKey. by rewrite Hc. }
  assert (Hout : forall S o1, g_frozen o1 = false ->
    exists o2,
      forEachG (fun subject =>
        grants ← getG;
        forEachG (fun resource =>
          if cond subject resource
          then AccessControl.deleteKey subject resource None
          else mret tt)
          (map fst (map_to_list (default ∅ (grants !! subject))))) S o1
      = (Ok tt, o2)
      /\ g_frozen o2 = false /\ g_val o2 = foldl (dropKeys cond) (g_val o1) S).
  { induction S as [|s S IH]; intros o1 Hf1.
    - by exists o1.
    - rewrite forEachG_cons, bindG_unfold, bind_getG.
      destruct (Hin s (map fst (map_to_list (default ∅ (g_val o1 !! s)))) o1
                  Hf1) as (o2 & -> & Hf2 & Hv2).
      destruct (IH o2 Hf2) as (o3 & -> & Hf3 & Hv3).
      exists o3. split; [done|]. split; [done|]. by rewrite Hv3, Hv2. }
  destruct (Hout (map fst (map_to_list (g_val o))) o Hfr)
    as (o' & -> & Hf' & Hv').
  exists o'. split; [done|]. split; [done|].
  destruct (removeResources_outer cond (map fst (map_to_list (g_val o))) (g_val o))
    as [Hd Hl].
  rewrite Hv'. split; [done|]. intros s k. rewrite Hl.
  case_bool_decide as Hs; [done|]. simpl.
  destruct (cond s k); [|done]. unfold entryAt.
  destruct (g_val o !! s) as [role|] eqn:Hrole; [|done].
  exfalso. apply Hs. apply list_elem_of_fmap. exists (s, role).
  split; [done|]. by apply elem_of_map_to_list.
Qed.

Lemma removeResources_Ok resources subjects w w' :
  AccessControl.removeResources resources subjects w = (Ok tt, w') ->
  isFrozen w = false ->
  (forall s, is_Some (store w' !! s) <-> is_Some (store w !! s))
  /\ (forall s k,
        entryAt (store w') s k
        = if targeted (utils.toStringArray resources) subjects s k then None
          else entryAt (store w) s k).
Proof.
  unfold AccessControl.removeResources, AccessControl._removePermission.
  destruct (AccessControl.isLocked w); [done|].
  destruct (bool_decide _ || _); [done|]. destruct (_ && _); [done|].
  intros H Hfr.
  pose proof (atRef_Ok _ _ _ _ _ H) as (o & Ho & _).
  match type of H with atRef _ ?m w = _ =>
    pose proof (atRef_store m w o Ho) as Hst; rewrite H in Hst
  end.
  assert (Hfo : g_frozen o = false).
  { unfold isFrozen in Hfr. by rewrite Ho in Hfr. }
  destruct (removeResources_loops
              (fun s k => targeted (utils.toStringArray resources) subjects s k)
              o Hfo) as (o' & Hrun & _ & Hd & Hl).
  unfold targeted in Hrun at 1.
  cbn [Js.truthy] in Hst. rewrite Hrun in Hst. simpl in Hst.
  assert (Hsw : store w = g_val o) by (unfold store; by rewrite Ho).
  rewrite Hst, Hsw. done.
Qed.

(** ** getResources *)

Lemma getResources_inner (l : list (string * Entry)) : forall acc,
  (NoDup acc ->
   NoDup (foldl (fun resources '(resource, _) =>
                   utils.pushUniq resources resource) acc l))
  /\ forall x,
       x ∈ foldl (fun resources '(resource, _) =>
                    utils.pushUniq resources resource) acc l
       <-> x ∈ acc \/ x ∈ map fst l.
Proof.
  induction l as [|[r e] l IH]; intros acc; simpl.
  - split; [done|]. intros x. split; [by left|].
    by intros [?|?%elem_of_nil].
  - destruct (IH (utils.pushUniq acc r)) as [Hnd Hin]. split.
    + intros Ha. apply Hnd.
      change (utils.pushUniq acc r) with (utils.uniqConcat acc [r]).
      by apply uniqConcat_NoDup.
    + intros x. rewrite Hin, elem_of_pushUniq, elem_of_cons. tauto.
Qed.

Lemma getResources_outer (L : list (string * gmap string Entry)) : forall acc,
  (NoDup acc ->
   NoDup (foldl (fun resources '(_, role) =>
            foldl (fun resources '(resource, _) =>
                     utils.pushUniq resources resource)
              resources (map_to_list role)) acc L))
  /\ forall x,
       x ∈ foldl (fun resources '(_, role) =>
             foldl (fun resources '(resource, _) =>
                      utils.pushUniq resources resource)
               resources (map_to_list role)) acc L
       <-> x ∈ acc
           \/ exists s role, (s, role) ∈ L /\ is_Some (role !! x).
Proof.
  induction L as [|[s role] L IH]; intros acc; simpl.
  - split; [done|]. intros x. split; [by left|].
    by intros [?|(? & ? & ?%elem_of_nil & _)].
  - destruct (getResources_inner (map_to_list role) acc) as [Hnd1 Hin1].
    match goal with |- context [foldl _ (foldl ?f acc ?l) L] =>
      destruct (IH (foldl f acc l)) as [Hnd Hin]
    end.
    split; [by intros ?; apply Hnd, Hnd1|].
    intros x. rewrite Hin, Hin1. split.
    + intros [[?|Hx]|(s' & role' & ? & ?)]; [by left| |].
      * right. exists s, role. split; [by left|].
        apply list_elem_of_fmap in Hx as [[k e] [-> Hke]].
        apply elem_of_map_to_list in Hke. by eexists.
      * right. exists s', role'. split; [by right|done].
    + intros [?|(s' & role' & [Heq|?]%elem_of_cons & [e He])]; [by left; left| |].
      * injection Heq as -> ->. left. right.
        apply list_elem_of_fmap. exists (x, e). split; [done|].
        by apply elem_of_map_to_list.
      * right. exists s', role'. split; [done|by eexists].
Qed.

(** ** Inspection of a nested mapping *)

Lemma forEachG_keeps_Ok {A} (f : A -> GM unit) l o o' :
  (forall x, (f x o).2 = o) ->
  forEachG f l o = (Ok tt, o') ->
  forall x, x ∈ l -> f x o = (Ok tt, o).
Proof.
  intros Hk. induction l as [|y l IH]; [by intros _ x ?%elem_of_nil|].
  rewrite forEachG_cons, bindG_unfold. pose proof (Hk y) as Hy.
  destruct (f y o) as [[[]|err] o1] eqn:Hf; [|done]. simpl in Hy. subst o1.
  intros H x [->|?]%elem_of_cons; [done|]. by apply IH.
Qed.

Lemma validResourceObject_filled d b :
  utils.validResourceObject (EObj d) = Ok b ->
  forall ap l, d !! ap = Some l -> utils.isFilledStringArray l = true.
Proof.
  unfold utils.validResourceObject. intros H ap l Hl.
  apply elem_of_map_to_list in Hl. revert H.
  generalize true at 2. induction (map_to_list d) as [|[a p] L IH];
    [by apply elem_of_nil in Hl|].
  intros b0. cbn [forEachR].
  destruct (negb (utils.isEmptyArray (Arr p))
            && negb (utils.isFilledStringArray p)) eqn:Hc; [by simpl|].
  intros H. apply elem_of_cons in Hl as [Heq|Hl]; [|by eapply IH].
  injection Heq as <- <-. apply andb_false_iff in Hc as [Hc|Hc].
  - apply negb_false_iff in Hc. by destruct l.
  - by apply negb_false_iff in Hc.
Qed.

Lemma nested_load_filled depth (input g : Grants) :
  allObj input ->
  utilsW.getInspectedGrants depth (GObject input) = Ok g ->
  forall s role r d ap l,
    input !! s = Some role -> role !! r = Some (EObj d) -> d !! ap = Some l ->
    utils.isFilledStringArray l = true.
Proof.
  intros Hin. unfold utilsW.getInspectedGrants.
  set (o := {| g_val := input; g_frozen := false |}).
  match goal with |- context [forEachG ?f ?l o] =>
    pose proof (forEachG_keeps_Ok f l o) as Hk;
    destruct (forEachG f l o) as [[[]|err] o1] eqn:Hrun; [|done]
  end.
  intros _ s role r d ap l Hs Hr Hl.
  assert (Hkeep : forall s0,
    ((_ ← liftR (utils.validName s0 true);
      _ ← utilsW.validRoleObject depth s0; mret tt) o).2 = o).
  { intros s0.
    destruct (utils.validName s0 true) as [v|err];
      [rewrite bind_liftR_Ok | by rewrite bind_liftR_Throw].
    rewrite bindG_unfold.
    pose proof (validRoleObject_allObj depth s0 o Hin) as Hv.
    by destruct (utilsW.validRoleObject _ _ _) as [[b|err] o2]. }
  specialize (Hk o1 Hkeep eq_refl s).
  assert (Hsin : s ∈ map fst (map_to_list input)).
  { apply list_elem_of_fmap. exists (s, role). split; [done|].
    by apply elem_of_map_to_list. }
  specialize (Hk Hsin). revert Hk.
  destruct (utils.validName s true) as [v|err];
    [rewrite bind_liftR_Ok | by rewrite bind_liftR_Throw].
  rewrite bindG_unfold.
  destruct (utilsW.validRoleObject depth s o) as [[b|err] o2] eqn:Hv; [|done].
  intros _. revert Hv. unfold utilsW.validRoleObject.
  rewrite bind_getG. change (g_val o) with input. rewrite Hs.
  rewrite bindG_unfold.
  match goal with |- context [forEachG ?f ?l o] =>
    pose proof (forEachG_keeps_Ok f l o) as Hk2;
    destruct (forEachG f l o) as [[[]|err] o3] eqn:Hrun2; [|done]
  end.
  intros _.
  assert (Hkeep2 : forall k,
    ((v ← liftR (utils.validName k false);
      grants ← getG;
      let subject := default ∅ (grants !! s) in
      if negb v then
        if bool_decide (k = "_extend_") then
          match subject !! k with
          | Some (EArr extRoles) =>
              if negb (utils.isFilledStringArray extRoles)
              then throwG (InvalidExtendValue s)
              else utilsW.extendRole depth (Str s) (Arr extRoles) false
          | _ => throwG (InvalidExtendValue s)
          end
        else throwG (ReservedResourceName k)
      else
        match subject !! k with
        | Some e => _ ← liftR (utils.validResourceObject e); mret tt
        | None => throwG InvalidResourceDefinition
        end) o).2 = o).
  { intros k.
    destruct (utils.validName k false) as [v'|err'];
      [rewrite bind_liftR_Ok | by rewrite bind_liftR_Throw].
    rewrite bind_getG. cbv zeta. change (g_val o) with input. rewrite Hs.
    cbn [from_option id]. destruct v'; cbn [negb].
    - destruct (role !! k) as [e|]; [|done].
      by destruct (utils.validResourceObject e).
    - case_bool_decide; [|done].
      destruct (role !! k) as [[l0|d0]|] eqn:Hk0; try done.
      by destruct (Hin s role k (EArr l0) Hs Hk0). }
  specialize (Hk2 o3 Hkeep2 eq_refl r).
  assert (Hrin : r ∈ map fst (map_to_list role)).
  { apply list_elem_of_fmap. exists (r, EObj d). split; [done|].
    by apply elem_of_map_to_list. }
  specialize (Hk2 Hrin). revert Hk2.
  destruct (utils.validName r false) as [v'|err'];
    [rewrite bind_liftR_Ok | by rewrite bind_liftR_Throw].
  rewrite bind_getG. cbv zeta. change (g_val o) with input. rewrite Hs.
  cbn [from_option id]. rewrite Hr. destruct v'; cbn [negb].
  - destruct (utils.validResourceObject (EObj d)) as [b'|err'] eqn:Hvr;
      [|by rewrite bind_liftR_Throw].
    intros _. by eapply validResourceObject_filled.
  - by case_bool_decide.
Qed.

(** ** Revisions: the second extension and the outcome of builder calls *)

(** [extendRole(b, [a])] when the hierarchy of [a] does not resolve. *)
Lemma extendRole_unresolved depth sv b a replace o e :
  utils.toStringArray sv = [b] ->
  is_Some (g_val o !! a) -> is_Some (g_val o !! b) -> a ≠ b -> a ≠ "" ->
  utils.getRoleHierarchyOf depth (g_val o) a None = Throw e ->
  utilsW.extendRole depth sv (Arr [a]) replace o = (Throw e, o).
Proof.
  intros Hsv Ha Hb Hab Hne Hl. unfold utilsW.extendRole. rewrite Hsv.
  cbn [utils.isEmptyArray utils.toStringArray length].
  rewrite !bool_decide_eq_false_2 by done. gsimp.
  unfold utils.getNonExistentRoles. cbn [List.filter].
  apply has_true in Ha, Hb. rewrite Ha. cbn [negb length].
  rewrite bool_decide_eq_false_2 by lia.
  rewrite forEachG_cons. gsimp. rewrite Hb. cbn [negb].
  assert (utils.includes [a] b = false) as ->.
  { apply includes_false. intros ?%list_elem_of_singleton. by subst. }
  unfold utils.getCrossExtendingRole. cbn [utils.toStringArray].
  cbn [utils.getCrossExtendingRole_go Js.truthy orb].
  rewrite bool_decide_eq_false_2 by done. rewrite Hl.
  cbn [mbind Result_bind]. by gsimp.
Qed.

Lemma plainGrants_AB :
  plainGrants (store (grantAny "b" "r" (grantAny "a" "r" world0))).
Proof.
  assert (Hst0 : store (grantAny "b" "r" (grantAny "a" "r" world0))
                 = <["b" := {["r" := EObj {["create:any" := ["*"]]}]}]>
                     (<["a" := {["r" := EObj {["create:any" := ["*"]]}]}]>
                        (∅ : Grants))) by (vm_compute; reflexivity).
  rewrite Hst0. intros s role Hs.
  assert (role = {["r" := EObj {["create:any" := ["*"]]}]}
          /\ (s = "a" \/ s = "b")) as [-> Hsab].
  { apply lookup_insert_Some in Hs as [[<- <-]|[_ Hs]]; [by auto|].
    apply lookup_insert_Some in Hs as [[<- <-]|[_ Hs]]; [by auto|].
    by rewrite lookup_empty in Hs. }
  split; [|split].
  - unfold plain, protoNames. intros Hin%list_elem_of_In.
    simpl in Hin. destruct Hsab; subst; intuition discriminate.
  - intros k [e Hk]. apply lookup_singleton_Some in Hk as [<- _].
    unfold plain, protoNames. intros Hin%list_elem_of_In.
    simpl in Hin. intuition discriminate.
  - intros ext Hext. by vm_compute in Hext.
Qed.

Lemma callBuilder_world depth c this w :
  (callBuilder depth c this w).2 = runBuilder depth c this w.
Proof.
  destruct c; simpl; repeat case_match; by simplify_eq/=.
Qed.

(** A commit of one resource for one subject that exists writes nothing
    before its last check. *)
Lemma commitToGrants_single_throw d all o e o' s r :
  (forall access, utils.normalizeAccessInfo d all = Ok access ->
     utils.toStringArray (ai_subject access) = [s]
     /\ utils.toStringArray (ai_resource access) = [r]) ->
  is_Some (g_val o !! s) ->
  utilsW.commitToGrants d all o = (Throw e, o') -> o' = o.
Proof.
  intros Hn [role Hs]. unfold utilsW.commitToGrants.
  destruct (utils.normalizeAccessInfo d all) as [access|err];
    [rewrite bind_liftR_Ok | rewrite bind_liftR_Throw; by intros [= _ <-]].
  destruct (Hn access eq_refl) as [-> ->].
  rewrite forEachG_cons, forEachG_nil_fn. gsimp.
  destruct (utils.validName s true) as [v|err];
    [|by gsimp; intros [= _ <-]].
  gsimp. rewrite (proj2 (has_true (g_val o) s)) by (by eexists).
  cbn [negb]. gsimp. rewrite forEachG_cons, forEachG_nil_fn. gsimp.
  destruct (utils.validName r true) as [v'|err];
    [|by gsimp; intros [= _ <-]].
  gsimp. rewrite Hs. cbn [from_option id].
  destruct (utils.has role r) eqn:Hr; cbn [negb].
  - gsimp. rewrite Hs. cbn [from_option id].
    destruct (role !! r) as [[l|dd]|]; [by gsimp; intros [= _ <-]|
                                        |by gsimp; intros [= _ <-]].
    rewrite bindG_unfold.
    destruct (modifyG _ o) as [[[]|e1] o1] eqn:Hm; [by gsimp|].
    intros [= _ <-]. by eapply modifyG_throw.
  - destruct (g_frozen o) eqn:Hfr.
    + rewrite bind_modifyG_frozen by done. by intros [= _ <-].
    + rewrite bind_modifyG_unfrozen by done. gsimp. cbn [g_val].
      rewrite (setEntry_lookup _ _ _ _ _ Hs). cbn [from_option id].
      rewrite lookup_insert_eq.
      rewrite bind_modifyG_unfrozen by done. by gsimp.
Qed.
Lemma split_no_sep sep s :
  forallb (fun c => negb (sep c)) (list_ascii_of_string s) = true ->
  Js.split sep s = [s].
Proof.
  induction s as [|c s IH]; [done|]. simpl.
  intros [Hc Hs]%andb_true_iff. apply negb_true_iff in Hc. rewrite Hc.
  by rewrite (IH Hs).
Qed.

Lemma oneName_toStringArray s :
  oneName s -> utils.toStringArray (Str s) = [s].
Proof.
  intros [Ht Hd]. unfold utils.toStringArray, Js.splitDelims.
  rewrite Ht. by rewrite split_no_sep.
Qed.

Lemma canonical_names v :
  oneNameOrList v -> utils.toStringArray v = specNames v.
Proof. destruct v as [|s|l]; [done| |done]. apply oneName_toStringArray. Qed.

Lemma createRole_grantOf s r ap attrs g :
  grantOf s r ap attrs (createRole g s) = grantOf s r ap attrs g.
Proof.
  unfold createRole. destruct (utils.has g s) eqn:Hh; [done|].
  apply grantOf_fresh. unfold utils.has in Hh. by destruct (g !! s).
Qed.

Lemma spec_possession action possession a p :
  (forall act, Some action = Some act ->
     let first := default "" (Js.split Js.is_colon act !! 0) in
     Js.trim first = first
     /\ Js.split Js.is_colon act !! 1 <> Some "") ->
  possession <> Some "" ->
  utils.normalizeActionPossession (Some action) possession = Ok (a, p) ->
  a = specAction action /\ specPossession action possession = Some p.
Proof.
  intros Hact Hp. destruct (Hact action eq_refl) as [Ht H1]. clear Hact.
  unfold utils.normalizeActionPossession, specAction, specPossession.
  cbv zeta in Ht. rewrite Ht.
  destruct possession as [q|].
  - assert (Hq : Js.truthy (Some q) = true).
    { unfold Js.truthy. destruct (decide (q = "")) as [->|]; [by destruct Hp|done]. }
    cbv zeta. rewrite Hq. cbv iota. rewrite Hq. unfold Js.str. simpl.
    repeat case_bool_decide; simpl; intros; by simplify_eq.
  - cbv zeta. cbn [Js.truthy]. cbv iota.
    destruct (Js.split Js.is_colon action !! 1) as [q|] eqn:Hq.
    + assert (Hq' : Js.truthy (Some q) = true).
      { unfold Js.truthy. destruct (decide (q = "")) as [->|]; [by destruct H1|done]. }
      rewrite Hq'. unfold Js.str. simpl.
      repeat case_bool_decide; simpl; intros; by simplify_eq.
    + simpl. by intros [= <- <-].
Qed.

Lemma spec_attributes denied attributes :
  match attributes with
  | Undefined => True
  | Str s => oneName s
  | Arr l => l <> [] /\ Forall (fun a => Js.trim a = a) l
  end ->
  utils.toStringArray
    (if denied || utils.isEmptyArray attributes then Arr []
     else if negb (utils.truthyVal attributes) then Arr ["*"]
     else Arr (utils.toStringArray attributes))
  = specAttributes denied attributes.
Proof.
  unfold specAttributes. destruct denied; [done|]. cbn [orb].
  destruct attributes as [|s|l]; [done| |].
  - intros Hs. cbn [utils.isEmptyArray utils.truthyVal Js.truthy].
    destruct (decide (s = "")) as [->|Hne]; [done|].
    rewrite bool_decide_eq_false_2 by done. cbn [negb].
    cbn [utils.toStringArray]. fold (utils.toStringArray (Str s)).
    rewrite (oneName_toStringArray s Hs).
    destruct Hs as [Ht Hd]. rewrite split_no_sep by done. simpl. by rewrite Ht.
  - intros [Hne Hl]. destruct l as [|x l]; [done|].
    cbn [utils.isEmptyArray utils.truthyVal negb utils.toStringArray].
    symmetry. clear Hne. induction Hl as [|y l' Hy Hl IH]; [done|].
    simpl. rewrite Hy. f_equal. exact IH.
Qed.

Lemma spec_agrees item access g :
  canonicalRecord item ->
  utils.normalizeAccessInfo item true = Ok access ->
  specCommit g item = Some (grantsOfAccess access g).
Proof.
  intros (Hs & Hr & _ & _ & Hact & Hp & Hattr).
  unfold utils.normalizeAccessInfo. intros H.
  destruct (bool_decide _ || _) eqn:H1 in H; [done|].
  destruct (bool_decide _ || _) eqn:H2 in H; [done|].
  apply orb_false_iff in H2 as [H2 _]. apply bool_decide_eq_false in H2.
  destruct (utils.normalizeActionPossession _ _) as [[a p]|e] eqn:Hn in H;
    [|done].
  simpl in H. injection H as <-.
  unfold specCommit, grantsOfAccess. simpl.
  destruct (ai_action item) as [action|] eqn:Ha; [|done].
  apply spec_possession in Hn as [-> Hq]; [|done..].
  simpl. rewrite Hq. simpl. f_equal.
  rewrite spec_attributes by done.
  rewrite (canonical_names _ Hs), (canonical_names _ Hr) in *.
  destruct (specNames (ai_resource item)) as [|r rs]; [done|].
  generalize (specNames (ai_subject item)). intros l. revert g.
  induction l as [|s l IH]; intros g; [done|].
  simpl. rewrite createRole_grantOf. apply IH.
Qed.

Lemma flat_load_spec items :
  Forall canonicalRecord items ->
  forall o o', g_frozen o = false ->
    forEachG (fun item => utilsW.commitToGrants item true) items o
    = (Ok tt, o') ->
    foldl (fun acc item => g ← acc; specCommit g item) (Some (g_val o)) items
    = Some (g_val o').
Proof.
  induction 1 as [|item items Hc _ IH]; intros o o' Hfr.
  - by intros [= <-].
  - rewrite forEachG_cons, bindG_unfold.
    destruct (utilsW.commitToGrants item true o) as [[[]|err] o1] eqn:Hx;
      [|done].
    intros Hl. apply commitToGrants_gen in Hx as (access & Hn & Hv & Hf1);
      [|done].
    simpl. rewrite (spec_agrees _ _ _ Hc Hn), <- Hv. by apply IH.
Qed.

Lemma flat_load_specNested depth items g :
  Forall canonicalRecord items ->
  utilsW.getInspectedGrants depth (GArray items) = Ok g ->
  specNested items = Some g.
Proof.
  intros Hc. unfold utilsW.getInspectedGrants.
  destruct (forEachG _ _ _) as [[[]|err] o1] eqn:Hl; [|done].
  simpl. intros [= <-]. by apply (flat_load_spec _ Hc) in Hl.
Qed.

Lemma plain_check name : plainb name = true -> plain name.
Proof.
  unfold plainb, plain. intros H%negb_true_iff.
  by apply bool_decide_eq_false_1 in H.
Qed.

Lemma plainNames_check l : forallb plainb l = true -> plainNames l.
Proof.
  intros H name Hin. apply plain_check.
  apply list_elem_of_In in Hin. by apply (proj1 (forallb_forall _ _) H).
Qed.

Lemma plainGrants_check g : plainGrantsb g = true -> plainGrants g.
Proof.
  unfold plainGrantsb. intros H s role Hs.
  apply elem_of_map_to_list, list_elem_of_In in Hs.
  apply (proj1 (forallb_forall _ _) H) in Hs. cbv beta iota in Hs.
  apply andb_true_iff in Hs as [Hp Hrole]. split; [by apply plain_check|].
  split.
  - intros k [e Hk]. apply elem_of_map_to_list, list_elem_of_In in Hk.
    apply (proj1 (forallb_forall _ _) Hrole) in Hk. cbv beta iota in Hk.
    apply andb_true_iff in Hk as [Hk _]. by apply plain_check.
  - intros ext Hext. unfold utils.extendOf in Hext.
    destruct (role !! "_extend_") as [[l|o]|] eqn:Hk; [|done..].
    injection Hext as ->.
    apply elem_of_map_to_list, list_elem_of_In in Hk.
    apply (proj1 (forallb_forall _ _) Hrole) in Hk. cbv beta iota in Hk.
    apply andb_true_iff in Hk as [_ Hk]. by apply plainNames_check.
Qed.
(** ** The frame of the resolution over the heap *)

Lemma ref_keeps_refl n m h : Ref.keeps n m h h.
Proof. by repeat split. Qed.

Lemma ref_keeps_trans n m h1 h2 h3 :
  Ref.keeps n m h1 h2 -> Ref.keeps n m h2 h3 -> Ref.keeps n m h1 h3.
Proof.
  intros (Ha & Hq & Hla & Hlq) (Ha' & Hq' & Hla' & Hlq').
  split; [|split; [|split]].
  - intros a Hlt. by rewrite Ha', Ha.
  - intros q Hlt. by rewrite Hq', Hq.
  - lia.
  - lia.
Qed.

Lemma ref_bind_unfold {A B} (f : Ref.HM A) (k : A -> Ref.HM B) h :
  (f ≫= k) h
  = match f h with
    | (Ok a, h') => k a h'
    | (Throw e, h') => (Throw e, h')
    end.
Proof. reflexivity. Qed.

Lemma safe_ret {A} n m (Q : A -> Prop) x : Q x -> Ref.safe n m Q (mret x).
Proof.
  intros HQ h _ _. split; [apply ref_keeps_refl|]. by intros y [= <-].
Qed.

Lemma safe_throw {A} n m (Q : A -> Prop) e : Ref.safe n m Q (Ref.throwH e).
Proof. intros h _ _. split; [apply ref_keeps_refl|done]. Qed.

Lemma safe_bind {A B} n m (Q : A -> Prop) (R : B -> Prop) f k :
  Ref.safe n m Q f -> (forall x, Q x -> Ref.safe n m R (k x)) ->
  Ref.safe n m R (f ≫= k).
Proof.
  intros Hf Hk h Hn Hm. rewrite ref_bind_unfold.
  destruct (Hf h Hn Hm) as [Hkeep HQ].
  destruct (f h) as [[x|e] h1]; simpl in *; [|done].
  destruct Hkeep as (Ha & Hq & Hla & Hlq).
  destruct (Hk x (HQ x eq_refl) h1) as [Hkeep' HR]; [lia..|].
  split; [|done]. eapply ref_keeps_trans; [|exact Hkeep']. done.
Qed.

Lemma safe_weaken {A} n m (Q Q' : A -> Prop) f :
  (forall x, Q x -> Q' x) -> Ref.safe n m Q f -> Ref.safe n m Q' f.
Proof.
  intros HQ Hf h Hn Hm. destruct (Hf h Hn Hm) as [Hk Hx]. split; [done|].
  intros x Hr. by apply HQ, Hx.
Qed.

Lemma safe_if {A} n m (Q : A -> Prop) (b : bool) f g :
  Ref.safe n m Q f -> Ref.safe n m Q g ->
  Ref.safe n m Q (if b then f else g).
Proof. by destruct b. Qed.

Lemma safe_newArray n m l : Ref.safe n m (fun a => n <= a) (Ref.newArray l).
Proof.
  intros h Hn Hm. unfold Ref.newArray. cbv beta. simpl. split.
  - split; [|split; [|split]]; simpl; [|done|rewrite length_app; lia|done].
    intros a Hlt. apply lookup_app_l. lia.
  - by intros x [= <-].
Qed.

Lemma safe_readArray n m a : Ref.safe n m (fun _ => True) (Ref.readArray a).
Proof.
  intros h Hn Hm. unfold Ref.readArray. cbv beta.
  destruct (Ref.arrays h !! a); simpl; (split; [apply ref_keeps_refl|done]).
Qed.

Lemma safe_push n m a item :
  n <= a -> Ref.safe n m (fun _ => True) (Ref.push a item).
Proof.
  intros Ha h Hn Hm. unfold Ref.push. cbv beta.
  destruct (Ref.arrays h !! a); simpl; (split; [|done]);
    [|apply ref_keeps_refl].
  split; [|split; [|split]]; simpl; [|done|by rewrite length_insert|done].
  intros c Hlt. apply list_lookup_insert_ne. lia.
Qed.

Lemma safe_concat n m a : Ref.safe n m (fun c => n <= c) (Ref.concat a).
Proof.
  unfold Ref.concat. eapply safe_bind; [apply safe_readArray|].
  intros l _. apply safe_newArray.
Qed.

Lemma safe_clone n m q : Ref.safe n m (fun c => m <= c) (Ref.clone q).
Proof.
  intros h Hn Hm. unfold Ref.clone. cbv beta.
  destruct (Ref.records h !! q); simpl; [|split; [apply ref_keeps_refl|done]].
  split.
  - split; [|split; [|split]]; simpl; [done| |done|rewrite length_app; lia].
    intros c Hlt. apply lookup_app_l. lia.
  - by intros x [= <-].
Qed.

Lemma safe_readRecord n m q :
  Ref.safe n m (fun _ => True) (Ref.readRecord q).
Proof.
  intros h Hn Hm. unfold Ref.readRecord. cbv beta.
  destruct (Ref.records h !! q); simpl; (split; [apply ref_keeps_refl|done]).
Qed.

Lemma safe_writeRecord n m q f :
  m <= q -> Ref.safe n m (fun _ => True) (Ref.writeRecord q f).
Proof.
  intros Hq h Hn Hm. unfold Ref.writeRecord. cbv beta.
  destruct (Ref.records h !! q); simpl; (split; [|done]);
    [|apply ref_keeps_refl].
  split; [|split; [|split]]; simpl; [done| |done|by rewrite length_insert].
  intros c Hlt. apply list_lookup_insert_ne. lia.
Qed.

Lemma safe_forEachH {A} n m (f : A -> Ref.HM unit) l :
  (forall x, Ref.safe n m (fun _ => True) (f x)) ->
  Ref.safe n m (fun _ => True) (Ref.forEachH f l).
Proof.
  intros Hf. induction l as [|x l IH]; simpl.
  - by apply safe_ret.
  - eapply safe_bind; [apply Hf|]. intros _ _. apply IH.
Qed.

Lemma safe_foldH {A B} n m (Q : B -> Prop) (f : B -> A -> Ref.HM B) l :
  (forall b x, Q b -> Ref.safe n m Q (f b x)) ->
  forall b, Q b -> Ref.safe n m Q (Ref.foldH f l b).
Proof.
  intros Hf. induction l as [|x l IH]; intros b Hb; simpl.
  - by apply safe_ret.
  - eapply safe_bind; [by apply Hf|]. intros b' Hb'. by apply IH.
Qed.

Lemma safe_toStringArray n m v :
  Ref.safe n m (fun _ => True) (Ref.toStringArray v).
Proof.
  destruct v; simpl.
  - eapply safe_weaken; [|apply safe_newArray]. done.
  - eapply safe_weaken; [|apply safe_newArray]. done.
  - by apply safe_ret.
Qed.

Lemma safe_pushUniq n m arr item :
  n <= arr -> Ref.safe n m (fun r => n <= r) (Ref.pushUniq arr item).
Proof.
  intros Ha. unfold Ref.pushUniq.
  eapply safe_bind; [apply safe_readArray|]. intros l _.
  eapply (safe_bind _ _ (fun _ => True)); [|intros _ _; by apply safe_ret].
  apply safe_if; [by apply safe_ret|by apply safe_push].
Qed.

Lemma safe_uniqConcat n m arrA arrB :
  Ref.safe n m (fun r => n <= r) (Ref.uniqConcat arrA arrB).
Proof.
  unfold Ref.uniqConcat.
  eapply safe_bind; [apply safe_concat|]. intros arr Harr.
  eapply safe_bind; [apply safe_readArray|]. intros items _.
  eapply (safe_bind _ _ (fun _ => True)); [|intros _ _; by apply safe_ret].
  apply safe_forEachH. intros b.
  eapply safe_bind; [by apply safe_pushUniq|]. intros _ _. by apply safe_ret.
Qed.

Lemma safe_normalizeActionPossession n m info :
  m <= info ->
  Ref.safe n m (fun r => m <= r) (Ref.normalizeActionPossession info).
Proof.
  intros Hi. unfold Ref.normalizeActionPossession.
  eapply safe_bind; [apply safe_readRecord|]. intros r _.
  destruct (Ref.rq_action r) as [action|]; [|apply safe_throw].
  cbv zeta.
  eapply safe_bind; [by apply safe_writeRecord|]. intros _ _.
  repeat apply safe_if; try apply safe_throw.
  - eapply safe_bind; [by apply safe_writeRecord|]. intros _ _.
    by apply safe_ret.
  - eapply safe_bind; [by apply safe_writeRecord|]. intros _ _.
    by apply safe_ret.
Qed.

Lemma safe_normalizeQueryInfo n m query :
  Ref.safe n m (fun r => m <= r) (Ref.normalizeQueryInfo query).
Proof.
  unfold Ref.normalizeQueryInfo.
  eapply safe_bind; [apply safe_clone|]. intros q Hq.
  eapply safe_bind; [apply safe_readRecord|]. intros r _.
  eapply safe_bind; [apply safe_toStringArray|]. intros subject _.
  eapply safe_bind; [by apply safe_writeRecord|]. intros _ _.
  eapply safe_bind.
  { unfold Ref.isFilledStringArray.
    eapply safe_bind; [apply safe_readArray|]. intros l _.
    by apply (safe_ret n m (fun _ => True)). }
  intros filled _. apply safe_if.
  - eapply safe_bind; [apply safe_readArray|]. intros l _. apply safe_throw.
  - destruct (Ref.rq_resource r) as [res|]; [|apply safe_throw].
    apply safe_if; [apply safe_throw|].
    eapply safe_bind; [by apply safe_writeRecord|]. intros _ _.
    by apply safe_normalizeActionPossession.
Qed.

Lemma safe_getRoleHierarchyOf n m depth grants :
  forall subjectName rootRole,
    Ref.safe n m (fun r => n <= r)
      (Ref.getRoleHierarchyOf depth grants subjectName rootRole).
Proof.
  induction depth as [|depth IH]; intros subjectName rootRole; simpl.
  - destruct (grants !! subjectName) as [subject|]; [|apply safe_throw].
    eapply safe_bind; [apply safe_newArray|]. intros arr Harr.
    destruct (subject !! "_extend_") as [[e|o]|]; try by apply safe_ret.
    eapply safe_bind; [apply safe_readArray|]. intros names _.
    apply safe_foldH; [|done]. intros b x Hb.
    repeat apply safe_if; apply safe_throw.
  - destruct (grants !! subjectName) as [subject|]; [|apply safe_throw].
    eapply safe_bind; [apply safe_newArray|]. intros arr Harr.
    destruct (subject !! "_extend_") as [[e|o]|]; try by apply safe_ret.
    eapply safe_bind; [apply safe_readArray|]. intros names _.
    apply safe_foldH; [|done]. intros b x Hb.
    repeat apply safe_if; try apply safe_throw.
    eapply safe_bind; [apply IH|]. intros ext _. apply safe_uniqConcat.
Qed.

Lemma safe_getFlatRoles n m depth grants subjects :
  Ref.safe n m (fun r => n <= r) (Ref.getFlatRoles depth grants subjects).
Proof.
  unfold Ref.getFlatRoles.
  eapply safe_bind; [apply safe_toStringArray|]. intros arrRoles _.
  eapply safe_bind; [apply safe_readArray|]. intros names _.
  apply safe_if; [apply safe_throw|].
  eapply safe_bind; [apply safe_newArray|]. intros empty _.
  eapply safe_bind; [apply safe_uniqConcat|]. intros arr Harr.
  apply safe_foldH; [|done]. intros b x Hb.
  eapply safe_bind; [apply safe_getRoleHierarchyOf|]. intros h _.
  apply safe_uniqConcat.
Qed.

Lemma safe_writeArray n m a l :
  n <= a -> Ref.safe n m (fun _ => True) (Ref.writeArray a l).
Proof.
  intros Ha h Hn Hm. unfold Ref.writeArray. cbv beta.
  destruct (Ref.arrays h !! a); simpl; (split; [|done]);
    [|apply ref_keeps_refl].
  split; [|split; [|split]]; simpl; [|done|by rewrite length_insert|done].
  intros c Hlt. apply list_lookup_insert_ne. lia.
Qed.

Lemma safe_callUnion union n m a b :
  n <= a -> n <= b ->
  Ref.safe n m (fun r => n <= r) (Ref.callUnion union a b).
Proof.
  intros Ha Hb. unfold Ref.callUnion.
  eapply safe_bind; [apply safe_readArray|]. intros la _.
  eapply safe_bind; [apply safe_readArray|]. intros lb _. cbv zeta.
  eapply safe_bind; [by apply safe_writeArray|]. intros _ _.
  eapply safe_bind; [by apply safe_writeArray|]. intros _ _.
  destruct (Ref.ue_result (union la lb)).
  - apply safe_newArray.
  - by apply safe_ret.
  - by apply safe_ret.
  - apply safe_throw.
Qed.

Lemma safe_getUnionAttrsOfRoles union n m depth grants query :
  Ref.safe n m (fun r => n <= r)
    (Ref.getUnionAttrsOfRoles union depth grants query).
Proof.
  unfold Ref.getUnionAttrsOfRoles.
  eapply safe_bind; [apply safe_normalizeQueryInfo|]. intros q' _.
  eapply safe_bind; [apply safe_readRecord|]. intros q _.
  eapply safe_bind; [apply safe_getFlatRoles|]. intros subjects _.
  eapply safe_bind; [apply safe_readArray|]. intros names _.
  eapply (safe_bind _ _ (Forall (fun a => n <= a))).
  - apply safe_foldH; [|done]. intros attrsList subjectName Hl.
    destruct (grants !! subjectName) as [subject|]; [|apply safe_throw].
    destruct (subject !! _) as [resource|]; [|by apply safe_ret].
    cbv zeta.
    eapply (safe_bind _ _ (fun _ => True)).
    { destruct resource as [e|o].
      - eapply safe_weaken; [|apply safe_newArray]. done.
      - repeat case_match; try by apply safe_ret.
        eapply safe_weaken; [|apply safe_newArray]. done. }
    intros found _.
    eapply safe_bind; [apply safe_concat|]. intros copy Hcopy.
    apply safe_ret. apply Forall_app. split; [done|]. by constructor.
  - intros attrsList Hl. destruct Hl as [|attrs rest Hattrs Hrest].
    + apply safe_newArray.
    + revert attrs Hattrs.
      induction Hrest as [|next rest Hnext Hrest IH]; intros attrs Hattrs;
        simpl.
      * by apply safe_ret.
      * eapply safe_bind; [by apply safe_callUnion|]. apply IH.
Qed.

Lemma ref_deref_keeps n m h h' (grants : gmap string (gmap string Ref.REntry)) :
  n = length (Ref.arrays h) ->
  Ref.keeps n m h h' -> Ref.wf h grants ->
  Ref.deref h' grants = Ref.deref h grants.
Proof.
  intros -> (Ha & _) Hwf. unfold Ref.deref.
  apply map_eq. intros s. rewrite !lookup_fmap.
  destruct (grants !! s) as [role|] eqn:Hs; [|done]. simpl. f_equal.
  apply map_eq. intros k. rewrite !lookup_fmap.
  destruct (role !! k) as [e|] eqn:Hk; [|done]. simpl. f_equal.
  specialize (Hwf s role k e Hs Hk). destruct e as [a|o]; simpl.
  - by rewrite Ha.
  - f_equal. apply map_eq. intros ap. rewrite !lookup_fmap.
    destruct (o !! ap) as [a|] eqn:Hap; [|done]. simpl.
    by rewrite Ha by eauto.
Qed.
(** ** Worlds made by the library alone *)

Lemma plainHeap_check w :
  forallb (fun o => plainGrantsb (g_val o)) (heap w) = true -> plainHeap w.
Proof.
  intros H. apply Forall_forall. intros o Ho%list_elem_of_In.
  apply plainGrants_check. by apply (proj1 (forallb_forall _ _) H).
Qed.

Lemma madeHere_plain depth w l o :
  madeHere depth w -> heap w !! l = Some o -> plainGrants (g_val o).
Proof.
  intros Hm Ho.
  assert (Hp : plainHeap w).
  { eapply (rtc_ind_r (fun w => plainHeap w)); [| |exact Hm].
    - by apply plainHeap_check.
    - by intros w1 w2 _ [_ Hp] _. }
  by apply (proj1 (Forall_lookup _ _) Hp l o).
Qed.

Ltac plain_args :=
  repeat split; try (by apply plainNames_check).

Ltac own_mut m :=
  split; [apply (ownStep_mutator _ m);
            [intros ? ?; discriminate | plain_args]
         |apply plainHeap_check; vm_compute; reflexivity].

Ltac own_call c this :=
  split; [apply (ownStep_builder _ c this); [vm_compute; lia | plain_args]
         |apply plainHeap_check; vm_compute; reflexivity].

Lemma madeHere_worldAdmin : madeHere 8 worldAdmin.
Proof.
  assert (Hw : worldAdmin
    = runBuilder 8 (BCommit (Some "create") (Some "any") (Str "profile")
                      Undefined)
        {| a_ := setSubject emptyAccess (Str "admin"); a_grants := 0 |}
        (runMutator 8 (MGrant (ASubject (Str "admin"))) world0).2)
    by (vm_compute; reflexivity).
  rewrite Hw. eapply rtc_l; [own_mut (MGrant (ASubject (Str "admin")))|].
  eapply rtc_l; [|apply rtc_refl].
  own_call (BCommit (Some "create") (Some "any") (Str "profile") Undefined)
           {| a_ := setSubject emptyAccess (Str "admin"); a_grants := 0 |}.
Qed.

Lemma madeHere_worldRolesAB : madeHere 8 worldRolesAB.
Proof.
  unfold worldRolesAB. eapply rtc_l; [|apply rtc_refl].
  own_mut (MGrant (ASubject (Arr ["a"; "b"]))).
Qed.

Lemma worldRolesAB_heap : heap worldRolesAB !! 0 = Some objAB.
Proof. vm_compute. reflexivity. Qed.

Lemma madeHere_worldExt : madeHere 8 (worldExt 8).
Proof.
  assert (Hw : worldExt 8
    = (runMutator 8 (MExtendRole (Str "A") (Arr ["B"]) false)
         (runBuilder 8 (BCommit (Some "create") (Some "any") (Str "r")
                          Undefined)
            {| a_ := setSubject emptyAccess (Str "B"); a_grants := 0 |}
            (runMutator 8 (MGrant (ASubject (Str "B")))
               (runBuilder 8 (BCommit (Some "create") (Some "any") (Str "r")
                                Undefined)
                  {| a_ := setSubject emptyAccess (Str "A"); a_grants := 0 |}
                  (runMutator 8 (MGrant (ASubject (Str "A"))) world0).2)).2)).2)
    by (vm_compute; reflexivity).
  rewrite Hw.
  eapply rtc_l; [own_mut (MGrant (ASubject (Str "A")))|].
  eapply rtc_l;
    [own_call (BCommit (Some "create") (Some "any") (Str "r") Undefined)
       {| a_ := setSubject emptyAccess (Str "A"); a_grants := 0 |}|].
  eapply rtc_l; [own_mut (MGrant (ASubject (Str "B")))|].
  eapply rtc_l;
    [own_call (BCommit (Some "create") (Some "any") (Str "r") Undefined)
       {| a_ := setSubject emptyAccess (Str "B"); a_grants := 0 |}|].
  eapply rtc_l; [|apply rtc_refl].
  own_mut (MExtendRole (Str "A") (Arr ["B"]) false).
Qed.

Lemma madeHere_worldAB : madeHere 8 (worldAB 8).
Proof.
  assert (Hw : worldAB 8
    = (runMutator 8 (MExtendRole (Str "a") (Arr ["b"]) false)
         (runBuilder 8 (BCommit (Some "create") (Some "any") (Str "r")
                          Undefined)
            {| a_ := setSubject emptyAccess (Str "b"); a_grants := 0 |}
            (runMutator 8 (MGrant (ASubject (Str "b")))
               (runBuilder 8 (BCommit (Some "create") (Some "any") (Str "r")
                                Undefined)
                  {| a_ := setSubject emptyAccess (Str "a"); a_grants := 0 |}
                  (runMutator 8 (MGrant (ASubject (Str "a"))) world0).2)).2)).2)
    by (vm_compute; reflexivity).
  rewrite Hw.
  eapply rtc_l; [own_mut (MGrant (ASubject (Str "a")))|].
  eapply rtc_l;
    [own_call (BCommit (Some "create") (Some "any") (Str "r") Undefined)
       {| a_ := setSubject emptyAccess (Str "a"); a_grants := 0 |}|].
  eapply rtc_l; [own_mut (MGrant (ASubject (Str "b")))|].
  eapply rtc_l;
    [own_call (BCommit (Some "create") (Some "any") (Str "r") Undefined)
       {| a_ := setSubject emptyAccess (Str "b"); a_grants := 0 |}|].
  eapply rtc_l; [|apply rtc_refl].
  own_mut (MExtendRole (Str "a") (Arr ["b"]) false).
Qed.

Lemma inheritOK_worldAB : inheritOK 8 (store (worldAB 8)).
Proof.
  assert (Hst : store (worldAB 8)
                = <["a" := {["r" := EObj {["create:any" := ["*"]]};
                             "_extend_" := EArr ["b"]]}]>
                    (<["b" := {["r" := EObj {["create:any" := ["*"]]}]}]>
                       (∅ : Grants))).
  { apply map_eq. intros k. vm_compute. reflexivity. }
  rewrite Hst. exists (fun s => if decide (s = "a") then 1 else 0).
  intros s role ext e Hs Hext He.
  apply lookup_insert_Some in Hs as [[<- <-]|[_ Hs]].
  - vm_compute in Hext. injection Hext as <-.
    apply list_elem_of_singleton in He as ->.
    split; [by vm_compute; eexists|]. split; vm_compute; lia.
  - apply lookup_insert_Some in Hs as [[<- <-]|[_ Hs]];
      [by vm_compute in Hext|by rewrite lookup_empty in Hs].
Qed.
(** ** The nested mapping of a flat list loads *)

Lemma forEachG_all_Ok {A} (f : A -> GM unit) l o :
  (forall x, x ∈ l -> f x o = (Ok tt, o)) -> forEachG f l o = (Ok tt, o).
Proof.
  induction l as [|x l IH]; intros H; [done|].
  rewrite forEachG_cons, bindG_unfold, (H x) by (by left).
  apply IH. intros y Hy. apply H. by right.
Qed.

Lemma validResourceObject_pass d :
  (forall ap l, d !! ap = Some l ->
     l = [] \/ utils.isFilledStringArray l = true) ->
  utils.validResourceObject (EObj d) = Ok true.
Proof.
  intros H. unfold utils.validResourceObject.
  assert (Hl : forall ap l, (ap, l) ∈ map_to_list d ->
                 l = [] \/ utils.isFilledStringArray l = true).
  { intros ap l Hin. apply elem_of_map_to_list in Hin. by eapply H. }
  clear H. induction (map_to_list d) as [|[ap l] L IH]; [done|].
  cbn [forEachR].
  destruct (Hl ap l) as [->|Hf]; [by left| |].
  - simpl. apply IH. intros ap' l' Hin. apply (Hl ap' l'). by right.
  - rewrite Hf. rewrite andb_false_r. simpl.
    apply IH. intros ap' l' Hin. apply (Hl ap' l'). by right.
Qed.

Lemma goodName_validName_throw name :
  goodName name -> utils.validName name true = Ok true.
Proof.
  intros [Hb Hr]. unfold utils.validName. rewrite Hb.
  by rewrite (proj2 (includes_false _ _) Hr).
Qed.

Lemma validRoleObject_pass depth s o :
  goodStore (g_val o) -> allObj (g_val o) -> filledStore (g_val o) ->
  is_Some (g_val o !! s) ->
  utilsW.validRoleObject depth s o = (Ok true, o).
Proof.
  intros Hg Ha Hf [role Hs]. unfold utilsW.validRoleObject.
  rewrite bind_getG, Hs, bindG_unfold.
  rewrite forEachG_all_Ok; [done|].
  intros k Hk. apply list_elem_of_fmap in Hk as ([k' e] & Heq & Hin).
  simpl in Heq. subst k'. apply elem_of_map_to_list in Hin.
  destruct (Ha s role k e Hs Hin) as [d ->].
  destruct (Hg s role Hs) as [_ Hkeys].
  pose proof (Hkeys k (EObj d) Hin) as Hname. simpl in Hname.
  rewrite (goodName_validName k Hname), bind_liftR_Ok, bind_getG.
  cbn [negb]. rewrite Hs. cbn [from_option id]. rewrite Hin.
  rewrite (validResourceObject_pass d); [done|].
  intros ap l Hl. by eapply Hf.
Qed.

Lemma nested_load_Ok depth (g : Grants) :
  goodStore g -> allObj g -> filledStore g ->
  utilsW.getInspectedGrants depth (GObject g) = Ok g.
Proof.
  intros Hg Ha Hf. unfold utilsW.getInspectedGrants.
  rewrite forEachG_all_Ok; [done|].
  intros s Hs. apply list_elem_of_fmap in Hs as ([s' role] & Heq & Hin).
  simpl in Heq. subst s. apply elem_of_map_to_list in Hin.
  destruct (Hg s' role Hin) as [Hname _].
  rewrite (goodName_validName_throw s' Hname), bind_liftR_Ok, bindG_unfold.
  rewrite validRoleObject_pass; [done..|]. by eexists.
Qed.

Lemma filledStore_createRole g s : filledStore g -> filledStore (createRole g s).
Proof.
  intros Hg. unfold createRole. destruct (utils.has g s); [done|].
  intros s' role r d ap l Hs Hr Hl.
  destruct (decide (s = s')) as [<-|Hne].
  - rewrite lookup_insert_eq in Hs. injection Hs as <-.
    by rewrite lookup_empty in Hr.
  - rewrite lookup_insert_ne in Hs by done. by eapply Hg.
Qed.

Lemma filledStore_grantOf s r ap attrs g :
  attrs = [] \/ utils.isFilledStringArray attrs = true ->
  filledStore g -> filledStore (grantOf s r ap attrs g).
Proof.
  intros Hattrs Hg s' role r' d ap' l. unfold grantOf.
  destruct (decide (s = s')) as [<-|Hne];
    [|rewrite lookup_insert_ne by done; by apply Hg].
  rewrite lookup_insert_eq. intros [= <-].
  destruct (decide (r = r')) as [<-|Hr].
  - rewrite lookup_insert_eq. intros [= <-].
    destruct (decide (ap = ap')) as [<-|Hap].
    + rewrite lookup_insert_eq. by intros [= <-].
    + rewrite lookup_insert_ne by done. intros Hl.
      destruct (g !! s) as [role|] eqn:Hs; cbn [from_option id] in Hl.
      * destruct (role !! r) as [[?|d]|] eqn:Hrr;
          try by rewrite lookup_empty in Hl.
        by eapply Hg.
      * by rewrite lookup_empty in Hl.
  - rewrite lookup_insert_ne by done.
    destruct (g !! s) as [role|] eqn:Hs; cbn [from_option id].
    + intros Hrr Hl. by eapply Hg.
    + by rewrite lookup_empty.
Qed.

Lemma trimmed_not_blank a : Js.trim a = a -> a <> "" -> Js.blank a = false.
Proof.
  intros Ht Hne. unfold Js.blank. rewrite Ht. by destruct (decide (a = "")).
Qed.

Lemma specAttributes_filled item :
  canonicalRecord item -> noBlankAttribute item ->
  let attrs := specAttributes (ai_denied item) (ai_attributes item) in
  attrs = [] \/ utils.isFilledStringArray attrs = true.
Proof.
  intros (_ & _ & _ & _ & _ & _ & Hattr) Hnb. unfold specAttributes.
  cbv zeta. destruct (ai_denied item); [by left|]. right.
  unfold noBlankAttribute in Hnb.
  destruct (ai_attributes item) as [|s|l]; [done| |].
  - case_bool_decide as Hs; [done|]. destruct Hattr as [Ht Hd].
    rewrite split_no_sep by done. simpl. rewrite Ht.
    by rewrite (trimmed_not_blank s Ht Hs).
  - destruct Hattr as [Hne Hl]. destruct l as [|x l]; [done|].
    clear Hne. revert Hnb Hl. generalize (x :: l). clear. intros l Hnb Hl.
    induction Hl as [|a l Ha Hl IH]; [done|].
    simpl. rewrite Ha.
    rewrite (trimmed_not_blank a Ha) by (intros ->; apply Hnb; by left).
    simpl. apply IH. intros Hin. apply Hnb. by right.
Qed.

Lemma filledStore_foldl_grantOf s ap attrs rs :
  attrs = [] \/ utils.isFilledStringArray attrs = true ->
  forall g, filledStore g ->
    filledStore (foldl (fun g r => grantOf s r ap attrs g) g rs).
Proof.
  intros Hattrs. induction rs as [|r rs IH]; intros g Hg; [done|].
  simpl. apply IH. by apply filledStore_grantOf.
Qed.

Lemma specCommit_filled g g' item :
  canonicalRecord item -> noBlankAttribute item ->
  filledStore g -> specCommit g item = Some g' -> filledStore g'.
Proof.
  intros Hc Hnb Hg. unfold specCommit.
  destruct (ai_action item) as [action|]; [|done]. simpl.
  destruct (specPossession action (ai_possession item)) as [p|]; [|done].
  simpl. intros [= <-].
  pose proof (specAttributes_filled item Hc Hnb) as Hattrs. cbv zeta in Hattrs.
  revert Hattrs. generalize (specAttributes (ai_denied item) (ai_attributes item)).
  generalize (specNames (ai_resource item)). intros rs attrs Hattrs.
  revert g Hg. induction (specNames (ai_subject item)) as [|s l IH];
    intros g Hg; [done|].
  simpl. apply IH. apply filledStore_foldl_grantOf; [done|].
  by apply filledStore_createRole.
Qed.

Lemma specNested_filled items :
  Forall canonicalRecord items -> Forall noBlankAttribute items ->
  forall g0 g, filledStore g0 ->
    foldl (fun acc item => g ← acc; specCommit g item) (Some g0) items
    = Some g ->
    filledStore g.
Proof.
  intros Hc. induction Hc as [|item items Hitem _ IH]; intros Hnb g0 g Hg0.
  - by intros [= <-].
  - apply Forall_cons in Hnb as [Hn Hnb]. simpl.
    destruct (specCommit g0 item) as [g1|] eqn:H1.
    + apply IH; [done|]. by eapply specCommit_filled.
    + intros H. exfalso. clear -H.
      induction items as [|x l IHl]; [done|]. by apply IHl.
Qed.
(** ** Grant, query, deny, query: the scenario of the documentation *)

(** C1.  On a new [AccessControl] (an empty store),
    [grant('admin').createAny('profile')] makes
    [can('admin').createAny('profile')] a permission with [granted] true
    and attributes [['*']]: the attributes of a grant default to [['*']].
    After [deny('admin').createAny('profile')] the same query gives
    [granted] false and the attributes [[]]: the denial has overwritten the
    entry with the empty list. *)
Theorem C1_grant_then_deny_admin_profile :
  forall (union : list string -> list string -> list string) (depth : nat),
  let w0 := (AccessControl.new depth (GObject ∅)).2 in
  exists a a' w1 w2 q p q' d d' w3 w4 q2 p2 q2',
    store w0 = ∅
    /\ AccessControl.grant (ASubject (Str "admin")) w0 = (Ok a, w1)
    /\ Access.createAny (Str "profile") Undefined a w1 = (Ok tt, a', w2)
    /\ AccessControl.can (QSubject (Str "admin")) w2 = (Ok q, w2)
    /\ Query.createAny union depth (Some "profile") q w2 = (Ok p, q', w2)
    /\ granted p = true /\ attributes p = ["*"]
    /\ AccessControl.deny (ASubject (Str "admin")) w2 = (Ok d, w3)
    /\ Access.createAny (Str "profile") Undefined d w3 = (Ok tt, d', w4)
    /\ AccessControl.can (QSubject (Str "admin")) w4 = (Ok q2, w4)
    /\ Query.createAny union depth (Some "profile") q2 w4 = (Ok p2, q2', w4)
    /\ granted p2 = false /\ attributes p2 = []
    /\ store w4 = {[ "admin" := {[ "profile" := EObj {[ "create:any" := [] ]} ]} ]}.
Proof.
  intros union [|depth] w0; do 14 eexists;
    do 13 (split; [vm_compute; reflexivity|]);
    vm_compute; reflexivity.
Qed.

(** ** Query resolution leaves the store *)


(** ** Locking *)

(** C9.  [lock()] is idempotent: on a non-empty store the first call
    succeeds and locks, a second call succeeds and returns the very same
    world (the store and [isLocked] are unchanged), so every operation
    behaves after two calls as after one; in particular every mutator of
    the facade fails with the same locked-state error and changes
    nothing. *)
Theorem C9_lock_is_idempotent :
  forall (depth : nat) (w : World),
    store w ≠ ∅ ->
    exists w1,
      AccessControl.lock w = (Ok tt, w1)
      /\ AccessControl.lock w1 = (Ok tt, w1)
      /\ AccessControl.isLocked w1 = true
      /\ store w1 = store w
      /\ (forall m,
            runMutator depth m (AccessControl.lock w1).2
            = runMutator depth m w1
            /\ runMutator depth m w1 = (acThrow ERR_LOCK, w1)).
Proof.
  intros depth w Hne.
  destruct (lockAC_success w Hne) as (w1 & Hl & Hlk & Hst & Hg).
  exists w1. unfold AccessControl.lock.
  assert (lockAC w1 = (Ok tt, w1)) as Hl1.
  { destruct (lockAC_success w1) as (w2 & Hl2 & _); [congruence|].
    pose proof (lockAC_locked w1 Hlk) as H2. rewrite Hl2 in H2 |- *.
    simpl in H2. by subst. }
  repeat split; try done.
  - by rewrite Hl1.
  - by apply runMutator_locked.
Qed.

Lemma C9_lock_is_idempotent_witness :
  store worldAdmin ≠ ∅
  /\ exists w1, AccessControl.lock worldAdmin = (Ok tt, w1)
                /\ AccessControl.lock w1 = (Ok tt, w1).
Proof.
  assert (store worldAdmin ≠ ∅) as H by (vm_compute; discriminate).
  split; [exact H|].
  destruct (C9_lock_is_idempotent 8 worldAdmin H) as (w1 & H1 & H2 & _).
  by exists w1.
Defined.




(** ** The own/any fallback *)

(** C2 as stated fails when the list under ['read:any'] is empty, as after
    a denial: [deny('user').readAny('post')] leaves the key ['read:any']
    and no ['read:own'], and [can('user').readOwn('post')] is not
    granted. *)
Lemma C2_empty_any_counterexample :
  exists d d' w1 w2 q p q',
    AccessControl.deny (ASubject (Str "user")) world0 = (Ok d, w1)
    /\ Access.readAny (Str "post") Undefined d w1 = (Ok tt, d', w2)
    /\ store w2 = {[ "user" := {[ "post" := EObj {[ "read:any" := [] ]} ]} ]}
    /\ AccessControl.can (QSubject (Str "user")) w2 = (Ok q, w2)
    /\ Query.readOwn concatUnion 8 (Some "post") q w2 = (Ok p, q', w2)
    /\ granted p = false.
Proof.
  do 7 eexists.
  do 5 (split; [vm_compute; reflexivity|]).
  vm_compute; reflexivity.
Qed.

(** C2 (amended).  In a store where no role of the flattened hierarchy of
    [X] has a ['read:own'] key on [R], [can(X).readOwn(R)] resolves exactly
    as [can(X).readAny(R)]: the same permission (attributes, granted) or
    the same error.  When [X] is a single role that inherits from none and
    holds ['read:any'] but not ['read:own'] on [R], both give the list
    stored under ['read:any'], and [granted] is true exactly when that list
    is not empty. *)
Theorem C2_readOwn_falls_back_to_readAny :
  forall (union : list string -> list string -> list string) (depth : nat)
         (w : World) (X R : string) (q : QueryT),
    AccessControl.can (QSubject (Str X)) w = (Ok q, w) ->
    ((forall roles s role o,
        utils.getFlatRoles depth (store w) (Arr (utils.toStringArray (Str X)))
          = Ok roles ->
        s ∈ roles -> store w !! s = Some role ->
        role !! Js.trim R = Some (EObj o) -> o !! "read:own" = None) ->
     (Query.readOwn union depth (Some R) q w).1.1
     = (Query.readAny union depth (Some R) q w).1.1)
    /\ (forall role o l,
          utils.toStringArray (Str X) = [X] ->
          Js.blank X = false -> Js.blank R = false ->
          store w !! X = Some role ->
          default [] (utils.extendOf role) = [] ->
          role !! Js.trim R = Some (EObj o) ->
          o !! "read:any" = Some l -> o !! "read:own" = None ->
          exists p,
            (Query.readOwn union depth (Some R) q w).1.1 = Ok p
            /\ (Query.readAny union depth (Some R) q w).1.1 = Ok p
            /\ attributes p = l
            /\ granted p = negb (bool_decide (l = []))).
Proof.
  intros union depth w X R q Hcan.
  unfold AccessControl.can, Query.new in Hcan. simpl in Hcan.
  injection Hcan as <-.
  unfold Query.readOwn, Query.readAny, Query._getPermission, atRef, readG.
  cbn [q_ q_grants qi_subject qi_resource].
  split.
  - intros H. unfold store in H.
    destruct (heap w !! _grants w) as [o0|] eqn:Ho0; [|done].
    rewrite !bind_getG. unfold liftR. cbn [fst snd]. simpl in H.
    unfold Permission_new.
    destruct (Js.truthy (Some R)) eqn:HR.
    + rewrite (getUnionAttrsOfRoles_own_any union depth (g_val o0) (Str X)
                 (Some R)); [|exact H].
      destruct (utils.getUnionAttrsOfRoles _ _ _ _); [|done].
      cbn [mbind Result_bind]. rewrite !normalizeQueryInfo_read by auto.
      destruct (negb _); [done|]. by destruct (Js.blank R).
    + unfold utils.getUnionAttrsOfRoles.
      rewrite !normalizeQueryInfo_read by auto.
      by destruct (negb _).
  - intros role o l HX HbX HbR Hrole Hext Hres Hany Hown.
    unfold store in Hrole.
    destruct (heap w !! _grants w) as [o0|] eqn:Ho0; [|done].
    simpl in Hrole. rewrite !bind_getG. unfold liftR. cbn [fst snd].
    assert (Js.truthy (Some R) = true) as ->.
    { unfold Js.truthy. destruct (decide (R = "")) as [->|]; [done|done]. }
    rewrite (Permission_new_leaf union depth (g_val o0) X R role o l "own")
      by auto.
    rewrite (Permission_new_leaf union depth (g_val o0) X R role o l "any")
      by (auto || done).
    eexists. repeat split.
Qed.

Lemma C2_readOwn_falls_back_to_readAny_witness :
  exists q p,
    AccessControl.can (QSubject (Str "user")) worldRead = (Ok q, worldRead)
    /\ store worldRead
       = {[ "user" := {[ "post" := EObj {[ "read:any" := ["*"] ]} ]} ]}
    /\ (Query.readOwn concatUnion 8 (Some "post") q worldRead).1.1
       = (Query.readAny concatUnion 8 (Some "post") q worldRead).1.1
    /\ (Query.readOwn concatUnion 8 (Some "post") q worldRead).1.1 = Ok p
    /\ (Query.readAny concatUnion 8 (Some "post") q worldRead).1.1 = Ok p
    /\ attributes p = ["*"]
    /\ granted p = true.
Proof.
  assert (Hst : store worldRead
                = {[ "user" := {[ "post" := EObj {[ "read:any" := ["*"] ]} ]} ]})
    by (vm_compute; reflexivity).
  assert (Ht : Js.trim "post" = "post") by (vm_compute; reflexivity).
  set (q := {| q_ := {| qi_subject := Str "user"; qi_resource := None;
                        qi_action := None; qi_possession := None |};
               q_grants := _grants worldRead |}).
  assert (Hcan : AccessControl.can (QSubject (Str "user")) worldRead
                 = (Ok q, worldRead)) by reflexivity.
  destruct (C2_readOwn_falls_back_to_readAny concatUnion 8 worldRead
              "user" "post" q Hcan) as [Hsame Hleaf].
  assert (Hrole : store worldRead !! "user"
                  = Some {[ "post" := EObj {[ "read:any" := ["*"] ]} ]})
    by (by rewrite Hst, lookup_singleton_eq).
  assert (Hres : ({[ "post" := EObj {[ "read:any" := ["*"] ]} ]}
                    : gmap string Entry) !! Js.trim "post"
                 = Some (EObj {[ "read:any" := ["*"] ]}))
    by (by rewrite Ht, lookup_singleton_eq).
  destruct (Hleaf _ _ ["*"] ltac:(vm_compute; reflexivity)
              ltac:(vm_compute; reflexivity) ltac:(vm_compute; reflexivity)
              Hrole ltac:(vm_compute; reflexivity) Hres
              ltac:(vm_compute; reflexivity) ltac:(vm_compute; reflexivity))
    as (p & Hown & Hany & Hattrs & Hgranted).
  exists q, p. split; [exact Hcan|]. split; [exact Hst|].
  split; [|by repeat split].
  apply Hsame. intros roles s role o Hflat Hs Hrole' Hres'.
  rewrite Hst in Hflat. vm_compute in Hflat. injection Hflat as <-.
  apply list_elem_of_singleton in Hs. subst s.
  rewrite Hrole in Hrole'. injection Hrole' as <-.
  rewrite Hres in Hres'. injection Hres' as <-.
  reflexivity.
Defined.
(** ** Cycle rejection *)

(** C4 as stated fails.  In a store a program can reach, the inheritance
    list of [a] may name a role that is gone: [removeRoles(['x', 'ghost'])]
    throws at ['ghost'] after it has deleted ['x'], before it prunes the
    lists.  There [extendRole('a', ['b'])] returns, and
    [extendRole('b', ['a'])] fails with "Subject not found", not with the
    cross-inheritance error. *)
Lemma C4_dangling_extender_counterexample :
  exists w1,
    reachable 8 worldDangling
    /\ is_Some (store worldDangling !! "a")
    /\ is_Some (store worldDangling !! "b")
    /\ utils.extendOf (default ∅ (store worldDangling !! "a")) = Some ["x"]
    /\ store worldDangling !! "x" = None
    /\ AccessControl.extendRole 8 (Str "a") (Arr ["b"]) false worldDangling
       = (Ok tt, w1)
    /\ AccessControl.extendRole 8 (Str "b") (Arr ["a"]) false w1
       = (acThrow (SubjectNotFound "undefined"), w1).
Proof.
  eexists. split.
  - exists (GObject ∅). unfold worldDangling.
    eapply rtc_l; [apply step_mutator|].
    eapply rtc_l; [apply step_mutator|].
    eapply rtc_l; [apply step_mutator|]. apply rtc_refl.
  - split; [by vm_compute; eexists|]. split; [by vm_compute; eexists|].
    do 3 (split; [vm_compute; reflexivity|]).
    vm_compute; reflexivity.
Qed.

(** C4 (amended).  In a store with roles [a] and [b], in which no name
    is a name of [Object.prototype], after a successful
    [extendRole(a, [b])] the call [extendRole(b, [a])] always fails and
    the world after it is the world before it.  The error is the
    cross-inheritance error naming [a] and [b] whenever the hierarchy of
    [a] resolves, as it does when the inheritance lists name existing
    roles without a cycle in chains within the call stack ([inheritOK]);
    otherwise it is the error met while resolving that hierarchy, such as
    "Subject not found" for a name left in a list by a failed removal. *)
Theorem C4_cross_inheritance_rejected :
  forall (depth : nat) (w w1 : World) (a b : string) (replace : bool),
    utils.toStringArray (Str a) = [a] ->
    utils.toStringArray (Str b) = [b] ->
    plainGrants (store w) ->
    AccessControl.extendRole depth (Str a) (Arr [b]) false w = (Ok tt, w1) ->
    (exists e,
       AccessControl.extendRole depth (Str b) (Arr [a]) replace w1
       = (Throw e, w1)
       /\ (e = AccessControlError (CrossInheritance a b)
           \/ utils.getRoleHierarchyOf depth (store w1) a None = Throw e))
    /\ (inheritOK depth (store w1) ->
        AccessControl.extendRole depth (Str b) (Arr [a]) replace w1
        = (acThrow (CrossInheritance a b), w1)).
Proof.
  intros depth w w1 a b replace Ha Hb _ H1.
  unfold AccessControl.extendRole in H1.
  destruct (AccessControl.isLocked w) eqn:Hlk; [done|].
  unfold atRef in H1.
  destruct (heap w !! _grants w) as [o|] eqn:Ho; [|done].
  destruct (utilsW.extendRole depth (Str a) (Arr [b]) false o)
    as [r o1] eqn:He.
  injection H1 as -> <-.
  destruct (extendRole_single_Ok depth (Str a) a b false o o1 Ha He)
    as (Hfr & Hsb & [ra Hra] & Hab & Hane & l & Hbl & ->).
  set (o1 := {| g_val := utilsW.setEntry a "_extend_" (EArr l) (g_val o);
                g_frozen := false |}) in *.
  set (w1 := {| heap := <[_grants w:=o1]> (heap w); _grants := _grants w;
                _isLocked := _isLocked w |}) in *.
  assert (heap w1 !! _grants w1 = Some o1) as Ho1.
  { simpl. apply list_lookup_insert_eq. by eapply lookup_lt_Some. }
  assert (store w1 = g_val o1) as Hst by (unfold store; by rewrite Ho1).
  assert (g_val o1 !! a = Some (<["_extend_" := EArr l]> ra)) as Hra1
    by (by apply setEntry_lookup).
  assert (utils.extendOf (<["_extend_" := EArr l]> ra) = Some l) as Hext.
  { unfold utils.extendOf. by rewrite lookup_insert_eq. }
  assert (AccessControl.isLocked w1 = false) as Hlk1.
  { unfold AccessControl.isLocked, isFrozen. rewrite Ho1. simpl.
    apply andb_false_r. }
  assert (Hcross : forall h,
    utils.getRoleHierarchyOf depth (g_val o1) a None = Ok h ->
    AccessControl.extendRole depth (Str b) (Arr [a]) replace w1
    = (acThrow (CrossInheritance a b), w1)).
  { intros h Hh.
    pose proof (getRoleHierarchyOf_extender _ _ _ _ _ _ _ _ Hh Hra1 Hext Hbl)
      as Hbh.
    unfold AccessControl.extendRole. rewrite Hlk1.
    apply (atRef_unchanged _ _ w1 o1 _ Ho1).
    apply (extendRole_cross depth (Str b) b a replace o1 h);
      [done | by eexists | by apply setEntry_is_Some | done..]. }
  split.
  - destruct (utils.getRoleHierarchyOf depth (g_val o1) a None) as [h|e]
      eqn:Hh.
    + eexists. split; [by eapply Hcross|by left].
    + exists e. split; [|right; by rewrite Hst].
      unfold AccessControl.extendRole. rewrite Hlk1.
      apply (atRef_unchanged _ _ w1 o1 _ Ho1).
      by apply (extendRole_unresolved depth (Str b) b a replace o1 e);
        [done | by eexists | by apply setEntry_is_Some | done..].
  - intros (rk & Hok). rewrite Hst in Hok.
    destruct (Hok a _ l b Hra1 Hext Hbl) as (_ & _ & Hrk).
    destruct (getRoleHierarchyOf_resolves rk (g_val o1)) with
      (depth := depth) (subjectName := a) (rootRole := @None string)
      as [h Hh]; [| by eauto | done | done |].
    { intros s role ext e Hs Hx Hin.
      destruct (Hok s role ext e Hs Hx Hin) as (? & ? & _). done. }
    by eapply Hcross.
Qed.

Lemma C4_cross_inheritance_rejected_witness :
  AccessControl.extendRole 8 (Str "b") (Arr ["a"]) false (worldAB 8)
  = (acThrow (CrossInheritance "a" "b"), worldAB 8).
Proof.
  assert (Hst0 : store (grantAny "b" "r" (grantAny "a" "r" world0))
                 = <["b" := {["r" := EObj {["create:any" := ["*"]]}]}]>
                     (<["a" := {["r" := EObj {["create:any" := ["*"]]}]}]>
                        (∅ : Grants))) by (vm_compute; reflexivity).
  apply (proj2 (C4_cross_inheritance_rejected 8
           (grantAny "b" "r" (grantAny "a" "r" world0)) (worldAB 8)
           "a" "b" false ltac:(vm_compute; reflexivity)
           ltac:(vm_compute; reflexivity) plainGrants_AB
           ltac:(vm_compute; reflexivity))).
  exists (fun s => if decide (s = "a") then 1 else 0).
  intros s role ext e Hs Hext He.
  assert (s = "a" /\ ext = ["b"]) as [-> ->].
  { destruct (decide (s = "a")) as [->|Hna].
    - vm_compute in Hs. injection Hs as <-. vm_compute in Hext.
      by injection Hext as <-.
    - destruct (decide (s = "b")) as [->|Hnb].
      + vm_compute in Hs. injection Hs as <-. vm_compute in Hext. done.
      + exfalso. revert Hs. change (store (worldAB 8))
          with (utilsW.setEntry "a" "_extend_" (EArr ["b"])
                  (store (grantAny "b" "r" (grantAny "a" "r" world0)))).
        rewrite setEntry_lookup_ne by done. rewrite Hst0.
        rewrite !lookup_insert_ne by done. by rewrite lookup_empty. }
  apply list_elem_of_singleton in He. subst e.
  split; [by vm_compute; eexists|]. simpl. lia.
Defined.
(** ** Removal pruning *)



(** ** Failing calls and partial writes *)



(** ** The names in a reachable store *)



(** ** Flat list and nested mapping *)

(** C8, counterexample.  Two flat lists whose load and the load of the
    nested mapping they stand for differ.  The record with the
    attributes [['']] loads as a flat list, and the nested mapping
    [{ a: { r: { 'read:any': [''] } } }] it stands for is rejected.  The
    record with the attributes [[]] stands, in the words of the
    specification, for the grant of every attribute, and both inputs load;
    the flat load stores the empty list, so the query [read] of [r] by [a]
    is refused after the flat load and granted after the nested one. *)
Lemma C8_flat_nested_counterexample :
  (canonicalRecord recBlank
   /\ specNested [recBlank]
      = Some {[ "a" := {[ "r" := EObj {[ "read:any" := [""] ]} ]} ]}
   /\ (AccessControl.setGrants 8 (GArray [recBlank]) world0).1 = Ok tt
   /\ AccessControl.setGrants 8
        (GObject {[ "a" := {[ "r" := EObj {[ "read:any" := [""] ]} ]} ]})
        world0
      = (acThrow (InvalidResourceAttributes "read:any"), world0))
  /\ (specNested [recNone]
      = Some {[ "a" := {[ "r" := EObj {[ "read:any" := ["*"] ]} ]} ]}
      /\ exists wL wN pL pN,
           AccessControl.setGrants 8 (GArray [recNone]) world0 = (Ok tt, wL)
           /\ AccessControl.setGrants 8
                (GObject {[ "a" := {[ "r" := EObj {[ "read:any" := ["*"] ]} ]} ]})
                world0
              = (Ok tt, wN)
           /\ (AccessControl.permission concatUnion 8 queryRead wL).1 = Ok pL
           /\ (AccessControl.permission concatUnion 8 queryRead wN).1 = Ok pN
           /\ granted pL = false /\ granted pN = true).
Proof.
  split.
  - split; [|split; [|split]]; try (vm_compute; reflexivity).
    unfold canonicalRecord, recBlank. cbn [ai_subject ai_resource ai_action
      ai_possession ai_attributes specNames oneNameOrList].
    repeat split; try (vm_compute; reflexivity); try done.
    + by apply plainNames_check.
    + by apply plainNames_check.
    + by injection H as <-.
    + injection H as <-. by vm_compute.
    + by repeat constructor.
  - split; [vm_compute; reflexivity|].
    eexists _, _, _, _.
    split; [vm_compute; reflexivity|].
    split; [vm_compute; reflexivity|].
    split; [vm_compute; reflexivity|].
    split; [vm_compute; reflexivity|].
    split; vm_compute; reflexivity.
Qed.

(** C8, amended.  Take a flat list of records on which the coercions of
    the code and the words of the specification cannot differ
    ([canonicalRecord]).  When the list loads, the commit algorithm of the
    specification (section 4.1) accepts every record, and the nested
    mapping it describes is exactly the store after the load.  That nested
    mapping loads as well when no attribute of the list is the empty
    string.  Whenever it loads, it leaves the same store, and every query
    resolves alike in both: [permission] and the action methods of a
    [Query] give the same result, that is the same attributes and the same
    [granted], or the same error. *)
Theorem C8_flat_and_nested_resolve_alike :
  forall (union : list string -> list string -> list string) (depth : nat)
         (items : list IAccessInfo) (w wL : World),
    Forall canonicalRecord items ->
    AccessControl.setGrants depth (GArray items) w = (Ok tt, wL) ->
    exists nested,
      specNested items = Some nested
      /\ store wL = nested
      /\ (Forall noBlankAttribute items ->
          exists wN,
            AccessControl.setGrants depth (GObject nested) w = (Ok tt, wN))
      /\ forall wN,
           AccessControl.setGrants depth (GObject nested) w = (Ok tt, wN) ->
           store wN = nested
           /\ (forall query,
                 (AccessControl.permission union depth query wL).1
                 = (AccessControl.permission union depth query wN).1)
           /\ (forall subject action possession resource,
                 (q ← (AccessControl.can subject wL).1;
                  (Query._getPermission union depth action possession
                     resource q wL).1.1)
                 = (q ← (AccessControl.can subject wN).1;
                    (Query._getPermission union depth action possession
                       resource q wN).1.1)).
Proof.
  intros union depth items w wL Hc HL.
  assert (Hlk : AccessControl.isLocked w = false).
  { unfold AccessControl.setGrants in HL.
    by destruct (AccessControl.isLocked w). }
  apply setGrants_Ok in HL as (gL & HgL & ->).
  pose proof (flat_load_specNested depth items gL Hc HgL) as Hspec.
  exists gL. split; [done|].
  assert (Hs : store (newGrants gL w).2 = gL).
  { unfold store. by rewrite newGrants_lookup. }
  split; [done|]. split.
  { intros Hnb. unfold AccessControl.setGrants. rewrite Hlk.
    rewrite (nested_load_Ok depth gL).
    - by eexists.
    - by eapply getInspectedGrants_good.
    - apply flat_load_nestedOf in HgL as ->. apply allObj_nestedOf.
    - eapply (specNested_filled items Hc Hnb ∅); [|exact Hspec].
      intros s role r d ap l Hl. by rewrite lookup_empty in Hl. }
  intros wN HN.
  apply setGrants_Ok in HN as (gN & HgN & ->).
  apply flat_load_nestedOf in HgL as ->.
  apply nested_load_allObj in HgN as ->; [|apply allObj_nestedOf].
  done.
Qed.

Lemma C8_flat_and_nested_resolve_alike_witness :
  Forall canonicalRecord [recRead]
  /\ exists wL wN,
       AccessControl.setGrants 8 (GArray [recRead]) world0 = (Ok tt, wL)
       /\ AccessControl.setGrants 8
            (GObject {[ "a" := {[ "r" := EObj {[ "read:any" := ["*"] ]} ]} ]})
            world0
          = (Ok tt, wN)
       /\ specNested [recRead]
          = Some {[ "a" := {[ "r" := EObj {[ "read:any" := ["*"] ]} ]} ]}
       /\ store wL = store wN
       /\ (AccessControl.permission concatUnion 8 queryRead wL).1
          = (AccessControl.permission concatUnion 8 queryRead wN).1.
Proof.
  assert (Hc : Forall canonicalRecord [recRead]).
  { constructor; [|constructor].
    unfold canonicalRecord, recRead. cbn [ai_subject ai_resource ai_action
      ai_possession ai_attributes specNames oneNameOrList].
    repeat split; try (vm_compute; reflexivity); try done.
    - by apply plainNames_check.
    - by apply plainNames_check.
    - by injection H as <-.
    - injection H as <-. by vm_compute. }
  split; [exact Hc|].
  destruct (AccessControl.setGrants 8 (GArray [recRead]) world0)
    as [rL wL] eqn:HL.
  assert (HrL : rL = Ok tt) by (by vm_compute in HL; injection HL as <- _).
  subst rL.
  destruct (C8_flat_and_nested_resolve_alike concatUnion 8 [recRead] world0
              wL Hc HL) as (nested & Hn & HsL & _ & HN).
  assert (Hv : specNested [recRead]
               = Some {[ "a" := {[ "r" := EObj {[ "read:any" := ["*"] ]} ]} ]})
    by (vm_compute; reflexivity).
  rewrite Hv in Hn. injection Hn as <-.
  destruct (AccessControl.setGrants 8
              (GObject {[ "a" := {[ "r" := EObj {[ "read:any" := ["*"] ]} ]} ]})
              world0) as [rN wN] eqn:HNe.
  assert (HrN : rN = Ok tt) by (by vm_compute in HNe; injection HNe as <- _).
  subst rN.
  destruct (HN wN eq_refl) as (HsN & Hq & _).
  exists wL, wN. split; [done|]. split; [done|]. split; [done|].
  split; [by rewrite HsL, HsN|]. apply Hq.
Defined.
(** * Further properties of the code *)

(** ** Lists of names *)

(** X1.  [uniqConcat(a, b)] holds exactly the items of [a] and of [b]. *)
Theorem X1_uniqConcat_members :
  forall (arrA arrB : list string) (x : string),
    x ∈ utils.uniqConcat arrA arrB <-> x ∈ arrA \/ x ∈ arrB.
Proof. apply elem_of_uniqConcat. Qed.

(** X2.  [uniqConcat(a, b)] starts with [a] as it is, and what it appends
    keeps a duplicate-free [a] duplicate-free. *)
Theorem X2_uniqConcat_prefix_NoDup :
  forall (arrA arrB : list string),
    (exists rest, utils.uniqConcat arrA arrB = arrA ++ rest)
    /\ (NoDup arrA -> NoDup (utils.uniqConcat arrA arrB)).
Proof.
  intros arrA arrB. unfold utils.uniqConcat. revert arrA.
  induction arrB as [|b arrB IH]; intros arrA; simpl.
  - split; [exists []; by rewrite app_nil_r|done].
  - destruct (IH (utils.pushUniq arrA b)) as [[rest Hrest] Hnd].
    unfold utils.pushUniq in *. destruct (utils.includes arrA b) eqn:Hb.
    + split; [by exists rest|done].
    + split.
      * exists (b :: rest). rewrite Hrest. by rewrite <- app_assoc.
      * intros HA. apply Hnd. apply NoDup_app. split; [done|].
        split; [|apply NoDup_singleton].
        intros x Hx ->%list_elem_of_singleton.
        by apply includes_false in Hb.
Qed.

Lemma X2_uniqConcat_prefix_NoDup_witness :
  NoDup (utils.uniqConcat ["a"; "b"] ["b"; "c"; "c"]).
Proof.
  apply (proj2 (X2_uniqConcat_prefix_NoDup ["a"; "b"] ["b"; "c"; "c"])).
  apply NoDup_cons. split; [by intros ?%list_elem_of_singleton|].
  apply NoDup_singleton.
Defined.

(** X3.  [subtractArray(a, b)] holds exactly the items of [a] that are not
    in [b]. *)
Theorem X3_subtractArray_members :
  forall (arrA arrB : list string) (x : string),
    x ∈ utils.subtractArray arrA arrB <-> x ∈ arrA /\ x ∉ arrB.
Proof.
  intros arrA arrB x. unfold utils.subtractArray.
  rewrite !list_elem_of_In, filter_In, negb_true_iff, includes_false.
  by rewrite <- !list_elem_of_In.
Qed.

(** X4.  [toStringArray] of a string is never the empty list: the empty
    string gives one empty name, which the callers must reject. *)
Theorem X4_toStringArray_of_string_not_empty :
  forall s : string, utils.toStringArray (Str s) <> [].
Proof.
  intros s. simpl. unfold Js.splitDelims.
  assert (Hs : forall t, Js.split Js.is_delim t <> []).
  { induction t as [|c t IH]; simpl; [done|].
    destruct (Js.is_delim c); [done|].
    by destruct (Js.split Js.is_delim t). }
  specialize (Hs (Js.trim s)).
  destruct (Js.split Js.is_delim (Js.trim s)) as [|p [|q rest]]; done.
Qed.

(** ** Names *)

(** X5.  [validName(name, false)] never throws, [validName(name, true)]
    never returns false, and both accept the same names: those that are
    not blank and not reserved. *)
Theorem X5_validName_modes :
  forall name : string,
    (exists b, utils.validName name false = Ok b)
    /\ (forall b, utils.validName name true = Ok b -> b = true)
    /\ (utils.validName name true = Ok true
        <-> utils.validName name false = Ok true)
    /\ (utils.validName name false = Ok true
        <-> Js.blank name = false /\ name ∉ utils.RESERVED_KEYWORDS).
Proof.
  intros name. unfold utils.validName.
  destruct (Js.blank name).
  { split; [by eexists|]. split; [done|]. split; [done|].
    split; [done|]. by intros [? _]. }
  destruct (utils.includes utils.RESERVED_KEYWORDS name) eqn:Hr.
  - apply includes_true in Hr. split; [by eexists|]. split; [done|].
    split; [done|]. split; [done|]. by intros [_ ?].
  - apply includes_false in Hr. split; [by eexists|].
    split; [by intros b [= <-]|]. done.
Qed.

(** X6.  When [hasValidNames(list, true)] returns, every name of the list
    is valid; it returns for the omitted list, which has no name. *)
Theorem X6_hasValidNames_sound :
  forall (list : Val) (b : bool),
    utils.hasValidNames list true = Ok b ->
    b = true
    /\ forall name, name ∈ utils.toStringArray list ->
         utils.validName name false = Ok true.
Proof.
  intros list b. unfold utils.hasValidNames.
  induction (utils.toStringArray list) as [|n l IH]; simpl.
  - intros [= <-]. split; [done|]. by intros name ?%elem_of_nil.
  - destruct (utils.validName n true) as [v|e] eqn:Hv; [|done]. simpl.
    pose proof (X := Hv). apply validName_good, goodName_validName in X.
    apply validName_Ok in Hv as [-> _]. intros H.
    destruct (IH H) as [-> Hl]. split; [done|].
    by intros name [->|?]%elem_of_cons; [|apply Hl].
Qed.

Lemma X6_hasValidNames_sound_witness :
  utils.validName "video" false = Ok true.
Proof.
  apply (proj2 (X6_hasValidNames_sound (Str "video, photo") true
                  ltac:(vm_compute; reflexivity))).
  vm_compute. by left.
Defined.

(** ** Normalisation *)

(** X7.  [normalizeActionPossession] fails without an action; when it
    returns, the possession is ['own'] or ['any'], it is the given
    possession when there is one, ['any'] when neither the possession nor
    the action names one, and the action is in lower case. *)
Theorem X7_normalizeActionPossession_result :
  forall (action possession : option string),
    (action = None ->
     utils.normalizeActionPossession action possession
     = acThrow InvalidAction)
    /\ (forall a p,
          utils.normalizeActionPossession action possession = Ok (a, p) ->
          (p = "own" \/ p = "any")
          /\ (Js.truthy possession = true -> possession = Some p)
          /\ Js.toLowerCase a = a).
Proof.
  intros action possession. split; [by intros ->|].
  intros a p. unfold utils.normalizeActionPossession.
  destruct action as [act|]; [|done].
  assert (Hlow : forall s, Js.toLowerCase (Js.toLowerCase s) = Js.toLowerCase s).
  { induction s as [|c s IH]; simpl; [done|]. rewrite IH. f_equal.
    clear. destruct c as [[] [] [] [] [] [] [] []]; vm_compute; reflexivity. }
  destruct (Js.truthy possession) eqn:Hp.
  - rewrite Hp. destruct possession as [q|]; [|done]. simpl.
    destruct (bool_decide (q ≠ "any")) eqn:H1;
      destruct (bool_decide (q ≠ "own")) eqn:H2; simpl; try done;
      intros [= <- <-]; (split; [|split; [done|apply Hlow]]).
    + apply bool_decide_eq_false in H2. left. by destruct (decide (q = "own")).
    + apply bool_decide_eq_false in H1. right. by destruct (decide (q = "any")).
    + apply bool_decide_eq_false in H1. right. by destruct (decide (q = "any")).
  - destruct (Js.truthy (Js.split Js.is_colon act !! 1)) eqn:Hs.
    + destruct (Js.split Js.is_colon act !! 1) as [q|]; [|done]. simpl.
      destruct (bool_decide (q ≠ "any")) eqn:H1;
        destruct (bool_decide (q ≠ "own")) eqn:H2; simpl; try done;
        intros [= <- <-]; (split; [|split; [done|apply Hlow]]).
      * apply bool_decide_eq_false in H2. left.
        by destruct (decide (q = "own")).
      * apply bool_decide_eq_false in H1. right.
        by destruct (decide (q = "any")).
      * apply bool_decide_eq_false in H1. right.
        by destruct (decide (q = "any")).
    + intros [= <- <-]. split; [by right|]. split; [done|apply Hlow].
Qed.

Lemma X7_normalizeActionPossession_result_witness :
  Js.toLowerCase "create" = "create".
Proof.
  exact (proj2 (proj2 (proj2 (X7_normalizeActionPossession_result
           (Some " Create:own") None) "create" "own"
           ltac:(vm_compute; reflexivity)))).
Defined.

(** X8.  When [normalizeAccessInfo] returns, the subjects and the resources
    are lists that are not empty and hold no blank name, and a denied
    record has the empty attribute list whatever attributes it came
    with. *)
Theorem X8_normalizeAccessInfo_result :
  forall (access access' : IAccessInfo) (all : bool),
    utils.normalizeAccessInfo access all = Ok access' ->
    (exists s ss, ai_subject access' = Arr (s :: ss)
                  /\ utils.isFilledStringArray (s :: ss) = true)
    /\ (exists r rs, ai_resource access' = Arr (r :: rs)
                     /\ utils.isFilledStringArray (r :: rs) = true)
    /\ (ai_denied access = true -> ai_attributes access' = Arr []).
Proof.
  intros access access' all. unfold utils.normalizeAccessInfo. intros H.
  destruct (bool_decide _ || _) eqn:H1 in H; [done|].
  destruct (bool_decide _ || _) eqn:H2 in H; [done|].
  apply orb_false_iff in H1 as [H1 F1], H2 as [H2 F2].
  apply bool_decide_eq_false in H1, H2. apply negb_false_iff in F1, F2.
  destruct (utils.toStringArray (ai_subject access)) as [|s ss]; [done|].
  destruct (utils.toStringArray (ai_resource access)) as [|r rs]; [done|].
  assert (ai_subject access' = Arr (s :: ss)
          /\ ai_resource access' = Arr (r :: rs)
          /\ (ai_denied access = true -> ai_attributes access' = Arr []))
    as (Hs & Hr & Hd).
  { destruct all.
    - destruct (utils.normalizeActionPossession _ _) as [[a p]|e]; [|done].
      simpl in H. injection H as <-. simpl. repeat split.
      by intros ->.
    - injection H as <-. simpl. repeat split. by intros ->. }
  split; [by exists s, ss|]. split; [by exists r, rs|done].
Qed.

Lemma X8_normalizeAccessInfo_result_witness :
  ai_attributes
    {| ai_subject := Arr ["a"]; ai_resource := Arr ["r"];
       ai_action := Some "read"; ai_possession := Some "any";
       ai_attributes := Arr []; ai_denied := true |} = Arr [].
Proof.
  refine (proj2 (proj2 (X8_normalizeAccessInfo_result
    {| ai_subject := Str "a"; ai_resource := Str "r";
       ai_action := Some "read"; ai_possession := None;
       ai_attributes := Arr ["*"]; ai_denied := true |} _ true _)) _).
  - vm_compute. reflexivity.
  - reflexivity.
Defined.

(** X9.  [resetAttributes] is idempotent, and it leaves a denied record
    with the empty attribute list. *)
Theorem X9_resetAttributes_idempotent :
  forall access : IAccessInfo,
    utils.resetAttributes (utils.resetAttributes access)
    = utils.resetAttributes access
    /\ (ai_denied access = true ->
        ai_attributes (utils.resetAttributes access) = Arr []).
Proof.
  intros [s r a p attrs d]. unfold utils.resetAttributes. simpl.
  split; [|by intros ->].
  destruct d; [done|]. destruct attrs as [|t|[|x l]]; simpl; try done.
  unfold Js.truthy. destruct (decide (t = "")) as [->|Hne]; simpl; [done|].
  unfold Js.truthy. by rewrite decide_False.
Qed.

Lemma X9_resetAttributes_idempotent_witness :
  ai_attributes (utils.resetAttributes
    {| ai_subject := Str "a"; ai_resource := Str "r";
       ai_action := Some "read"; ai_possession := None;
       ai_attributes := Arr ["*"]; ai_denied := true |}) = Arr [].
Proof.
  apply (proj2 (X9_resetAttributes_idempotent _)). reflexivity.
Defined.



(** ** The role hierarchy *)





(** X13.  On grants and for a subject whose names are none of
    [Object.prototype]: when every inheritance list names existing roles,
    there is no cycle and no chain of lists is longer than the call stack
    allows, the hierarchy of every subject resolves. *)
Theorem X13_getRoleHierarchyOf_resolves :
  forall (depth : nat) (grants : Grants) (subjectName : string),
    plain subjectName ->
    plainGrants grants ->
    inheritOK depth grants ->
    is_Some (grants !! subjectName) ->
    exists l, utils.getRoleHierarchyOf depth grants subjectName None = Ok l.
Proof.
  intros depth grants subjectName _ _ [rk Hok] [role Hs].
  apply (getRoleHierarchyOf_resolves
           (fun s => if decide (is_Some (grants !! s)) then
                       match grants !! s with
                       | Some r => if utils.extendOf r is Some (_ :: _)
                                   then rk s else 0
                       | None => 0
                       end
                     else 0)); [| by eexists | | done].
  - intros s r ext e Hr Hext He.
    destruct (Hok s r ext e Hr Hext He) as ([re Hre] & Hlt & Hle).
    split; [by eexists|].
    rewrite (decide_True (P := is_Some (grants !! e))) by (by eexists).
    rewrite (decide_True (P := is_Some (grants !! s))) by (by eexists).
    rewrite Hr, Hext, Hre. destruct ext as [|x ext]; [by apply elem_of_nil in He|].
    destruct (utils.extendOf re) as [[|y ext']|]; lia.
  - rewrite decide_True by (by eexists). rewrite Hs.
    destruct (utils.extendOf role) as [[|x ext]|] eqn:Hext; try lia.
    destruct (Hok subjectName role (x :: ext) x Hs Hext) as (_ & _ & ?);
      [by left|done].
Qed.

Lemma X13_getRoleHierarchyOf_resolves_witness :
  exists l, utils.getRoleHierarchyOf 8 (store (worldAB 8)) "a" None = Ok l.
Proof.
  apply X13_getRoleHierarchyOf_resolves.
  - by apply plain_check.
  - by apply plainGrants_check.
  - apply inheritOK_worldAB.
  - vm_compute. by eexists.
Defined.



(** X15.  On a store and for a subject whose names are none of
    [Object.prototype]: [getInheritedRolesOf(subject)] never lists the
    subject itself and has no duplicates; it holds every role of the
    subject's inheritance list, and only subjects of the grants. *)
Theorem X15_getInheritedRolesOf_members :
  forall (depth : nat) (w : World) (subject : string) (l : list string),
    plain subject ->
    plainGrants (store w) ->
    AccessControl.getInheritedRolesOf depth subject w = Ok l ->
    (subject ∉ l) /\ NoDup l
    /\ (forall x, x ∈ l -> is_Some (store w !! x))
    /\ (forall role ext e,
          store w !! subject = Some role ->
          utils.extendOf role = Some ext -> e ∈ ext -> e ∈ l).
Proof.
  intros depth w subject l _ _. unfold AccessControl.getInheritedRolesOf.
  destruct (utils.getRoleHierarchyOf depth (store w) subject None)
    as [h|] eqn:Hh; [|done].
  simpl. intros [= <-].
  pose proof (getRoleHierarchyOf_shape _ _ _ _ _ Hh) as [[rest ->] Hnd].
  simpl. apply NoDup_cons in Hnd as [Hn Hnd].
  split; [done|]. split; [done|]. split.
  - intros x Hx. eapply getRoleHierarchyOf_exist; [done|]. by right.
  - intros role ext e Hs Hext He.
    pose proof (getRoleHierarchyOf_extender _ _ _ _ _ _ _ _ Hh Hs Hext He)
      as [->|?]%elem_of_cons; [|done].
    exfalso. revert Hh. rewrite getRoleHierarchyOf_unfold, Hs, Hext.
    destruct ext as [|x ext]; [by apply elem_of_nil in He|].
    intros Hh. apply hierarchy_loop_checks with (e := subject) in Hh; [|done].
    rewrite bool_decide_eq_true_2 in Hh by done. by destruct (negb _).
Qed.

Lemma X15_getInheritedRolesOf_members_witness :
  AccessControl.getInheritedRolesOf 8 "a" (worldAB 8) = Ok ["b"]
  /\ ("a" ∉ ["b"]) /\ is_Some (store (worldAB 8) !! "b").
Proof.
  assert (H : AccessControl.getInheritedRolesOf 8 "a" (worldAB 8) = Ok ["b"])
    by (vm_compute; reflexivity).
  split; [exact H|].
  destruct (X15_getInheritedRolesOf_members 8 (worldAB 8) "a" ["b"]
              ltac:(by apply plain_check) ltac:(by apply plainGrants_check) H)
    as (Hn & _ & Hex & _).
  split; [exact Hn|]. apply Hex. by left.
Defined.

(** ** extendRole *)





(** X18.  [extendRole] for one subject, on a grants object that the
    library has made and in which no name is one of [Object.prototype],
    when it returns: the subject existed, every extender is an existing
    role other than the subject, and the only change is the subject's
    inheritance list, which is the old list with the new extenders
    appended once each, or the extenders alone with [replace]. *)
Theorem X18_extendRole_result :
  forall (depth : nat) (subjects extenderRoles : Val) (replace : bool)
         (w : World) (l : nat) (o o' : GObj) (s : string),
    madeHere depth w ->
    heap w !! l = Some o ->
    plain s ->
    plainGrants (g_val o) ->
    utils.toStringArray subjects = [s] ->
    utils.isEmptyArray extenderRoles = false ->
    utilsW.extendRole depth subjects extenderRoles replace o = (Ok tt, o') ->
    exists role,
      g_val o !! s = Some role
      /\ g_val o'
         = <[s := <["_extend_" :=
                    EArr (if replace then utils.toStringArray extenderRoles
                          else utils.uniqConcat
                                 (default [] (utils.extendOf role))
                                 (utils.toStringArray extenderRoles))]> role]>
             (g_val o)
      /\ (forall e, e ∈ utils.toStringArray extenderRoles ->
                    is_Some (g_val o !! e) /\ e <> s).
Proof.
  intros depth subjects exts replace w l o o' s _ _ _ _ Hs Hemp.
  unfold utilsW.extendRole. rewrite Hs, Hemp. rewrite bool_decide_eq_false_2 by done.
  case_bool_decide as Hlen; [done|]. rewrite bind_getG.
  case_bool_decide as Hnon; [done|].
  rewrite forEachG_cons. gsimp.
  destruct (utils.has (g_val o) s) eqn:Hhas; cbn [negb]; [|by gsimp].
  apply has_true in Hhas as [role Hrole].
  destruct (utils.includes (utils.toStringArray exts) s) eqn:Hinc;
    [by gsimp|].
  apply includes_false in Hinc.
  destruct (utils.getCrossExtendingRole _ _ _ _) as [c|err]; [|by gsimp].
  gsimp. destruct (Js.truthy c); [by gsimp|].
  destruct (utils.validName s true) as [v|err]; [|by gsimp].
  gsimp. rewrite Hrole. cbn [from_option id].
  assert (Hex : forall e, e ∈ utils.toStringArray exts ->
                          is_Some (g_val o !! e) /\ e <> s).
  { intros e He. split; [|by intros ->].
    destruct (g_val o !! e) eqn:Hl; [by eexists|]. exfalso. apply Hnon.
    assert (Hin : e ∈ utils.getNonExistentRoles (g_val o)
                        (utils.toStringArray exts)).
    { unfold utils.getNonExistentRoles.
      rewrite list_elem_of_In, filter_In, <- list_elem_of_In.
      split; [done|]. apply negb_true_iff. by apply has_false. }
    destruct (utils.getNonExistentRoles _ _); [by apply elem_of_nil in Hin|].
    simpl. lia. }
  destruct (g_frozen o) eqn:Hfr.
  { destruct replace; cbn [negb]; [by rewrite bind_modifyG_frozen|].
    destruct (role !! "_extend_") as [[l0|?]|];
      [by rewrite bind_modifyG_frozen | by gsimp
      | by rewrite bind_modifyG_frozen]. }
  intros H. exists role. split; [done|]. split; [|done].
  destruct replace; cbn [negb] in H.
  - rewrite bind_modifyG_unfrozen, forEachG_nil in H by done.
    injection H as <-. simpl. by apply setEntry_insert.
  - unfold utils.extendOf. destruct (role !! "_extend_") as [[l0|?]|].
    + rewrite bind_modifyG_unfrozen, forEachG_nil in H by done.
      injection H as <-. simpl. by apply setEntry_insert.
    + revert H. by gsimp.
    + rewrite bind_modifyG_unfrozen, forEachG_nil in H by done.
      injection H as <-. simpl. by apply setEntry_insert.
Qed.

Lemma X18_extendRole_result_witness :
  exists role,
    g_val objAB !! "a" = Some role
    /\ g_val (utilsW.extendRole 8 (Str "a") (Arr ["b"]) false objAB).2
       = <["a" := <["_extend_" := EArr ["b"]]> role]> (g_val objAB).
Proof.
  destruct (X18_extendRole_result 8 (Str "a") (Arr ["b"]) false
              worldRolesAB 0 objAB
              (utilsW.extendRole 8 (Str "a") (Arr ["b"]) false objAB).2 "a")
    as (role & Hr & Hv & _);
    [exact madeHere_worldRolesAB | exact worldRolesAB_heap
    | by apply plain_check | by apply plainGrants_check
    | done | done | vm_compute; reflexivity |].
  assert (role = ∅) as ->
    by (vm_compute in Hr; injection Hr as <-; reflexivity).
  exists ∅. split; [done|]. rewrite Hv. reflexivity.
Defined.



(** ** Creating roles and committing grants *)

(** X20.  When [preCreateRoles] returns, for subjects that are no names
    of [Object.prototype] and grants that have no subject named
    [hasOwnProperty]: every given subject exists, the roles that existed
    are as they were, and every other role is one of the given subjects,
    with nothing granted. *)
Theorem X20_preCreateRoles_result :
  forall (subjects : Val) (o o' : GObj),
    plainNames (utils.toStringArray subjects) ->
    g_val o !! "hasOwnProperty" = None ->
    utilsW.preCreateRoles subjects o = (Ok tt, o') ->
    (forall s, s ∈ utils.toStringArray subjects -> is_Some (g_val o' !! s))
    /\ (forall s role, g_val o !! s = Some role -> g_val o' !! s = Some role)
    /\ (forall s role,
          g_val o' !! s = Some role ->
          g_val o !! s = Some role
          \/ (s ∈ utils.toStringArray subjects /\ role = ∅)).
Proof.
  intros subjects o o' _ _ H. apply preCreateRoles_Ok in H as [_ ->].
  apply foldl_createRole.
Qed.

Lemma X20_preCreateRoles_result_witness :
  is_Some (g_val (utilsW.preCreateRoles (Str "c, a") objAB).2 !! "c").
Proof.
  apply (proj1 (X20_preCreateRoles_result (Str "c, a") objAB _
                  ltac:(by apply plainNames_check)
                  ltac:(vm_compute; reflexivity)
                  ltac:(vm_compute; reflexivity))).
  vm_compute. by left.
Defined.

(** X21.  After [grant(subject)] or [deny(subject)] has returned, for
    names that are none of [Object.prototype] on a store without a subject
    named [hasOwnProperty], every name of [subject] is a role: [hasRole]
    of the list of names is true. *)
Theorem X21_grant_creates_roles :
  forall (subject : Val) (denied : bool) (w w' : World) (a : AccessT),
    plainNames (utils.toStringArray subject) ->
    store w !! "hasOwnProperty" = None ->
    Access.new (ASubject subject) denied w = (Ok a, w') ->
    AccessControl.hasRole (Arr (utils.toStringArray subject)) w' = true.
Proof.
  intros subject denied w w' a _ _. unfold Access.new, Access.subject.
  cbn [a_grants]. simpl AccessControl.hasRole.
  assert (Hgo : forall v,
    match atRef (_grants w) (utilsW.preCreateRoles v) w with
    | (Ok _, w1) =>
        (Ok tt, {| a_ := setSubject (setDenied emptyAccess denied) v;
                   a_grants := _grants w |}, w1)
    | (Throw e, w1) =>
        (Throw e, {| a_ := setDenied emptyAccess denied;
                     a_grants := _grants w |}, w1)
    end = (Ok tt, a, w') -> forallb (utils.has (store w'))
                              (utils.toStringArray v) = true).
  { intros v H.
    destruct (atRef (_grants w) _ w) as [[[]|err] w1] eqn:Hat; [|done].
    injection H as _ <-.
    pose proof (atRef_Ok _ _ _ _ _ Hat) as (o & Ho & Hm).
    pose proof (atRef_store (utilsW.preCreateRoles v) w o Ho) as Hst.
    rewrite Hat in Hst. simpl in Hst.
    destruct (utilsW.preCreateRoles v o) as [r o'] eqn:Hc.
    simpl in *. subst r. apply preCreateRoles_Ok in Hc as [_ Hv].
    apply forallb_forall. intros s Hs%list_elem_of_In.
    apply has_true. rewrite Hst, Hv. by apply foldl_createRole. }
  destruct subject as [|s|l]; [done| |].
  - intros H. apply Hgo.
    destruct (atRef _ _ w) as [[[]|?] ?]; by simplify_eq.
  - intros H. apply Hgo.
    destruct (atRef _ _ w) as [[[]|?] ?]; by simplify_eq.
Qed.

Lemma X21_grant_creates_roles_witness :
  AccessControl.hasRole (Arr ["admin"; "user"])
    (Access.new (ASubject (Str "admin; user")) false world0).2 = true.
Proof.
  exact (X21_grant_creates_roles (Str "admin; user") false world0 _ _
           ltac:(by apply plainNames_check)
           ltac:(vm_compute; reflexivity)
           ltac:(vm_compute; reflexivity)).
Defined.

(** X22.  After an action method of a builder of the current store has
    returned, when no name in the store and no subject or resource of the
    commit is a name of [Object.prototype]: every subject of the builder
    holds, for every resource of the commit and under the action and
    possession of the method, exactly the attributes of the commit: the
    given ones, every attribute when none is given, and none at all from a
    builder of [deny]. *)
Theorem X22_commit_is_read_back :
  forall (action possession : option string) (resource attributes : Val)
         (this this' : AccessT) (w w' : World),
    plainGrants (store w) ->
    plainNames (utils.toStringArray (ai_subject (a_ this))) ->
    plainNames (utils.toStringArray (if utils.truthyVal resource
                                     then resource
                                     else ai_resource (a_ this))) ->
    Access._prepareAndCommit action possession resource attributes this w
    = (Ok tt, this', w') ->
    a_grants this = _grants w ->
    forall s r,
      s ∈ utils.toStringArray (ai_subject (a_ this)) ->
      r ∈ utils.toStringArray (if utils.truthyVal resource then resource
                               else ai_resource (a_ this)) ->
      grantedAt (store w') s r
        (Js.str action +:+ ":" +:+ Js.str possession)
        (if ai_denied (a_ this) then []
         else if utils.truthyVal attributes
              then utils.toStringArray attributes else ["*"]).
Proof.
  intros action possession resource attributes this this' w w' _ _ _
    H Href s r Hs Hr.
  destruct (prepareAndCommit_Ok _ _ _ _ _ _ _ _ H Href) as (access & Hn & ->).
  apply normalize_draftOf in Hn as (HS & HR & HA & HP & HT).
  rewrite <- HS in Hs. rewrite <- HR in Hr. rewrite <- HA, <- HP, <- HT.
  by apply grantsOfAccess_sets.
Qed.

Lemma X22_commit_is_read_back_witness :
  grantedAt (store worldAdmin) "admin" "profile" "create:any" ["*"].
Proof.
  eapply (X22_commit_is_read_back (Some "create") (Some "any") (Str "profile")
            Undefined accessAdmin _ worldGrantAdmin worldAdmin).
  - by apply plainGrants_check.
  - by apply plainNames_check.
  - by apply plainNames_check.
  - vm_compute. reflexivity.
  - vm_compute. reflexivity.
  - vm_compute. by left.
  - vm_compute. by left.
Defined.

(** X23.  A commit changes nothing else.  On a store that the library
    has made, when no name in the store and no subject or resource of the
    commit is a name of [Object.prototype]: whatever was granted before
    the commit, under another subject, resource, action or possession, is
    granted after it with the same attributes. *)
Theorem X23_commit_keeps_other_grants :
  forall (depth : nat) (action possession : option string)
         (resource attributes : Val) (this this' : AccessT) (w w' : World),
    madeHere depth w ->
    plainGrants (store w) ->
    plainNames (utils.toStringArray (ai_subject (a_ this))) ->
    plainNames (utils.toStringArray (if utils.truthyVal resource
                                     then resource
                                     else ai_resource (a_ this))) ->
    Access._prepareAndCommit action possession resource attributes this w
    = (Ok tt, this', w') ->
    a_grants this = _grants w ->
    forall s r ap attrs,
      grantedAt (store w) s r ap attrs ->
      ~ (s ∈ utils.toStringArray (ai_subject (a_ this))
         /\ r ∈ utils.toStringArray (if utils.truthyVal resource then resource
                                     else ai_resource (a_ this))
         /\ ap = Js.str action +:+ ":" +:+ Js.str possession) ->
      grantedAt (store w') s r ap attrs.
Proof.
  intros depth action possession resource attributes this this' w w'
    _ _ _ _ H Href s r ap attrs Hg Hno.
  destruct (prepareAndCommit_Ok _ _ _ _ _ _ _ _ H Href) as (access & Hn & ->).
  apply normalize_draftOf in Hn as (HS & HR & HA & HP & HT).
  apply grantsOfAccess_keeps; [done|]. rewrite HS, HR, HA, HP.
  intros ? ? ?. by destruct Hno.
Qed.

Lemma X23_commit_keeps_other_grants_witness :
  grantedAt
    (store (Access._prepareAndCommit (Some "read") (Some "own") (Str "video")
              Undefined accessAdmin worldAdmin).2)
    "admin" "profile" "create:any" ["*"].
Proof.
  eapply (X23_commit_keeps_other_grants 8 (Some "read") (Some "own")
            (Str "video") Undefined accessAdmin _ worldAdmin).
  - exact madeHere_worldAdmin.
  - by apply plainGrants_check.
  - by apply plainNames_check.
  - by apply plainNames_check.
  - vm_compute. reflexivity.
  - vm_compute. reflexivity.
  - unfold grantedAt. rewrite worldAdmin_store. eexists _, _.
    rewrite lookup_singleton_eq. split; [done|].
    rewrite lookup_singleton_eq. split; [done|].
    by rewrite lookup_singleton_eq.
  - intros (_ & _ & Hap). discriminate Hap.
Defined.

(** ** lock, reset and the references of builders *)

(** X24.  [lock] fails with "Cannot lock empty or invalid grants model" on
    an empty store, which stays unlocked; on any other store it returns,
    the facade is locked and the grants are the same. *)
Theorem X24_lock_needs_grants :
  forall w : World,
    (store w = ∅ -> AccessControl.lock w = (acThrow LockEmpty, w))
    /\ (store w <> ∅ ->
        exists w', AccessControl.lock w = (Ok tt, w')
                   /\ AccessControl.isLocked w' = true
                   /\ store w' = store w).
Proof.
  intros w. split.
  - intros H. unfold AccessControl.lock, lockAC.
    by rewrite bool_decide_eq_true_2.
  - intros H. destruct (lockAC_success w H) as (w' & ? & ? & ? & _).
    by exists w'.
Qed.

Lemma X24_lock_needs_grants_witness :
  AccessControl.lock world0 = (acThrow LockEmpty, world0).
Proof.
  apply (proj1 (X24_lock_needs_grants world0)). vm_compute. reflexivity.
Defined.



(** X26.  A builder keeps the grants object it was made with.  After
    [reset], or [setGrants] with a flat list, has given the facade a new
    object, the methods of an older builder ([subject], [resource],
    [attributes], [extend] and the action methods) no longer reach the
    store of the facade. *)
Theorem X26_old_builder_is_detached :
  forall (depth : nat) (m : Mutator) (w w' : World) (this : AccessT)
         (c : BuilderCall),
    (m = MReset \/ exists items, m = MSetGrants (GArray items)) ->
    runMutator depth m w = (Ok tt, w') ->
    a_grants this < length (heap w) ->
    usesOwnRef c ->
    store (runBuilder depth c this w') = store w'
    /\ _grants (runBuilder depth c this w') = _grants w'.
Proof.
  intros depth m w w' this c Hm Hrun Hlt Hc.
  assert (Hne : a_grants this ≠ _grants w').
  { destruct Hm as [->|[items ->]]; simpl in Hrun.
    - unfold AccessControl.reset in Hrun.
      destruct (AccessControl.isLocked w); [done|].
      injection Hrun as <-. simpl. lia.
    - apply setGrants_Ok in Hrun as (g & _ & ->). simpl. lia. }
  destruct c; simpl in Hc; try done; simpl.
  - unfold Access.subject.
    pose proof (atRef_other_store (a_grants this)
                  (utilsW.preCreateRoles value) w' Hne) as H.
    by destruct (atRef _ _ w') as [[?|?] ?].
  - unfold Access.resource. by destruct (utils.hasValidNames _ _).
  - unfold Access.extend.
    match goal with |- context [atRef ?l ?f w'] =>
      pose proof (atRef_other_store l f w' Hne) as H;
      by destruct (atRef l f w') as [? ?]
    end.
  - unfold Access._prepareAndCommit.
    match goal with |- context [atRef ?l ?f w'] =>
      pose proof (atRef_other_store l f w' Hne) as H;
      by destruct (atRef l f w') as [[?|?] ?]
    end.
Qed.

Lemma X26_old_builder_is_detached_witness :
  store (runBuilder 8
           (BCommit (Some "read") (Some "any") (Str "video") Undefined)
           accessAdmin (AccessControl.reset worldAdmin).2) = ∅.
Proof.
  rewrite (proj1 (X26_old_builder_is_detached 8 MReset worldAdmin
                    (AccessControl.reset worldAdmin).2 accessAdmin
                    (BCommit (Some "read") (Some "any") (Str "video")
                       Undefined)
                    (or_introl eq_refl)
                    ltac:(vm_compute; reflexivity)
                    ltac:(vm_compute; lia) I)).
  vm_compute. reflexivity.
Defined.

(** ** Removals *)



(** X28.  When [removeResources(resources, subjects)] returns on a store
    that the library has made and that is not frozen, the subjects are the
    same; the given resources are gone from the given subjects, from every
    subject when none is given, and every other entry is as it was.  The
    name of the inheritance list is taken as a resource like any other. *)
Theorem X28_removeResources_result :
  forall (depth : nat) (resources subjects : Val) (w w' : World),
    madeHere depth w ->
    AccessControl.removeResources resources subjects w = (Ok tt, w') ->
    isFrozen w = false ->
    (forall s, is_Some (store w' !! s) <-> is_Some (store w !! s))
    /\ (forall s k,
          entryAt (store w') s k
          = if targeted (utils.toStringArray resources) subjects s k
            then None else entryAt (store w) s k).
Proof. intros depth resources subjects w w' _. apply removeResources_Ok. Qed.

Lemma X28_removeResources_result_witness :
  entryAt (store (AccessControl.removeResources (Str "_extend_") Undefined
                    (worldExt 8)).2) "A" "_extend_" = None.
Proof.
  rewrite (proj2 (X28_removeResources_result 8 (Str "_extend_") Undefined
                    (worldExt 8) _ madeHere_worldExt
                    ltac:(vm_compute; reflexivity)
                    ltac:(vm_compute; reflexivity))).
  vm_compute. reflexivity.
Defined.

(** ** Accessors *)

(** X29.  On grants in which no role has a key [__proto__],
    [getResources] lists, once each, exactly the keys that some role has;
    so it lists the name of the inheritance list as soon as one role
    extends another, and [hasResource] says yes to it. *)
Theorem X29_getResources_members :
  forall grants : Grants,
    (forall s role, grants !! s = Some role -> role !! "__proto__" = None) ->
    NoDup (utils.getResources grants)
    /\ (forall r, r ∈ utils.getResources grants
                  <-> exists s role, grants !! s = Some role
                                     /\ is_Some (role !! r))
    /\ (forall s role ext,
          grants !! s = Some role -> utils.extendOf role = Some ext ->
          utils.includes (utils.getResources grants) "_extend_" = true).
Proof.
  intros grants _. unfold utils.getResources.
  destruct (getResources_outer (map_to_list grants) []) as [Hnd Hin].
  assert (Hiff : forall r,
    r ∈ foldl (fun resources '(_, role) =>
          foldl (fun resources '(resource, _) =>
                   utils.pushUniq resources resource)
            resources (map_to_list role)) [] (map_to_list grants)
    <-> exists s role, grants !! s = Some role /\ is_Some (role !! r)).
  { intros r. rewrite Hin. split.
    - intros [?%elem_of_nil|(s & role & Hs%elem_of_map_to_list & ?)]; [done|].
      by exists s, role.
    - intros (s & role & Hs & ?). right. exists s, role.
      split; [by apply elem_of_map_to_list|done]. }
  split; [apply Hnd, NoDup_nil_2|]. split; [done|].
  intros s role ext Hs Hext. apply includes_true, Hiff.
  exists s, role. split; [done|]. unfold utils.extendOf in Hext.
  destruct (role !! "_extend_"); [by eexists|done].
Qed.

Lemma X29_getResources_members_witness :
  AccessControl.hasResource (Str "_extend_") (worldExt 8) = true.
Proof.
  unfold AccessControl.hasResource, AccessControl.getResources.
  rewrite bool_decide_eq_false_2 by done.
  assert (Hp : forall s role,
             store (worldExt 8) !! s = Some role ->
             role !! "__proto__" = None).
  { intros s role Hs.
    destruct (plainGrants_check (store (worldExt 8)) eq_refl s role Hs)
      as (_ & Hk & _).
    destruct (role !! "__proto__") eqn:Hr; [|done].
    exfalso. apply (Hk "__proto__"); [by eexists|].
    unfold protoNames. rewrite !elem_of_cons. tauto. }
  apply (proj2 (proj2 (X29_getResources_members (store (worldExt 8)) Hp)) "A"
           {[ "r" := EObj {[ "create:any" := ["*"] ]};
              "_extend_" := EArr ["B"] ]} ["B"]);
    vm_compute; reflexivity.
Defined.

(** ** Loading a nested mapping *)

(** X30.  When [setGrants] takes a nested mapping in which no role has an
    inheritance list, the store is that mapping as it is, every subject
    and every resource in it has a valid name, and every attribute list in
    it is free of blank strings. *)
Theorem X30_nested_load_is_checked :
  forall (depth : nat) (input : Grants) (w w' : World),
    allObj input ->
    AccessControl.setGrants depth (GObject input) w = (Ok tt, w') ->
    store w' = input
    /\ (forall s role,
          input !! s = Some role ->
          utils.validName s false = Ok true
          /\ forall r d,
               role !! r = Some (EObj d) ->
               utils.validName r false = Ok true
               /\ forall ap l, d !! ap = Some l ->
                    utils.isFilledStringArray l = true).
Proof.
  intros depth input w w' Hall H.
  apply setGrants_Ok in H as (g & Hg & ->).
  pose proof (nested_load_allObj depth input g Hall Hg) as ->.
  split; [unfold store; by rewrite newGrants_lookup|].
  intros s role Hs.
  destruct (getInspectedGrants_good depth _ _ Hg s role Hs) as [Hn Hk].
  split; [by apply goodName_validName|]. intros r d Hr.
  split; [apply goodName_validName, (Hk r _ Hr)|].
  intros ap l Hl. by eapply nested_load_filled.
Qed.

Lemma X30_nested_load_is_checked_witness :
  store (AccessControl.setGrants 8 (GObject nestedRead) world0).2 = nestedRead.
Proof.
  refine (proj1 (X30_nested_load_is_checked 8 nestedRead world0 _ _
                   ltac:(vm_compute; reflexivity))).
  intros s role k e. unfold nestedRead.
  intros [<- <-]%lookup_singleton_Some [<- <-]%lookup_singleton_Some.
  by eexists.
Defined.
